(** * AURA backend: connection graph, similarity ranking and feed aggregation

    A shallow embedding of the three service modules of the backend
    ([dbService.js], [matchingService.js], [feedService.js]) together with
    the properties established about them.

    Conventions of the embedding.
    - Farcaster ids and every other JavaScript integer are [Z]; scores, which
      the source computes with JavaScript numbers, are exact rationals [Q]
      (the rounding step [Math.round(score * 100) / 100] is written out;
      the error of the floating-point operations themselves is not
      modelled).
      Where the code can meet a number that is no integer (a quotient by
      zero, the offset of a cursor that a client made up) the number is a
      [JsNumber]: a rational, an infinity or [NaN].
    - The three Postgres tables are finite maps keyed by their UNIQUE
      column(s); a row is the key together with the remaining columns.
      Store I/O failures are outside the model: every query returns. The
      foreign key of the personas on the users is the predicate
      [fk_personas_fid] on stores.
    - A thrown [Error] is the [Err] case of [Result], carrying the message.
    - Platform and network functions the services call ([toLowerCase],
      the random comparator handed to [sort], the Neynar feed endpoint,
      [Date] parsing, the Buffer/JSON cursor codec) are parameters.

    Three further modules are embedded for the properties of the second
    part: the feed controller ([feedController.js]), the points service
    ([orchidDbService.js], without its transaction listing, whose order
    among equal time stamps the query leaves open) and the rate limiting
    of the notification service ([notificationService.js]), whose clock is
    the sequence of the readings of [Date.now()]. *)

From Stdlib Require Import QArith Qround Qminmax Lqa.
From stdpp Require Import gmap strings list fin_maps sorting pretty.

Open Scope Z_scope.

(** ** JavaScript helpers *)

Inductive Result (A : Type) : Type :=
  | Ok (a : A)
  | Err (msg : string).
Arguments Ok {A} a.
Arguments Err {A} msg.

Definition is_Ok {A} (r : Result A) : Prop :=
  match r with Ok _ => True | Err _ => False end.

(** The one-character string holding a double quote. *)
Definition dquote : string := String (Ascii.ascii_of_nat 34) EmptyString.

(** Truthiness of an optional string: [null], [undefined] and the empty
    string are falsy. *)
Definition truthy_str (o : option string) : bool :=
  match o with
  | Some s => negb (String.eqb s "")
  | None => false
  end.

(** [a || b] on optional strings. *)
Definition or_str (a b : option string) : option string :=
  if truthy_str a then a else b.

(** [arr || []]: an array, even an empty one, is truthy. *)
Definition or_empty {A} (o : option (list A)) : list A := default [] o.

(** [Array.prototype.slice(start, end)] with JavaScript's treatment of
    negative and out-of-range indices. *)
Definition js_slice {A} (l : list A) (start stop : Z) : list A :=
  let len := Z.of_nat (length l) in
  let k := if start <? 0 then Z.max (len + start) 0 else Z.min start len in
  let fin := if stop <? 0 then Z.max (len + stop) 0 else Z.min stop len in
  take (Z.to_nat (fin - k)) (drop (Z.to_nat k) l).

(** [Array.prototype.sort(cmp)] for a comparator that is a consistent
    ordering: the sort is stable, and [a] stays before [b] unless
    [cmp a b > 0]. *)
Fixpoint js_sort_insert {A} (cmp : A → A → Q) (x : A) (l : list A) : list A :=
  match l with
  | [] => [x]
  | y :: l' =>
      if Qle_bool (cmp x y) 0 then x :: y :: l'
      else y :: js_sort_insert cmp x l'
  end.

Definition js_sort {A} (cmp : A → A → Q) (l : list A) : list A :=
  foldr (js_sort_insert cmp) [] l.

(** [Math.ceil(a / b)] on integers, for [b] other than zero. *)
Definition ceil_div (a b : Z) : Z := Qceiling (inject_Z a / inject_Z b).

(** A JavaScript number where the code can meet one that is no integer: a
    finite number as the rational it is, an infinity, or [NaN]. *)
Inductive JsNumber : Type :=
  | Finite (q : Q)
  | PosInfinity
  | NegInfinity
  | NaN.

(** An integer as a number. *)
Definition integer (n : Z) : JsNumber := Finite (inject_Z n).
Coercion integer : Z >-> JsNumber.

(** [Math.ceil(a / b)] on integers, whatever [b]: a division by zero gives
    an infinity, and [NaN] for 0 / 0. *)
Definition Math_ceil_div (a b : Z) : JsNumber :=
  if b =? 0 then
    if 0 <? a then PosInfinity else if a <? 0 then NegInfinity else NaN
  else ceil_div a b.

(** [x + n] for an integer [n]. *)
Definition js_plus (x : JsNumber) (n : Z) : JsNumber :=
  match x with
  | Finite q => Finite (Qnum q + n * QDen q # Qden q)
  | PosInfinity => PosInfinity
  | NegInfinity => NegInfinity
  | NaN => NaN
  end.

(** [x < n] for an integer [n]. *)
Definition js_lt (x : JsNumber) (n : Z) : bool :=
  match x with
  | Finite q => negb (Qle_bool (inject_Z n) q)
  | NegInfinity => true
  | PosInfinity | NaN => false
  end.

(** [ToIntegerOrInfinity] of an argument of [slice] on an array of length
    [len]: a finite number is truncated, [NaN] is 0, and an infinity is
    brought to [len] or [- len], which [slice] treats as it treats the
    infinity. *)
Definition slice_index (len : Z) (x : JsNumber) : Z :=
  match x with
  | Finite q => if Qle_bool 0 q then Qfloor q else Qceiling q
  | PosInfinity => len
  | NegInfinity => - len
  | NaN => 0
  end.

(** ** dbService.js *)

Module DbService.

(** Table [user_swipes], UNIQUE (user_fid, target_fid). *)
Record SwipeCols := mkSwipeCols {
  action : string;
  created_at : Z;
  updated_at : Z;
}.

Record Swipe := mkSwipe {
  user_fid : Z;
  target_fid : Z;
  swipe_cols :> SwipeCols;
}.

(** Table [users], UNIQUE fid: the columns the services read. *)
Record User := mkUser {
  username : string;
  display_name : string;
  pfp_url : string;
  bio_text : string;
  follower_count : Z;
  following_count : Z;
  power_badge : bool;
  user_score : Q;
}.

(** Table [personas], UNIQUE farcaster_fid. JSONB and VARCHAR columns
    are nullable. *)
Record PersonaCols := mkPersonaCols {
  core_interests : option (list string);
  projects_protocols : option (list string);
  expertise_level : option string;
  engagement_style : option string;
  content_themes : option (list string);
  top_channels : option (list string);
  summary : option string;
  analyzed_at : Z;
}.

Record Persona := mkPersona {
  farcaster_fid : Z;
  persona_cols :> PersonaCols;
}.

Record Db := mkDb {
  user_swipes : gmap (Z * Z) SwipeCols;
  users : gmap Z User;
  personas : gmap Z PersonaCols;
}.

(** The foreign key [fk_personas_fid] of the schema: the fid of every
    persona is the fid of a user. *)
Definition fk_personas_fid (db : Db) : Prop :=
  ∀ fid persona,
    personas db !! fid = Some persona → is_Some (users db !! fid).

Definition swipe_rows (db : Db) : list Swipe :=
  (λ kv, mkSwipe kv.1.1 kv.1.2 kv.2) <$> map_to_list (user_swipes db).

Definition persona_rows (db : Db) : list Persona :=
  (λ kv, mkPersona kv.1 kv.2) <$> map_to_list (personas db).

(** [getUserByFid]: [.single()] on the unique column; no row is [null]. *)
Definition getUserByFid (db : Db) (fid : Z) : option User :=
  users db !! fid.

Definition getPersonaByFid (db : Db) (fid : Z) : option Persona :=
  mkPersona fid <$> personas db !! fid.

(** [getAllPersonasExcept]: every other persona, most recently analysed
    first (personas analysed at the same time are in table order). *)
Definition getAllPersonasExcept (db : Db) (excludeFid : Z) : list Persona :=
  js_sort (λ a b : Persona, inject_Z (analyzed_at b - analyzed_at a))
    (filter (λ p, farcaster_fid p ≠ excludeFid) (persona_rows db)).

(** [recordSwipe]: validate, then upsert on (user_fid, target_fid). The
    payload carries no timestamps: [created_at] defaults to [now] on
    insert and is kept on update, [updated_at] is set by the trigger. The
    refusal of a fid that is no user, by the foreign keys of [user_swipes]
    on [users], is an error of the store and like the others outside the
    model. *)
Definition recordSwipe (db : Db) (now : Z) (userFid targetFid : Z)
    (act : string) : Result (Swipe * Db) :=
  if bool_decide (act ∉ ["like"; "reject"]) then
    Err ("Failed to record swipe: Action must be either " +:+ dquote
         +:+ "like" +:+ dquote +:+ " or " +:+ dquote +:+ "reject" +:+ dquote)
  else if bool_decide (userFid = targetFid) then
    Err "Failed to record swipe: User cannot swipe on themselves"
  else
    let cols :=
      match user_swipes db !! (userFid, targetFid) with
      | Some old => mkSwipeCols act (created_at old) now
      | None => mkSwipeCols act now now
      end in
    Ok (mkSwipe userFid targetFid cols,
        mkDb (<[(userFid, targetFid) := cols]> (user_swipes db))
             (users db) (personas db)).

Definition getSwipedUserFids (db : Db) (userFid : Z) : list Z :=
  target_fid <$> filter (λ s, user_fid s = userFid) (swipe_rows db).

(** [getUserMatches]: the users this user liked who liked them back. *)
Definition getUserMatches (db : Db) (userFid : Z) : list Z :=
  let userLikes :=
    filter (λ s, user_fid s = userFid ∧ action s = "like") (swipe_rows db) in
  if bool_decide (userLikes = []) then []
  else
    let likedFids := target_fid <$> userLikes in
    let mutualLikes :=
      filter (λ s, user_fid s ∈ likedFids ∧ target_fid s = userFid
                   ∧ action s = "like") (swipe_rows db) in
    user_fid <$> mutualLikes.

Record Request := mkRequest {
  fid : Z;
  request_created_at : Z;
}.

(** [getRequestsSent]: likes of this user that are not yet mutual. *)
Definition getRequestsSent (db : Db) (userFid : Z) : list Request :=
  let userLikes :=
    filter (λ s, user_fid s = userFid ∧ action s = "like") (swipe_rows db) in
  if bool_decide (userLikes = []) then []
  else
    let matchedFids := getUserMatches db userFid in
    (λ s, mkRequest (target_fid s) (created_at s)) <$>
      filter (λ s, target_fid s ∉ matchedFids) userLikes.

(** [getRequestsReceived]: likes towards this user that they have not
    returned. *)
Definition getRequestsReceived (db : Db) (userFid : Z) : list Request :=
  let receivedLikes :=
    filter (λ s, target_fid s = userFid ∧ action s = "like") (swipe_rows db) in
  if bool_decide (receivedLikes = []) then []
  else
    let likedByFids := user_fid <$> receivedLikes in
    let matchedFids := getUserMatches db userFid in
    let myLikes :=
      filter (λ s, user_fid s = userFid ∧ action s = "like"
                   ∧ target_fid s ∈ likedByFids) (swipe_rows db) in
    let myLikedFids := target_fid <$> myLikes in
    (λ s, mkRequest (user_fid s) (created_at s)) <$>
      filter (λ s, (user_fid s ∉ myLikedFids) ∧ (user_fid s ∉ matchedFids))
        receivedLikes.

(** [checkIfMatched]: two point lookups, each limited to one row. *)
Definition checkIfMatched (db : Db) (userFid1 userFid2 : Z) : bool :=
  let swipe1 :=
    take 1 (filter (λ s, user_fid s = userFid1 ∧ target_fid s = userFid2
                         ∧ action s = "like") (swipe_rows db)) in
  let swipe2 :=
    take 1 (filter (λ s, user_fid s = userFid2 ∧ target_fid s = userFid1
                         ∧ action s = "like") (swipe_rows db)) in
  (bool_decide (0 < length swipe1)%nat)
  && (bool_decide (0 < length swipe2)%nat).

(** Specification predicate, used to state properties of the queries
    above: the table holds a like from [a] to [b]. *)
Definition hasLiked (db : Db) (a b : Z) : Prop :=
  ∃ c, user_swipes db !! (a, b) = Some c ∧ action c = "like".

End DbService.

(** ** matchingService.js *)

(** [Math.round]: the nearest integer, halves towards positive infinity. *)
Definition Math_round (x : Q) : Z := Qfloor (x + (1 # 2)).

(** [arr.length] as a JavaScript number. *)
Definition len {A} (l : list A) : Q := inject_Z (Z.of_nat (length l)).

(** [Array.prototype.indexOf] on strings: the first position, or -1. *)
Fixpoint indexOf_from (i : Z) (l : list string) (x : string) : Z :=
  match l with
  | [] => -1
  | y :: l' => if String.eqb y x then i else indexOf_from (i + 1) l' x
  end.

Definition indexOf (l : list string) (x : string) : Z := indexOf_from 0 l x.

#[global] Instance Qlt_decision (x y : Q) : Decision (x < y)%Q :=
  match Qlt_le_dec x y with
  | left H => left H
  | right H => right (Qle_not_lt _ _ H)
  end.

#[global] Instance Qeq_decision (x y : Q) : Decision (x == y)%Q := Qeq_dec x y.

Module MatchingService.
Import DbService.

Record Keywords := mkKeywords {
  interests : list string;
  projects : list string;
  themes : list string;
  channels : list string;
}.

Record MatchResult := mkMatchResult {
  score : Q;
  matchingKeywords : Keywords;
}.

(** An entry of [matchesWithScores]: [{ persona, ...matchResult }]. *)
Record Match := mkMatch {
  persona : Persona;
  match_result :> MatchResult;
}.

(** An entry of the returned [matches]: the user's columns, the match score
    and evidence, and three persona columns. *)
Record MatchedUser := mkMatchedUser {
  m_fid : Z;
  m_user : User;
  match_score : Q;
  matching_keywords : Keywords;
  persona_summary : option string;
  m_expertise_level : option string;
  m_engagement_style : option string;
}.

Record Pagination := mkPagination {
  page : Z;
  limit : Z;
  total : Z;
  totalPages : JsNumber;
}.

Record MatchingUsers := mkMatchingUsers {
  matches : list MatchedUser;
  pagination : Pagination;
}.

Definition levels : list string := ["beginner"; "intermediate"; "expert"].

Section WithPlatform.

(** [String.prototype.toLowerCase]. *)
Variable toLowerCase : string → string.

(** The outcome of [arr.sort(() => Math.random() - 0.5)] on the backfill
    candidates. *)
Variable shuffle : list Match → list Match.

(** [arrayIntersection]: the entries of [arr1] that occur in [arr2] up to
    letter case. *)
Definition arrayIntersection (arr1 arr2 : list string) : list string :=
  if bool_decide (arr1 = [] ∨ arr2 = []) then []
  else
    let lower2 := toLowerCase <$> arr2 in
    filter (λ item, toLowerCase item ∈ lower2) arr1.

(** The block repeated for each of the four array categories: the common
    entries, and [(common.length / Math.max(a.length, b.length, 1)) * weight]
    when there are any. *)
Definition categoryMatch (weight : Q) (a b : option (list string))
    : Q * list string :=
  let common := arrayIntersection (or_empty a) (or_empty b) in
  if bool_decide (0 < length common)%nat then
    ((len common / Qmax (Qmax (len (or_empty a)) (len (or_empty b))) 1)
       * weight, common)%Q
  else (0%Q, []).

(** The expertise-level block: full weight on equal levels, half weight
    when the positions on [levels] differ by one. *)
Definition expertiseMatch (userPersona matchPersona : Persona) : Q :=
  match expertise_level userPersona, expertise_level matchPersona with
  | Some ul, Some ml =>
      if negb (String.eqb ul "") && negb (String.eqb ml "") then
        if String.eqb ul ml then 15%Q
        else
          let userLevel := indexOf levels ul in
          let matchLevel := indexOf levels ml in
          if Z.abs (userLevel - matchLevel) =? 1 then (15 # 2)%Q else 0%Q
      else 0%Q
  | _, _ => 0%Q
  end.

(** The engagement-style block: full weight on equal styles. *)
Definition engagementMatch (userPersona matchPersona : Persona) : Q :=
  match engagement_style userPersona, engagement_style matchPersona with
  | Some us, Some ms =>
      if negb (String.eqb us "") && negb (String.eqb ms "") then
        if String.eqb us ms then 10%Q else 0%Q
      else 0%Q
  | _, _ => 0%Q
  end.

Definition calculateMatchScore (userPersona matchPersona : Persona)
    : MatchResult :=
  let score := 0%Q in
  let '(interestScore, commonInterests) :=
    categoryMatch 30 (core_interests userPersona) (core_interests matchPersona) in
  let score := (score + interestScore)%Q in
  let '(projectScore, commonProjects) :=
    categoryMatch 25 (projects_protocols userPersona)
      (projects_protocols matchPersona) in
  let score := (score + projectScore)%Q in
  let score := (score + expertiseMatch userPersona matchPersona)%Q in
  let score := (score + engagementMatch userPersona matchPersona)%Q in
  let '(themeScore, commonThemes) :=
    categoryMatch 15 (content_themes userPersona) (content_themes matchPersona) in
  let score := (score + themeScore)%Q in
  let '(channelScore, commonChannels) :=
    categoryMatch 5 (top_channels userPersona) (top_channels matchPersona) in
  let score := (score + channelScore)%Q in
  let score := Qmin 100 (inject_Z (Math_round (score * 100)) / 100) in
  mkMatchResult score
    (mkKeywords commonInterests commonProjects commonThemes commonChannels).

(** Specification predicate: no array category of the persona holds an
    entry twice, up to letter case. *)
Definition distinct_entries (p : Persona) : Prop :=
  NoDup (toLowerCase <$> or_empty (core_interests p))
  ∧ NoDup (toLowerCase <$> or_empty (projects_protocols p))
  ∧ NoDup (toLowerCase <$> or_empty (content_themes p))
  ∧ NoDup (toLowerCase <$> or_empty (top_channels p)).

(** An entry of [matchesWithScores]. *)
Definition withScore (userPersona persona : Persona) : Match :=
  mkMatch persona (calculateMatchScore userPersona persona).

Definition noKeywords : Keywords := mkKeywords [] [] [] [].

(** The backfill step: taken when the page of scored matches is short. *)
Definition backfill (fid : Z) (limit : Z) (swipedFids : list Z)
    (matchesWithScores paginatedMatches : list Match) : list Match :=
  if Z.of_nat (length paginatedMatches) <? limit then
    let matchedFids :=
      fid :: swipedFids
        ++ ((λ m, farcaster_fid (persona m)) <$> paginatedMatches) in
    let neededRandom := limit - Z.of_nat (length paginatedMatches) in
    let nonMatchingPersonas :=
      filter (λ m, farcaster_fid (persona m) ∉ matchedFids)
        (filter (λ m : Match, score m == 0)%Q matchesWithScores) in
    let shuffledNonMatches := shuffle nonMatchingPersonas in
    let randomPersonas := js_slice shuffledNonMatches 0 neededRandom in
    let randomMatches :=
      (λ m, mkMatch (persona m) (mkMatchResult 0 noKeywords))
        <$> randomPersonas in
    paginatedMatches ++ randomMatches
  else paginatedMatches.

(** The profile lookup of one page entry; [None] is the [null] that is
    filtered out afterwards. *)
Definition toMatchedUser (db : Db) (m : Match) : option MatchedUser :=
  match getUserByFid db (farcaster_fid (persona m)) with
  | None => None
  | Some user =>
      Some (mkMatchedUser (farcaster_fid (persona m)) user (score m)
              (matchingKeywords m) (summary (persona m))
              (expertise_level (persona m)) (engagement_style (persona m)))
  end.

(** The candidate universe [allPersonas]: every other persona the user has
    not swiped on. *)
Definition allPersonas (db : Db) (fid : Z) : list Persona :=
  let swipedFids := getSwipedUserFids db fid in
  filter (λ p, farcaster_fid p ∉ swipedFids) (getAllPersonasExcept db fid).

Definition getMatchingUsers (db : Db) (fid page limit : Z)
    : Result MatchingUsers :=
  if fid =? 0 then Err "Failed to get matching users: FID is required"
  else
    match getPersonaByFid db fid with
    | None =>
        Err ("Failed to get matching users: "
             +:+ "User persona not found. Please create persona first.")
    | Some userPersona =>
        let swipedFids := getSwipedUserFids db fid in
        let allPersonas := allPersonas db fid in
        if bool_decide (allPersonas = []) then
          Ok (mkMatchingUsers [] (mkPagination page limit 0 0))
        else
          let matchesWithScores := withScore userPersona <$> allPersonas in
          let actualMatches :=
            js_sort (λ a b : Match, score b - score a)%Q
              (filter (λ m : Match, 0 < score m)%Q matchesWithScores) in
          let startIndex := (page - 1) * limit in
          let endIndex := startIndex + limit in
          let paginatedMatches := js_slice actualMatches startIndex endIndex in
          let paginatedMatches :=
            backfill fid limit swipedFids matchesWithScores paginatedMatches in
          let matchedUsers := toMatchedUser db <$> paginatedMatches in
          let validMatches := omap id matchedUsers in
          let totalAvailable := Z.of_nat (length actualMatches) in
          let nonMatchingPersonas :=
            filter (λ m : Match, score m == 0)%Q matchesWithScores in
          let totalRandom := Z.of_nat (length nonMatchingPersonas) in
          let totalCount := totalAvailable + totalRandom in
          Ok (mkMatchingUsers validMatches
                (mkPagination page limit totalCount
                   (Math_ceil_div totalCount limit)))
    end.

End WithPlatform.
End MatchingService.

(** ** feedService.js *)

Module FeedService.

(** Maximum FIDs per API call (Neynar limit). *)
Definition MAX_FIDS_PER_CALL : Z := 100.

Record Author := mkAuthor {
  fid : option Z;
}.

(** [cast.reactions]: the arrays are [None] when absent or not arrays, the
    counts are [None] when [undefined] or [null]. *)
Record Reactions := mkReactions {
  likes : option (list Z);
  likes_count : option Z;
  recasts : option (list Z);
  recasts_count : option Z;
}.

(** [cast.replies], when truthy: an object with an optional [count], or an
    array. *)
Inductive Replies : Type :=
  | RepliesObject (count : option Z)
  | RepliesArray (items : list Z).

Record Cast := mkCast {
  hash : option string;
  thread_hash : option string;
  author : option Author;
  text : string;
  timestamp : option string;
  created_at : option string;
  reactions : option Reactions;
  replies : option Replies;
}.

(** What the HTTP exchange with the feed endpoint comes to: a failure (the
    request threw, or the response was not ok) with the message of the
    error raised for it, or the parsed body with its optional [casts]. *)
Inductive FetchOutcome : Type :=
  | Rejected (message : string)
  | Json (casts : option (list Cast)).

Record FeedPagination := mkFeedPagination {
  hasMore : bool;
  nextCursor : option string;
  totalMatchedUsers : Z;
  castsReturned : option Z;
  totalCastsAvailable : option Z;
}.

Record FeedMetadata := mkFeedMetadata {
  matchedUsersCount : Z;
  apiCallsMade : Z;
  batchesUsed : option Z;
  totalCastsFetched : option Z;
}.

Record Feed := mkFeed {
  casts : list Cast;
  pagination : FeedPagination;
  metadata : FeedMetadata;
}.

Record Options := mkOptions {
  limit : option Z;
  cursor : option string;
}.

(** What [cursorData.offset || 0] can be, as [+] and [slice] take it: a
    number ([true] is taken as 1); a string, which stands for itself or for
    the array or object that is converted to it; or an object whose
    conversion to a primitive throws, with the message of the error. *)
Inductive Offset : Type :=
  | NumberOffset (x : JsNumber)
  | StringOffset (s : string)
  | ThrowingOffset (message : string).

(** [cast.author?.fid] *)
Definition authorFid (cast : Cast) : option Z := author cast ≫= fid.

(** [cast.hash || cast.thread_hash] *)
Definition castKey (cast : Cast) : option string :=
  or_str (hash cast) (thread_hash cast).

Section WithPlatform.

(** The Neynar feed endpoint, called with the fids of the query string and
    the optional viewer fid. *)
Variable neynar_feed : list Z → option Z → FetchOutcome.

(** [new Date(s).getTime()]; [None] is [NaN]. *)
Variable Date_getTime : string → option Z.

(** [Buffer.from(JSON.stringify({ offset, timestamp })).toString('base64')] *)
Variable encodeCursor : Offset → Z → string.

(** [JSON.parse(Buffer.from(cursor, 'base64').toString()).offset || 0];
    [None] when the parsing or the property access throws. *)
Variable decodeCursor : string → option Offset.

(** [Number(s)]: the number a string is converted to. *)
Variable String_toNumber : string → JsNumber.

Definition fetchCastsFromFids (fids : list Z) (viewerFid : Z)
    : Result (list Cast) :=
  if bool_decide (fids = []) then Ok []
  else
    match neynar_feed (js_slice fids 0 MAX_FIDS_PER_CALL)
            (if viewerFid =? 0 then None else Some viewerFid) with
    | Rejected message => Err ("Failed to fetch casts: " +:+ message)
    | Json casts => Ok (or_empty casts)
    end.

Definition parseCastTimestamp (cast : Cast) : Z :=
  let from_created_at :=
    match created_at cast with
    | Some s =>
        if String.eqb s "" then 0 else default 0 (Date_getTime s)
    | None => 0
    end in
  match timestamp cast with
  | Some s =>
      if String.eqb s "" then from_created_at
      else
        match Date_getTime s with
        | Some ts => ts
        | None => from_created_at
        end
  | None => from_created_at
  end.

(** The batching loop: [i] runs from 0 in steps of [MAX_FIDS_PER_CALL]
    while below the number of fids; [fuel] bounds the iterations. *)
Fixpoint batches_from (fuel : nat) (i : Z) (matchedFids : list Z)
    : list (list Z) :=
  match fuel with
  | O => []
  | S fuel' =>
      if i <? Z.of_nat (length matchedFids) then
        js_slice matchedFids i (i + MAX_FIDS_PER_CALL)
          :: batches_from fuel' (i + MAX_FIDS_PER_CALL) matchedFids
      else []
  end.

(** The fetch stage: the fetched casts and [apiCallsMade]. With more than
    [MAX_FIDS_PER_CALL] fids each batch has its own [catch]; a single batch
    is awaited directly. *)
Definition fetchAllCasts (userFid : Z) (matchedFids : list Z)
    : Result (list Cast * Z) :=
  if MAX_FIDS_PER_CALL <? Z.of_nat (length matchedFids) then
    let batches := batches_from (length matchedFids) 0 matchedFids in
    let batchResults :=
      (λ batch,
         match fetchCastsFromFids batch userFid with
         | Ok casts => casts
         | Err _ => []
         end) <$> batches in
    Ok (concat batchResults, Z.of_nat (length batches))
  else
    match fetchCastsFromFids matchedFids userFid with
    | Ok casts => Ok (casts, 1)
    | Err message => Err message
    end.

(** The authorization filter: only casts authored by a matched user. *)
Definition authoredByMatched (matchedFids : list Z) (cast : Cast) : Prop :=
  match authorFid cast with
  | Some authorFid => authorFid ≠ 0 ∧ authorFid ∈ matchedFids
  | None => False
  end.

#[global] Instance authoredByMatched_dec matchedFids cast :
  Decision (authoredByMatched matchedFids cast).
Proof. unfold authoredByMatched. destruct (authorFid cast); apply _. Defined.

(** Removal of duplicates: the first cast of each key is kept, casts
    without a key are dropped. *)
Fixpoint dedup (seenHashes : gset string) (allCasts : list Cast) : list Cast :=
  match allCasts with
  | [] => []
  | cast :: rest =>
      match castKey cast with
      | Some h =>
          if String.eqb h "" then dedup seenHashes rest
          else if bool_decide (h ∈ seenHashes) then dedup seenHashes rest
          else cast :: dedup ({[h]} ∪ seenHashes) rest
      | None => dedup seenHashes rest
      end
  end.

(** Engagement counters: a count given by the API is kept, a missing one is
    the length of the array, or zero. *)
Definition normalizeCast (cast : Cast) : Cast :=
  let r := default (mkReactions (Some []) (Some 0) (Some []) (Some 0))
             (reactions cast) in
  let count_of (count : option Z) (arr : option (list Z)) : option Z :=
    match count, arr with
    | Some n, _ => Some n
    | None, Some l => Some (Z.of_nat (length l))
    | None, None => Some 0
    end in
  let array_of (arr : option (list Z)) : option (list Z) :=
    Some (default [] arr) in
  let reactions' :=
    mkReactions (array_of (likes r)) (count_of (likes_count r) (likes r))
      (array_of (recasts r)) (count_of (recasts_count r) (recasts r)) in
  let replies' :=
    match replies cast with
    | None => RepliesObject (Some 0)
    | Some (RepliesObject (Some n)) => RepliesObject (Some n)
    | Some (RepliesArray items) =>
        RepliesObject (Some (Z.of_nat (length items)))
    | Some (RepliesObject None) => RepliesObject (Some 0)
    end in
  mkCast (hash cast) (thread_hash cast) (author cast) (text cast)
    (timestamp cast) (created_at cast) (Some reactions') (Some replies').

(** The stages between fetching and pagination: filter, sort by timestamp
    (newest first), remove duplicates, normalize. *)
Definition processCasts (matchedFids : list Z) (allCasts : list Cast)
    : list Cast :=
  let allCasts := filter (authoredByMatched matchedFids) allCasts in
  let allCasts :=
    js_sort (λ a b, inject_Z (parseCastTimestamp b - parseCastTimestamp a))
      allCasts in
  let allCasts := dedup ∅ allCasts in
  normalizeCast <$> allCasts.

(** [startIndex]: what a cursor gives for the offset; an absent, empty or
    undecodable cursor starts from the beginning. *)
Definition startIndexOf (cursor : option string) : Offset :=
  match cursor with
  | Some c =>
      if String.eqb c "" then NumberOffset 0
      else default (NumberOffset 0) (decodeCursor c)
  | None => NumberOffset 0
  end.

(** [startIndex + limit]: the sum of two numbers, or the string followed by
    the digits of the limit; the conversion of an object can throw. *)
Definition endIndexOf (startIndex : Offset) (limit : Z) : Result Offset :=
  match startIndex with
  | NumberOffset x => Ok (NumberOffset (js_plus x limit))
  | StringOffset s => Ok (StringOffset (s +:+ pretty limit))
  | ThrowingOffset message => Err message
  end.

(** The number that [slice] and [<] take an offset for. *)
Definition ToNumber (offset : Offset) : JsNumber :=
  match offset with
  | NumberOffset x => x
  | StringOffset s => String_toNumber s
  | ThrowingOffset _ => NaN
  end.

Definition getConnectedUsersFeed (db : DbService.Db) (now : Z) (userFid : Z)
    (limit : Z) (cursor : option string) : Result Feed :=
  let matchedFids := DbService.getUserMatches db userFid in
  if bool_decide (matchedFids = []) then
    Ok (mkFeed [] (mkFeedPagination false None 0 None None)
          (mkFeedMetadata 0 0 None None))
  else
    match fetchAllCasts userFid matchedFids with
    | Err message =>
        Err ("Failed to get connected users feed: " +:+ message)
    | Ok (fetched, apiCallsMade) =>
        let allCasts := processCasts matchedFids fetched in
        let startIndex := startIndexOf cursor in
        match endIndexOf startIndex limit with
        | Err message =>
            Err ("Failed to get connected users feed: " +:+ message)
        | Ok endIndex =>
            let available := Z.of_nat (length allCasts) in
            let paginatedCasts :=
              js_slice allCasts (slice_index available (ToNumber startIndex))
                (slice_index available (ToNumber endIndex)) in
            let finalHasMore := js_lt (ToNumber endIndex) available in
            let finalNextCursor :=
              if finalHasMore then Some (encodeCursor endIndex now)
              else None in
            let matched := Z.of_nat (length matchedFids) in
            Ok (mkFeed paginatedCasts
                  (mkFeedPagination finalHasMore finalNextCursor matched
                     (Some (Z.of_nat (length paginatedCasts)))
                     (Some available))
                  (mkFeedMetadata matched apiCallsMade
                     (Some (if MAX_FIDS_PER_CALL <? matched
                            then ceil_div matched MAX_FIDS_PER_CALL else 1))
                     (Some available)))
        end
    end.

(** [getFeed]: the entry point; the limit defaults to 25 and is clamped
    to 1..100. *)
Definition getFeed (db : DbService.Db) (now : Z) (userFid : Z)
    (options : Options) : Result Feed :=
  let limit := default 25 (limit options) in
  let validLimit := Z.min (Z.max 1 limit) 100 in
  getConnectedUsersFeed db now userFid validLimit (cursor options).

End WithPlatform.
End FeedService.

(** ** feedController.js *)

Module FeedController.

(** [req.query]: each parameter absent or a string. *)
Record Query := mkQuery {
  fid : option string;
  limit : option string;
  cursor : option string;
}.

(** What the handler sends: status 400 with an error, or status 200 with
    the feed. *)
Inductive Response : Type :=
  | Status400 (error : string)
  | Status200 (data : FeedService.Feed).

Section WithPlatform.

Variable neynar_feed : list Z → option Z → FeedService.FetchOutcome.
Variable Date_getTime : string → option Z.
Variable encodeCursor : FeedService.Offset → Z → string.
Variable decodeCursor : string → option FeedService.Offset.
Variable String_toNumber : string → JsNumber.

(** [parseInt] of a string; [None] is [NaN]. *)
Variable parseInt : string → option Z.

(** [getFeed]: an error of the service is thrown on to the error
    handler. *)
Definition getFeed (db : DbService.Db) (now : Z) (query : Query)
    : Result Response :=
  if negb (truthy_str (fid query)) then Ok (Status400 "fid is required")
  else
    match parseInt (default "" (fid query)) with
    | None => Ok (Status400 "fid must be a valid number")
    | Some fidNumber =>
        let serve (limitNumber : Z) : Result Response :=
          match FeedService.getFeed neynar_feed Date_getTime encodeCursor
                  decodeCursor String_toNumber db now fidNumber
                  (FeedService.mkOptions (Some limitNumber)
                     (or_str (cursor query) None)) with
          | Ok feedData => Ok (Status200 feedData)
          | Err message => Err message
          end in
        if truthy_str (limit query) then
          match parseInt (default "" (limit query)) with
          | None => Ok (Status400 "limit must be a number between 1 and 100")
          | Some limitNumber =>
              if (limitNumber <? 1) || (100 <? limitNumber) then
                Ok (Status400 "limit must be a number between 1 and 100")
              else serve limitNumber
          end
        else serve 25
    end.

End WithPlatform.
End FeedController.

(** ** orchidDbService.js *)

Module OrchidDbService.

(** Table [point_events]: [id] is AUTOINCREMENT, (rule_key, source_id) is
    UNIQUE. *)
Record PointEvent := mkPointEvent {
  id : Z;
  profile_id : Z;
  rule_key : string;
  delta : Z;
  source_id : string;
  evidence : option string;
  created_at : string;
}.

(** The store behind the Turso client: table [profiles] as the [id] of
    each [farcaster_fid] (UNIQUE), table [scores] as the [total_points] of
    each [profile_id] (PRIMARY KEY), the rows of [point_events] in the
    order of their insertion and the last row id given out for them. *)
Record Db := mkDb {
  profiles : gmap Z Z;
  scores : gmap Z Z;
  point_events : list PointEvent;
  point_events_rowid : Z;
}.

(** The object returned by [deductPoints] and [addPoints]; [points] is its
    field [pointsDeducted], respectively [pointsAdded]. *)
Record PointsResult := mkPointsResult {
  profileId : Z;
  previousPoints : Z;
  points : Z;
  newBalance : Z;
  eventId : Z;
}.

(** The sum of the deltas of the events of a profile. *)
Definition events_total (db : Db) (profileId : Z) : Z :=
  foldr Z.add 0
    (delta <$> filter (λ e, profile_id e = profileId) (point_events db)).

(** The scores table agrees with the event log. *)
Definition ledger_consistent (db : Db) : Prop :=
  ∀ profileId, default 0 (scores db !! profileId) = events_total db profileId.

Section WithPlatform.

(** The object passed as [evidenceData], and [JSON.stringify] of
    [{fid, ...evidenceData, verifiedAt}]. *)
Variable EvidenceData : Type.
Variable JSON_stringify : Z → EvidenceData → string → string.

(** The message of the error the client raises for a violated UNIQUE
    index. *)
Variable unique_violation : string.

(** [tursoClient] is [None] when the store is not configured. *)
Definition getProfileIdByFid (tursoClient : option Db) (fid : Z)
    : Result (option Z) :=
  match tursoClient with
  | None => Err "Turso client not configured"
  | Some db => Ok (profiles db !! fid)
  end.

Definition getCurrentPoints (tursoClient : option Db) (fid : Z) : Result Z :=
  match tursoClient with
  | None => Err "Turso client not configured"
  | Some db =>
      match getProfileIdByFid tursoClient fid with
      | Err message => Err ("Failed to get current points: " +:+ message)
      | Ok None => Ok 0
      | Ok (Some profileId) =>
          if profileId =? 0 then Ok 0
          else Ok (default 0 (scores db !! profileId))
      end
  end.

(** [INSERT INTO point_events ...]: refused when a row with the same
    rule key and source id exists; gives [lastInsertRowid]. *)
Definition insert_point_event (db : Db) (profileId : Z) (ruleKey : string)
    (delta : Z) (sourceId : string) (evidence : option string)
    (createdAt : string) : Result (Z * Db) :=
  if existsb
       (λ e, String.eqb (rule_key e) ruleKey
             && String.eqb (source_id e) sourceId)
       (point_events db)
  then Err unique_violation
  else
    let rowid := point_events_rowid db + 1 in
    Ok (rowid,
        mkDb (profiles db) (scores db)
          (point_events db
           ++ [mkPointEvent rowid profileId ruleKey delta sourceId evidence
                 createdAt])
          rowid).

(** [INSERT INTO scores ... ON CONFLICT(profile_id) DO UPDATE SET
    total_points = total_points + ?] *)
Definition upsert_score (db : Db) (profileId delta : Z) : Db :=
  mkDb (profiles db)
    (<[profileId :=
         match scores db !! profileId with
         | Some total_points => total_points + delta
         | None => delta
         end]> (scores db))
    (point_events db) (point_events_rowid db).

(** The part [deductPoints] and [addPoints] share: the evidence, the event
    and the score. *)
Definition record_points (db : Db) (fid profileId currentPoints points : Z)
    (delta : Z) (ruleKey sourceId : string)
    (evidenceData : option EvidenceData) (createdAt : string)
    : Result (PointsResult * Db) :=
  let evidence :=
    (λ data, JSON_stringify fid data createdAt) <$> evidenceData in
  match insert_point_event db profileId ruleKey delta sourceId evidence
          createdAt with
  | Err message => Err message
  | Ok (eventId, db1) =>
      Ok (mkPointsResult profileId currentPoints points
            (currentPoints + delta) eventId,
          upsert_score db1 profileId delta)
  end.

(** [deductPoints]; [createdAt] is [new Date().toISOString()]. *)
Definition deductPoints (tursoClient : option Db) (fid points : Z)
    (ruleKey sourceId : string) (evidenceData : option EvidenceData)
    (createdAt : string) : Result (PointsResult * Db) :=
  match tursoClient with
  | None => Err "Turso client not configured"
  | Some db =>
      if points <=? 0 then Err "Points to deduct must be positive"
      else
        match getProfileIdByFid tursoClient fid with
        | Err message => Err message
        | Ok profileId =>
            if default 0 profileId =? 0 then
              Err ("Profile not found for FID: " +:+ pretty fid)
            else
              match getCurrentPoints tursoClient fid with
              | Err message => Err message
              | Ok currentPoints =>
                  if currentPoints <? points then
                    Err ("Insufficient points. Current: "
                         +:+ pretty currentPoints +:+ ", Required: "
                         +:+ pretty points)
                  else
                    record_points db fid (default 0 profileId) currentPoints
                      points (- points) ruleKey sourceId evidenceData
                      createdAt
              end
        end
  end.

Definition addPoints (tursoClient : option Db) (fid points : Z)
    (ruleKey sourceId : string) (evidenceData : option EvidenceData)
    (createdAt : string) : Result (PointsResult * Db) :=
  match tursoClient with
  | None => Err "Turso client not configured"
  | Some db =>
      if points <=? 0 then Err "Points to add must be positive"
      else
        match getProfileIdByFid tursoClient fid with
        | Err message => Err message
        | Ok profileId =>
            if default 0 profileId =? 0 then
              Err ("Profile not found for FID: " +:+ pretty fid)
            else
              match getCurrentPoints tursoClient fid with
              | Err message => Err message
              | Ok currentPoints =>
                  record_points db fid (default 0 profileId) currentPoints
                    points points ruleKey sourceId evidenceData createdAt
              end
        end
  end.

End WithPlatform.
End OrchidDbService.

(** ** notificationService.js *)

Module NotificationService.

(** [NOTIFICATION_TYPES] *)
Definition CONNECTION_REQUEST : string := "connection_request".
Definition CONNECTION_ACCEPTED : string := "connection_accepted".
Definition NEW_MESSAGE : string := "new_message".

Record Notification := mkNotification {
  title : string;
  body : string;
  target_url : string;
}.

(** [targetFids]: a number or an array of numbers. *)
Inductive TargetFids : Type :=
  | OneFid (fid : Z)
  | FidArray (fids : list Z).

(** The state of the module: [notificationCache], the time stamp kept for
    each key; the number of readings of the clock made so far; and the
    calls of [publishFrameNotifications] made so far. *)
Record State := mkState {
  notificationCache : gmap string Z;
  readings : nat;
  published : list (list Z * Notification);
}.

Section WithPlatform.

(** [Date.now()]: the time in milliseconds at each reading of the clock. *)
Variable Date_now : nat → Z.

(** [neynarClient.publishFrameNotifications]: the response, or the message
    of the error it throws. *)
Variable Response : Type.
Variable publishFrameNotifications
  : list Z → Notification → Result Response.

(** [process.env.FRONTEND_URL] *)
Variable FRONTEND_URL : option string.

(** [String.prototype.substring] *)
Variable substring : string → Z → Z → string.

Record SendResult := mkSendResult {
  success : bool;
  message : string;
  sent : Z;
  skipped : Z;
  response : option Response;
  error : option string;
}.

Definition getCacheKey (type : string) (fid : Z) (relatedFid : option Z)
    : string :=
  if default 0 relatedFid =? 0 then type +:+ ":" +:+ pretty fid
  else
    type +:+ ":" +:+ pretty fid +:+ ":" +:+ pretty (default 0 relatedFid).

(** [canSendNotification]: the clock is read when the key is cached. *)
Definition canSendNotification (cacheKey : string) (cooldownSeconds : Z)
    (st : State) : bool * State :=
  match notificationCache st !! cacheKey with
  | None => (true, st)
  | Some timestamp =>
      let now := Date_now (readings st) in
      let timeSinceLastNotification := (inject_Z (now - timestamp) / 1000)%Q in
      (Qle_bool (inject_Z cooldownSeconds) timeSinceLastNotification,
       mkState (notificationCache st) (S (readings st)) (published st))
  end.

(** [recordNotification]: the clock is read for the time stamp and again
    for the clean-up of the entries older than one hour. *)
Definition recordNotification (cacheKey : string) (st : State) : State :=
  let cache := <[cacheKey := Date_now (readings st)]> (notificationCache st) in
  let oneHourAgo := Date_now (S (readings st)) - 60 * 60 * 1000 in
  mkState (filter (λ entry, ¬ entry.2 < oneHourAgo) cache)
    (S (S (readings st))) (published st).

Definition getUserDisplayName (db : DbService.Db) (fid : Z) : string :=
  match DbService.getUserByFid db fid with
  | None => "User " +:+ pretty fid
  | Some user =>
      if negb (String.eqb (DbService.display_name user) "") then
        DbService.display_name user
      else if negb (String.eqb (DbService.username user) "") then
        DbService.username user
      else "User " +:+ pretty fid
  end.

Definition getTargetUrl (type : option string) (relatedFid : option Z)
    : string :=
  let baseUrl :=
    default "https://your-frame-domain.com"
      (or_str FRONTEND_URL None) in
  let related := default 0 relatedFid in
  match type with
  | Some t =>
      if String.eqb t CONNECTION_REQUEST then
        baseUrl +:+ "/connections?tab=requests"
      else if String.eqb t CONNECTION_ACCEPTED then
        if related =? 0 then baseUrl +:+ "/connections"
        else baseUrl +:+ "/connections/" +:+ pretty related
      else if String.eqb t NEW_MESSAGE then
        if related =? 0 then baseUrl +:+ "/messages"
        else baseUrl +:+ "/messages/" +:+ pretty related
      else baseUrl
  | None => baseUrl
  end.

(** One round of the loop over the target fids. *)
Definition rate_limit (type : option string) (relatedFid : option Z)
    (acc : list Z * State) (fid : Z) : list Z * State :=
  let '(fidsToNotify, st) := acc in
  if truthy_str type then
    let cacheKey := getCacheKey (default "" type) fid relatedFid in
    let '(can, st1) := canSendNotification cacheKey 30 st in
    if can then (fidsToNotify ++ [fid], recordNotification cacheKey st1)
    else (fidsToNotify, st1)
  else (fidsToNotify ++ [fid], st).

(** [sendNotification]: every error is caught and reported in the
    result. *)
Definition sendNotification (targetFids : TargetFids) (title body : string)
    (targetUrl : option string) (type : option string)
    (relatedFid : option Z) (st : State) : SendResult * State :=
  let fidsArray :=
    match targetFids with OneFid fid => [fid] | FidArray fids => fids end in
  let failed (message : string) : SendResult :=
    mkSendResult false
      (if String.eqb message "" then "Failed to send notification"
       else message)
      0
      match targetFids with
      | OneFid _ => 1
      | FidArray fids => Z.of_nat (length fids)
      end
      None (Some message) in
  if bool_decide (fidsArray = []) then (failed "No target FIDs provided", st)
  else
    let '(fidsToNotify, st1) :=
      foldl (rate_limit type relatedFid) ([], st) fidsArray in
    if bool_decide (fidsToNotify = []) then
      (mkSendResult false "All notifications rate limited" 0
         (Z.of_nat (length fidsArray)) None None,
       st1)
    else
      let notification :=
        mkNotification (substring title 0 100) (substring body 0 500)
          (default (getTargetUrl type relatedFid) (or_str targetUrl None)) in
      let st2 :=
        mkState (notificationCache st1) (readings st1)
          (published st1 ++ [(fidsToNotify, notification)]) in
      match publishFrameNotifications fidsToNotify notification with
      | Ok response =>
          (mkSendResult true "Notification sent successfully"
             (Z.of_nat (length fidsToNotify))
             (Z.of_nat (length fidsArray)
              - Z.of_nat (length fidsToNotify))
             (Some response) None,
           st2)
      | Err message => (failed message, st2)
      end.

Definition notifyConnectionRequest (db : DbService.Db) (fromFid toFid : Z)
    (st : State) : SendResult * State :=
  let fromUserName := getUserDisplayName db fromFid in
  sendNotification (FidArray [toFid]) "💌 New Connection Request"
    (fromUserName +:+ " wants to connect with you!") None
    (Some CONNECTION_REQUEST) (Some fromFid) st.

End WithPlatform.

Arguments mkSendResult {Response}.
Arguments success {Response}.
Arguments message {Response}.
Arguments sent {Response}.
Arguments skipped {Response}.
Arguments response {Response}.
Arguments error {Response}.
Arguments sendNotification Date_now {Response}.
Arguments notifyConnectionRequest Date_now {Response}.

End NotificationService.

(** ** Instances of the platform parameters *)

(** [toLowerCase] on ASCII letters; other bytes are kept. *)
Definition ascii_lower (c : Ascii.ascii) : Ascii.ascii :=
  let n := Ascii.nat_of_ascii c in
  if ((65 <=? n) && (n <=? 90))%nat then Ascii.ascii_of_nat (n + 32) else c.

Fixpoint ascii_toLowerCase (s : string) : string :=
  match s with
  | EmptyString => EmptyString
  | String c s' => String (ascii_lower c) (ascii_toLowerCase s')
  end.

(** A persona holding only an expertise level. *)
Definition persona_with_level (fid : Z) (level : string) : DbService.Persona :=
  DbService.mkPersona fid
    (DbService.mkPersonaCols None None (Some level) None None None None 0).

(** A persona holding only core interests. *)
Definition persona_with_interests (fid : Z) (l : list string)
    : DbService.Persona :=
  DbService.mkPersona fid
    (DbService.mkPersonaCols (Some l) None None None None None None 0).

(** Reading of a decimal numeral at the head of a string: its value and
    the rest of the string. *)
Definition digit_value (c : Ascii.ascii) : option Z :=
  let n := Z.of_N (Ascii.N_of_ascii c) in
  if (48 <=? n) && (n <=? 57) then Some (n - 48) else None.

Fixpoint read_digits (acc : Z) (s : string) : Z * string :=
  match s with
  | EmptyString => (acc, EmptyString)
  | String c s' =>
      match digit_value c with
      | Some d => read_digits (10 * acc + d) s'
      | None => (acc, s)
      end
  end.

Definition read_numeral (s : string) : option (Z * string) :=
  match s with
  | EmptyString => None
  | String c _ =>
      match digit_value c with
      | Some _ => Some (read_digits 0 s)
      | None => None
      end
  end.

Fixpoint strip_prefix (p s : string) : option string :=
  match p, s with
  | EmptyString, _ => Some s
  | String a p', String b s' =>
      if Ascii.eqb a b then strip_prefix p' s' else None
  | String _ _, EmptyString => None
  end.

(** A numeral of exactly [n] decimal digits at the head of a string. *)
Fixpoint read_fixed_digits (n : nat) (acc : Z) (s : string)
    : option (Z * string) :=
  match n with
  | O => Some (acc, s)
  | S n' =>
      match s with
      | String c s' =>
          d ← digit_value c; read_fixed_digits n' (10 * acc + d) s'
      | EmptyString => None
      end
  end.

Definition days_in_month (year month : Z) : Z :=
  if month =? 2 then
    if (year mod 4 =? 0) && (negb (year mod 100 =? 0) || (year mod 400 =? 0))
    then 29 else 28
  else if (month =? 4) || (month =? 6) || (month =? 9) || (month =? 11)
  then 30 else 31.

(** The days from 1 January 1970 to a day of the Gregorian calendar. *)
Definition days_from_civil (year month day : Z) : Z :=
  let y := if month <=? 2 then year - 1 else year in
  let era := y / 400 in
  let yoe := y - era * 400 in
  let mp := (month + 9) mod 12 in
  let doy := (153 * mp + 2) / 5 + day - 1 in
  let doe := yoe * 365 + yoe / 4 - yoe / 100 + doy in
  era * 146097 + doe - 719468.

(** An instance of [Date_getTime] on the UTC time stamps of the form
    [YYYY-MM-DDTHH:mm:ss.sssZ] that name a calendar day and a time of day:
    the milliseconds since the start of 1970. Every other text is taken as
    unreadable, also where JavaScript reads a date. *)
Definition iso_getTime (s : string) : option Z :=
  '(year, s) ← read_fixed_digits 4 0 s;
  s ← strip_prefix "-" s;
  '(month, s) ← read_fixed_digits 2 0 s;
  s ← strip_prefix "-" s;
  '(day, s) ← read_fixed_digits 2 0 s;
  s ← strip_prefix "T" s;
  '(hours, s) ← read_fixed_digits 2 0 s;
  s ← strip_prefix ":" s;
  '(minutes, s) ← read_fixed_digits 2 0 s;
  s ← strip_prefix ":" s;
  '(seconds, s) ← read_fixed_digits 2 0 s;
  s ← strip_prefix "." s;
  '(milliseconds, s) ← read_fixed_digits 3 0 s;
  if String.eqb s "Z" && (1 <=? month) && (month <=? 12) && (1 <=? day)
     && (day <=? days_in_month year month) && (hours <=? 23)
     && (minutes <=? 59) && (seconds <=? 59)
  then
    Some (days_from_civil year month day * 86400000 + hours * 3600000
          + minutes * 60000 + seconds * 1000 + milliseconds)
  else None.

(** Base64 of a byte string, and back. *)
Definition b64_alphabet : string :=
  "ABCDEFGHIJKLMNOPQRSTUVWXYZabcdefghijklmnopqrstuvwxyz0123456789+/".

Definition b64_char (k : Z) : string :=
  match String.get (Z.to_nat k) b64_alphabet with
  | Some c => String c EmptyString
  | None => EmptyString
  end.

Fixpoint b64_index_from (i : Z) (alphabet : string) (c : Ascii.ascii)
    : option Z :=
  match alphabet with
  | EmptyString => None
  | String a rest =>
      if Ascii.eqb a c then Some i else b64_index_from (i + 1) rest c
  end.

Definition bytes_of (s : string) : list Z :=
  (λ c, Z.of_N (Ascii.N_of_ascii c)) <$> String.list_ascii_of_string s.

Definition string_of_bytes (l : list Z) : string :=
  String.string_of_list_ascii ((λ b, Ascii.ascii_of_N (Z.to_N b)) <$> l).

Fixpoint b64_encode_bytes (l : list Z) : string :=
  match l with
  | a :: b :: c :: l' =>
      let n := a * 65536 + b * 256 + c in
      b64_char (n / 262144) +:+ b64_char (n / 4096 mod 64)
        +:+ b64_char (n / 64 mod 64) +:+ b64_char (n mod 64)
        +:+ b64_encode_bytes l'
  | [a; b] =>
      let n := a * 65536 + b * 256 in
      b64_char (n / 262144) +:+ b64_char (n / 4096 mod 64)
        +:+ b64_char (n / 64 mod 64) +:+ "="
  | [a] =>
      let n := a * 65536 in
      b64_char (n / 262144) +:+ b64_char (n / 4096 mod 64) +:+ "=="
  | [] => EmptyString
  end.

Fixpoint b64_decode_sextets (l : list Z) : list Z :=
  match l with
  | a :: b :: c :: d :: l' =>
      let n := ((a * 64 + b) * 64 + c) * 64 + d in
      n / 65536 :: n / 256 mod 256 :: n mod 256 :: b64_decode_sextets l'
  | [a; b; c] =>
      let n := (a * 64 + b) * 64 + c in [n / 1024; n / 4 mod 256]
  | [a; b] => [(a * 64 + b) / 16]
  | _ => []
  end.

Definition base64_encode (s : string) : string :=
  b64_encode_bytes (bytes_of s).

Definition base64_decode (s : string) : string :=
  string_of_bytes
    (b64_decode_sextets
       (omap (b64_index_from 0 b64_alphabet) (String.list_ascii_of_string s))).

(** An instance of [Number(s)], right on the strings the examples hold:
    the empty string is 0 and a string of decimal digits is its value.
    Every other string is taken as [NaN], also where JavaScript reads a
    number (a sign, a fraction, an exponent, a base prefix, white space). *)
Definition digits_toNumber (s : string) : JsNumber :=
  match s with
  | EmptyString => 0
  | _ =>
      match read_digits 0 s with
      | (n, EmptyString) => n
      | _ => NaN
      end
  end.

Fixpoint read_until_quote (s : string) : option (string * string) :=
  match s with
  | EmptyString => None
  | String c s' =>
      if Ascii.eqb c (Ascii.ascii_of_nat 34) then Some (EmptyString, s')
      else
        match read_until_quote s' with
        | Some (text, rest) => Some (String c text, rest)
        | None => None
        end
  end.

(** An instance of the cursor codec: the JSON text of the cursor object in
    base64. It is right on the offsets that are integers (an infinity and
    [NaN] are written [null]) or strings without characters that JSON
    escapes, and it reads the cursor objects whose first member is such an
    offset; other texts are taken as undecodable. *)
Definition json_offset (offset : FeedService.Offset) : string :=
  match offset with
  | FeedService.NumberOffset (Finite q) => pretty (Qfloor q)
  | FeedService.StringOffset s => dquote +:+ s +:+ dquote
  | _ => "null"
  end.

Definition json_encodeCursor (offset : FeedService.Offset) (timestamp : Z)
    : string :=
  base64_encode
    ("{" +:+ dquote +:+ "offset" +:+ dquote +:+ ":" +:+ json_offset offset
     +:+ "," +:+ dquote +:+ "timestamp" +:+ dquote +:+ ":" +:+ pretty timestamp
     +:+ "}").

Definition json_decodeCursor (cursor : string)
    : option FeedService.Offset :=
  rest ← strip_prefix ("{" +:+ dquote +:+ "offset" +:+ dquote +:+ ":")
           (base64_decode cursor);
  match strip_prefix dquote rest with
  | Some text =>
      s ← fst <$> read_until_quote text;
      Some (if String.eqb s "" then FeedService.NumberOffset 0
            else FeedService.StringOffset s)
  | None => (λ n, FeedService.NumberOffset (integer n.1)) <$> read_numeral rest
  end.

(** ** Example stores and feeds *)

Definition like : DbService.SwipeCols := DbService.mkSwipeCols "like" 0 0.
Definition reject : DbService.SwipeCols := DbService.mkSwipeCols "reject" 0 0.

Definition plain_user : DbService.User :=
  DbService.mkUser "" "" "" "" 0 0 false 0.

Definition interests_cols (l : list string) (analyzed_at : Z)
    : DbService.PersonaCols :=
  DbService.mkPersonaCols (Some l) None None None None None None analyzed_at.

Definition empty_db : DbService.Db := DbService.mkDb ∅ ∅ ∅.

(** Users 1 and 2, who have not swiped. *)
Definition strangers_db : DbService.Db :=
  DbService.mkDb ∅ {[ 1 := plain_user; 2 := plain_user ]} ∅.

(** Users 1 and 2 like each other. *)
Definition mutual_db : DbService.Db :=
  DbService.mkDb {[ (1, 2) := like; (2, 1) := like ]}
    {[ 1 := plain_user; 2 := plain_user ]} ∅.

(** User 1 likes user 2, who rejected user 1. *)
Definition pending_db : DbService.Db :=
  DbService.mkDb {[ (1, 2) := like; (2, 1) := reject ]}
    {[ 1 := plain_user; 2 := plain_user ]} ∅.

(** User 1 and three candidates scoring 30, 10 and 20 against user 1,
    fifty candidates scoring 0, and a user record for each. *)
Definition ranking_db : DbService.Db :=
  DbService.mkDb ∅
    (list_to_map ((λ i, (Z.of_nat i, plain_user)) <$> seq 1 54))
    (list_to_map
       ([(1, interests_cols ["defi"; "nfts"; "ai"] 0);
         (2, interests_cols ["defi"; "nfts"; "ai"] 0);
         (3, interests_cols ["defi"; "dao"; "l2"] 0);
         (4, interests_cols ["defi"; "nfts"; "memes"] 0)]
        ++ ((λ i, (Z.of_nat i, interests_cols ["gaming"] 0)) <$> seq 5 50))).

(** User 1 and three candidates of equal score, analysed in the order
    2, 3, 4 from newest to oldest, and a user record for each. *)
Definition candidates_db : DbService.Db :=
  DbService.mkDb ∅
    (list_to_map
       [(1, plain_user); (2, plain_user); (3, plain_user); (4, plain_user)])
    (list_to_map
       [(1, interests_cols ["defi"] 0); (2, interests_cols ["defi"] 30);
        (3, interests_cols ["defi"] 20); (4, interests_cols ["defi"] 10)]).

Definition cast_by (h : string) (author : option Z) (time : string)
    : FeedService.Cast :=
  FeedService.mkCast (Some h) None
    ((λ f, FeedService.mkAuthor (Some f)) <$> author) "" (Some time)
    None None None.

(** A feed endpoint that returns, next to a cast of user 2, a cast of user
    99 and a cast without author. *)
Definition leaky_feed (fids : list Z) (viewer : option Z)
    : FeedService.FetchOutcome :=
  FeedService.Json
    (Some [cast_by "0xa" (Some 2) "2024-01-01T00:00:03.000Z";
           cast_by "0xb" (Some 99) "2024-01-01T00:00:02.000Z";
           cast_by "0xc" None "2024-01-01T00:00:01.000Z"]).

(** A feed endpoint that returns 25 casts of user 2, one for each of the
    first 25 seconds of a minute, oldest first. *)
Definition long_feed (fids : list Z) (viewer : option Z)
    : FeedService.FetchOutcome :=
  FeedService.Json
    (Some ((λ i : nat,
              cast_by ("0x" +:+ pretty i) (Some 2)
                ("2024-01-01T00:00:"
                 +:+ (if (i <? 10)%nat then "0" else "") +:+ pretty i
                 +:+ ".000Z"))
             <$> seq 0 25)).

(** A feed endpoint that is down. *)
Definition failing_feed (fids : list Z) (viewer : option Z)
    : FeedService.FetchOutcome :=
  FeedService.Rejected "Neynar API error: 503 - unavailable".

(** [parseInt] of a string without radix, for strings whose white space
    is ASCII: leading white space is skipped, a sign is read, the digits
    are hexadecimal after [0x] and decimal otherwise, what follows the
    digits is ignored, and a string without digits is [NaN]. *)
Fixpoint skip_white_space (s : string) : string :=
  match s with
  | String c s' =>
      let n := Z.of_N (Ascii.N_of_ascii c) in
      if ((9 <=? n) && (n <=? 13)) || (n =? 32) then skip_white_space s'
      else s
  | EmptyString => s
  end.

Definition radix_digit_value (radix : Z) (c : Ascii.ascii) : option Z :=
  let n := Z.of_N (Ascii.N_of_ascii c) in
  let value :=
    if (48 <=? n) && (n <=? 57) then Some (n - 48)
    else if (97 <=? n) && (n <=? 122) then Some (n - 87)
    else if (65 <=? n) && (n <=? 90) then Some (n - 55)
    else None in
  match value with
  | Some d => if d <? radix then Some d else None
  | None => None
  end.

Fixpoint read_radix_digits (radix : Z) (acc : option Z) (s : string)
    : option Z :=
  match s with
  | String c s' =>
      match radix_digit_value radix c with
      | Some d => read_radix_digits radix (Some (radix * default 0 acc + d)) s'
      | None => acc
      end
  | EmptyString => acc
  end.

Definition ascii_parseInt (s : string) : option Z :=
  let code (c : Ascii.ascii) : Z := Z.of_N (Ascii.N_of_ascii c) in
  let s := skip_white_space s in
  let '(sign, s) :=
    match s with
    | String c s' =>
        if code c =? 45 then (-1, s')
        else if code c =? 43 then (1, s') else (1, s)
    | EmptyString => (1, s)
    end in
  let magnitude :=
    match s with
    | String c0 (String c1 s') =>
        if (code c0 =? 48) && ((code c1 =? 120) || (code c1 =? 88))
        then read_radix_digits 16 None s'
        else read_radix_digits 10 None s
    | _ => read_radix_digits 10 None s
    end in
  (λ n, sign * n) <$> magnitude.

(** A points store: the profiles 10 and 20 of users 1 and 2; profile 10
    holds 500 points from one event. *)
Definition orchid_db : OrchidDbService.Db :=
  OrchidDbService.mkDb {[ 1 := 10; 2 := 20 ]} {[ 10 := 500 ]}
    [OrchidDbService.mkPointEvent 1 10 "signup" 500 "signup_10" None
       "2025-01-01T00:00:00.000Z"]
    1.

(** A clock that advances one second from each reading to the next. *)
Definition second_clock (reading : nat) : Z :=
  1700000000000 + 1000 * Z.of_nat reading.

(** A notification API that accepts every call. *)
Definition accepting_api (fids : list Z)
    (notification : NotificationService.Notification) : Result unit :=
  Ok ().

(** * Properties *)

(** ** JavaScript helpers *)

Section JsHelpers.
Context {A : Type}.

Lemma js_slice_take (l : list A) (n : Z) :
  0 ≤ n → js_slice l 0 n = take (Z.to_nat n) l.
Proof.
  intros Hn. unfold js_slice.
  replace (0 <? 0) with false by done.
  replace (n <? 0) with false by (symmetry; apply Z.ltb_ge; lia).
  cbv zeta. rewrite (Z.min_l 0) by lia. simpl. rewrite drop_0, Z.sub_0_r.
  destruct (Z.le_gt_cases n (Z.of_nat (length l))).
  - by rewrite Z.min_l.
  - rewrite Z.min_r, Nat2Z.id by lia. rewrite !take_ge; [done|lia..].
Qed.

Lemma js_slice_window (l : list A) (start n : Z) :
  0 ≤ start → 0 ≤ n → start + n ≤ Z.of_nat (length l) →
  js_slice l start (start + n) = take (Z.to_nat n) (drop (Z.to_nat start) l).
Proof.
  intros Hs Hn Hlen. unfold js_slice.
  replace (start <? 0) with false by (symmetry; apply Z.ltb_ge; lia).
  replace (start + n <? 0) with false by (symmetry; apply Z.ltb_ge; lia).
  cbv zeta. rewrite !Z.min_l by lia. f_equal. lia.
Qed.

Lemma js_sort_insert_Permutation (cmp : A → A → Q) x l :
  js_sort_insert cmp x l ≡ₚ x :: l.
Proof.
  induction l as [|y l IH]; simpl; [done|].
  destruct (Qle_bool (cmp x y) 0); [done|]. by rewrite IH, Permutation_swap.
Qed.

Lemma js_sort_Permutation (cmp : A → A → Q) l : js_sort cmp l ≡ₚ l.
Proof.
  induction l as [|x l IH]; simpl; [done|].
  by rewrite js_sort_insert_Permutation, IH.
Qed.

Lemma js_sort_length (cmp : A → A → Q) l : length (js_sort cmp l) = length l.
Proof. apply Permutation_length, js_sort_Permutation. Qed.

(** Sorting with the comparator [key b - key a] leaves the keys in
    descending order. *)
Lemma js_sort_descending (key : A → Q) l :
  StronglySorted (λ a b, key b <= key a)%Q
    (js_sort (λ a b, key b - key a)%Q l).
Proof.
  induction l as [|x l IH]; simpl; [constructor|].
  revert IH. generalize (js_sort (λ a b, (key b - key a)%Q) l) as s.
  induction s as [|y s IHs]; intros Hs; simpl.
  - repeat constructor.
  - apply StronglySorted_inv in Hs as [Hs Hy].
    destruct (Qle_bool (key y - key x) 0) eqn:Hc.
    + apply Qle_bool_iff in Hc.
      assert (Hyx : (key y <= key x)%Q) by lra.
      constructor; [by constructor|]. constructor; [done|].
      eapply Forall_impl; [exact Hy|]. intros z Hz. simpl in *. lra.
    + assert (Hxy : (key x <= key y)%Q).
      { destruct (Qlt_le_dec (key y) (key x)) as [Hlt|]; [|done].
        assert (Qle_bool (key y - key x) 0 = true); [|congruence].
        apply Qle_bool_iff. lra. }
      constructor; [by apply IHs|].
      rewrite js_sort_insert_Permutation. by constructor.
Qed.

Lemma NoDup_fmap_eq {B} (f : A → B) (l : list A) x y :
  NoDup (f <$> l) → x ∈ l → y ∈ l → f x = f y → x = y.
Proof.
  induction l as [|z l IH]; [by intros _ ?%not_elem_of_nil|].
  rewrite fmap_cons, NoDup_cons, !elem_of_cons, list_elem_of_fmap.
  intros [Hz Hnd] [->|Hx] [->|Hy] Heq; [done| | |by apply IH].
  - destruct Hz. by exists y.
  - destruct Hz. by exists x.
Qed.

Lemma list_filter_fmap {B} (f : A → B) (P : B → Prop) (Q : A → Prop)
    `{!∀ y, Decision (P y)} `{!∀ x, Decision (Q x)} (l : list A) :
  (∀ x, Q x ↔ P (f x)) →
  filter P (f <$> l) = f <$> filter Q l.
Proof.
  intros HPQ. induction l as [|x l IH]; [done|].
  rewrite fmap_cons, !filter_cons. specialize (HPQ x).
  destruct (decide (Q x)), (decide (P (f x))); simpl; rewrite ?IH; tauto.
Qed.

Lemma NoDup_fmap_filter {B} (f : A → B) (P : A → Prop)
    `{!∀ x, Decision (P x)} (l : list A) :
  NoDup (f <$> l) → NoDup (f <$> filter P l).
Proof.
  intros Hnd. apply (sublist_NoDup _ _ Hnd), fmap_sublist, sublist_filter.
Qed.

Lemma Forall2_elem_of_r {B} (R : A → B → Prop) l k y :
  Forall2 R l k → y ∈ k → ∃ x, x ∈ l ∧ R x y.
Proof.
  induction 1 as [|x y' l k HR _ IH]; [by intros ?%not_elem_of_nil|].
  intros [->|Hy]%elem_of_cons.
  - exists x. split; [left|done].
  - destruct (IH Hy) as (x' & ? & ?). exists x'. split; [by right|done].
Qed.

Lemma length_filter_fmap {B} (f : A → B) (P : B → Prop) (Q : A → Prop)
    `{!∀ y, Decision (P y)} `{!∀ x, Decision (Q x)} (l : list A) :
  (∀ x, Q x ↔ P (f x)) →
  length (filter Q l) = length (filter P (f <$> l)).
Proof. intros HPQ. by rewrite (list_filter_fmap f P Q l HPQ), length_fmap. Qed.

Lemma list_filter_all (P : A → Prop) `{!∀ x, Decision (P x)} (l : list A) :
  Forall P l → filter P l = l.
Proof.
  induction 1 as [|x l Hx _ IH]; [done|].
  by rewrite filter_cons, decide_True, IH.
Qed.

End JsHelpers.

(** ** Connection graph *)

Section ConnectionGraph.
Import DbService.

Lemma elem_of_swipe_rows db s :
  s ∈ swipe_rows db ↔
  user_swipes db !! (user_fid s, target_fid s) = Some (swipe_cols s).
Proof.
  unfold swipe_rows. rewrite list_elem_of_fmap. split.
  - intros ([[u t] c] & -> & Hin). simpl.
    by apply elem_of_map_to_list in Hin.
  - intros Hl. exists ((user_fid s, target_fid s), swipe_cols s).
    split; [by destruct s|]. by apply elem_of_map_to_list.
Qed.

Lemma elem_of_getUserMatches db u x :
  x ∈ getUserMatches db u ↔ hasLiked db u x ∧ hasLiked db x u.
Proof.
  unfold getUserMatches, hasLiked. case_bool_decide as Hnil.
  - split; [by intros ?%not_elem_of_nil|].
    intros [(c & Hc & Hact) _]. exfalso.
    assert (Hin : mkSwipe u x c ∈
      filter (λ s, user_fid s = u ∧ action s = "like") (swipe_rows db)).
    { apply list_elem_of_filter. split; [done|]. by apply elem_of_swipe_rows. }
    rewrite Hnil in Hin. by apply not_elem_of_nil in Hin.
  - rewrite list_elem_of_fmap. split.
    + intros (s & -> & Hs). apply list_elem_of_filter in Hs as [(Hl & Ht & Ha) Hs].
      apply list_elem_of_fmap in Hl as (s' & Heq & Hs').
      apply list_elem_of_filter in Hs' as [[Hu' Ha'] Hs'].
      apply elem_of_swipe_rows in Hs, Hs'. split.
      * exists (swipe_cols s'). by rewrite <- Hu', Heq.
      * exists (swipe_cols s). by rewrite <- Ht.
    + intros [(c & Hc & Hact) (c' & Hc' & Hact')].
      exists (mkSwipe x u c'). split; [done|].
      apply list_elem_of_filter. split; [|by apply elem_of_swipe_rows].
      split_and!; [|done..]. apply list_elem_of_fmap.
      exists (mkSwipe u x c). split; [done|].
      apply list_elem_of_filter. split; [done|]. by apply elem_of_swipe_rows.
Qed.

Lemma filter_nil_not_elem_of {A} (P : A → Prop) `{!∀ x, Decision (P x)}
    (l : list A) x :
  filter P l = [] → x ∈ l → ¬ P x.
Proof.
  intros Hnil Hin HP.
  assert (Hx : x ∈ filter P l) by by apply list_elem_of_filter.
  rewrite Hnil in Hx. by apply not_elem_of_nil in Hx.
Qed.

Lemma checkIfMatched_true db a b :
  checkIfMatched db a b = true ↔ hasLiked db a b ∧ hasLiked db b a.
Proof.
  assert (Hone : ∀ u t,
    (0 < length (take 1 (filter (λ s, user_fid s = u ∧ target_fid s = t
                                      ∧ action s = "like") (swipe_rows db))))%nat
    ↔ hasLiked db u t).
  { intros u t. unfold hasLiked. split.
    - destruct (filter _ _) as [|s l] eqn:Hf; simpl; [lia|]. intros _.
      assert (Hs : s ∈ filter (λ s, user_fid s = u ∧ target_fid s = t
                                    ∧ action s = "like") (swipe_rows db))
        by (rewrite Hf; left).
      apply list_elem_of_filter in Hs as [(<- & <- & Ha) Hs].
      apply elem_of_swipe_rows in Hs. eauto.
    - intros (c & Hc & Ha).
      destruct (filter _ _) as [|s l] eqn:Hf; simpl; [|lia].
      exfalso. eapply (filter_nil_not_elem_of _ _ (mkSwipe u t c) Hf).
      + by apply elem_of_swipe_rows.
      + done. }
  unfold checkIfMatched.
  rewrite andb_true_iff, !bool_decide_eq_true. by rewrite !Hone.
Qed.

Lemma elem_of_getRequestsSent db u x :
  x ∈ fid <$> getRequestsSent db u ↔ hasLiked db u x ∧ ¬ hasLiked db x u.
Proof.
  unfold getRequestsSent. case_bool_decide as Hnil.
  - split; [by intros ?%not_elem_of_nil|].
    intros [(c & Hc & Ha) _]. exfalso.
    eapply (filter_nil_not_elem_of _ _ (mkSwipe u x c) Hnil).
    + by apply elem_of_swipe_rows.
    + done.
  - rewrite <- list_fmap_compose, list_elem_of_fmap. split.
    + intros (s & -> & Hs). simpl.
      apply list_elem_of_filter in Hs as [Hnm Hs].
      apply list_elem_of_filter in Hs as [[<- Ha] Hs].
      apply elem_of_swipe_rows in Hs.
      assert (Hl : hasLiked db (user_fid s) (target_fid s))
        by (exists (swipe_cols s); done).
      split; [done|]. intros Hback. apply Hnm.
      by apply elem_of_getUserMatches.
    + intros [Hl Hnb]. destruct Hl as (c & Hc & Ha).
      exists (mkSwipe u x c). split; [done|].
      apply list_elem_of_filter. split.
      * rewrite elem_of_getUserMatches. simpl. tauto.
      * apply list_elem_of_filter. split; [done|]. by apply elem_of_swipe_rows.
Qed.

Lemma elem_of_getRequestsReceived db u x :
  x ∈ fid <$> getRequestsReceived db u ↔ hasLiked db x u ∧ ¬ hasLiked db u x.
Proof.
  unfold getRequestsReceived. case_bool_decide as Hnil.
  - split; [by intros ?%not_elem_of_nil|].
    intros [(c & Hc & Ha) _]. exfalso.
    eapply (filter_nil_not_elem_of _ _ (mkSwipe x u c) Hnil).
    + by apply elem_of_swipe_rows.
    + done.
  - rewrite <- list_fmap_compose, list_elem_of_fmap. split.
    + intros (s & -> & Hs). simpl.
      apply list_elem_of_filter in Hs as [[Hnl Hnm] Hs].
      apply list_elem_of_filter in Hs as [[<- Ha] Hs].
      apply elem_of_swipe_rows in Hs.
      assert (Hl : hasLiked db (user_fid s) (target_fid s))
        by (exists (swipe_cols s); done).
      split; [done|]. intros Hback. apply Hnm.
      by apply elem_of_getUserMatches.
    + intros [Hl Hnb]. destruct Hl as (c & Hc & Ha).
      exists (mkSwipe x u c). split; [done|].
      apply list_elem_of_filter. split.
      * split.
        -- intros Hin. apply list_elem_of_fmap in Hin as (s & Hx & Hs).
           apply list_elem_of_filter in Hs as [(Hu & Hact & _) Hs].
           apply elem_of_swipe_rows in Hs. apply Hnb.
           exists (swipe_cols s). simpl in Hx. by rewrite Hx, <- Hu.
        -- rewrite elem_of_getUserMatches. simpl. tauto.
      * apply list_elem_of_filter. split; [done|]. by apply elem_of_swipe_rows.
Qed.

Lemma recordSwipe_like db now a b :
  a ≠ b →
  ∃ r db', recordSwipe db now a b "like" = Ok (r, db')
    ∧ hasLiked db' a b
    ∧ ∀ k, k ≠ (a, b) → user_swipes db' !! k = user_swipes db !! k.
Proof.
  intros Hne. unfold recordSwipe.
  assert (Hlike : ¬ ("like" ∉ ["like"; "reject"])) by (intros []; left).
  rewrite (bool_decide_eq_false_2 _ Hlike).
  rewrite (bool_decide_eq_false_2 (a = b)) by done.
  eexists _, _. split; [reflexivity|]. split.
  - eexists. simpl. split; [apply lookup_insert_eq|].
    by destruct (user_swipes db !! (a, b)).
  - intros k Hk. simpl. by rewrite lookup_insert_ne.
Qed.

(** C1. For distinct users A and B, recording a like from A to B and then
    a like from B to A succeeds both times, after which [checkIfMatched]
    holds of the pair, B is among the matches of A and A among those
    of B. *)
Theorem mutual_after_reciprocal_likes db now1 now2 A B :
  A ≠ B →
  ∃ r1 db1 r2 db2,
    recordSwipe db now1 A B "like" = Ok (r1, db1)
    ∧ recordSwipe db1 now2 B A "like" = Ok (r2, db2)
    ∧ checkIfMatched db2 A B = true
    ∧ B ∈ getUserMatches db2 A
    ∧ A ∈ getUserMatches db2 B.
Proof.
  intros Hne.
  destruct (recordSwipe_like db now1 A B Hne) as (r1 & db1 & H1 & HAB & _).
  destruct (recordSwipe_like db1 now2 B A) as (r2 & db2 & H2 & HBA & Hfr);
    [done|].
  exists r1, db1, r2, db2. split; [done|]. split; [done|].
  assert (HAB' : hasLiked db2 A B).
  { destruct HAB as (c & Hc & Ha). exists c. split; [|done].
    rewrite Hfr; [done | congruence]. }
  rewrite checkIfMatched_true, !elem_of_getUserMatches. tauto.
Qed.

(** C6. When the store holds a like from A to B and either nothing or a
    reject from B to A, then B is among the requests A has sent, A is among
    the requests B has received, and neither user is among the matches of
    the other. *)
Theorem one_sided_like_is_pending db A B :
  hasLiked db A B →
  (user_swipes db !! (B, A) = None
   ∨ ∃ c, user_swipes db !! (B, A) = Some c ∧ action c = "reject") →
  B ∈ fid <$> getRequestsSent db A
  ∧ A ∈ fid <$> getRequestsReceived db B
  ∧ (B ∉ getUserMatches db A)
  ∧ (A ∉ getUserMatches db B).
Proof.
  intros HAB Hback.
  assert (Hno : ¬ hasLiked db B A).
  { intros (c & Hc & Ha). destruct Hback as [Hn | (c' & Hc' & Ha')];
      [congruence|]. rewrite Hc in Hc'. injection Hc' as ->. congruence. }
  rewrite elem_of_getRequestsSent, elem_of_getRequestsReceived,
    !elem_of_getUserMatches. tauto.
Qed.

End ConnectionGraph.

(** The theorem on a store without swipes, for its users 1 and 2. *)
Lemma mutual_after_reciprocal_likes_witness :
  ∃ r1 db1 r2 db2,
    DbService.recordSwipe strangers_db 100 1 2 "like" = Ok (r1, db1)
    ∧ DbService.recordSwipe db1 200 2 1 "like" = Ok (r2, db2)
    ∧ DbService.checkIfMatched db2 1 2 = true
    ∧ 2 ∈ DbService.getUserMatches db2 1
    ∧ 1 ∈ DbService.getUserMatches db2 2.
Proof. apply mutual_after_reciprocal_likes. done. Defined.

(** The theorem on a store where user 2 rejected user 1. *)
Lemma one_sided_like_is_pending_witness :
  2 ∈ DbService.fid <$> DbService.getRequestsSent pending_db 1
  ∧ 1 ∈ DbService.fid <$> DbService.getRequestsReceived pending_db 2
  ∧ (2 ∉ DbService.getUserMatches pending_db 1)
  ∧ (1 ∉ DbService.getUserMatches pending_db 2).
Proof.
  apply one_sided_like_is_pending.
  - exists like. split; reflexivity.
  - right. exists reject. split; reflexivity.
Defined.

(** ** Similarity scorer *)

Section Scorer.
Import DbService MatchingService.

Variable toLowerCase : string → string.

Lemma Qmax_inject_Z (a b : Z) :
  Qmax (inject_Z a) (inject_Z b) = inject_Z (Z.max a b).
Proof.
  unfold Qmax, GenericMinMax.gmax, Qcompare, inject_Z, Z.max. simpl.
  rewrite !Z.mul_1_r. by destruct (a ?= b).
Qed.

Lemma Qmax3_len_comm {A} (a b : list A) :
  Qmax (Qmax (len a) (len b)) 1 = Qmax (Qmax (len b) (len a)) 1.
Proof. unfold len. by rewrite !Qmax_inject_Z, Z.max_comm. Qed.

(** On arrays without repeated entries (up to letter case) the two
    intersections have the same number of entries. *)
Lemma arrayIntersection_length_comm (a b : list string) :
  NoDup (toLowerCase <$> a) → NoDup (toLowerCase <$> b) →
  length (arrayIntersection toLowerCase a b)
  = length (arrayIntersection toLowerCase b a).
Proof.
  intros Ha Hb. unfold arrayIntersection.
  destruct a as [|x a]; [by destruct b|].
  destruct b as [|y b]; [done|].
  rewrite !bool_decide_eq_false_2 by (by intros [|]). cbv zeta.
  pose proof (length_filter_fmap toLowerCase
    (λ z, z ∈ toLowerCase <$> y :: b)
    (λ item, toLowerCase item ∈ toLowerCase <$> y :: b) (x :: a)) as E1.
  pose proof (length_filter_fmap toLowerCase
    (λ z, z ∈ toLowerCase <$> x :: a)
    (λ item, toLowerCase item ∈ toLowerCase <$> x :: a) (y :: b)) as E2.
  rewrite E1, E2 by done.
  apply Permutation_length, NoDup_Permutation.
  - by apply NoDup_filter.
  - by apply NoDup_filter.
  - intros z. rewrite !list_elem_of_filter. tauto.
Qed.

Lemma categoryMatch_fst_comm (w : Q) (a b : option (list string)) :
  NoDup (toLowerCase <$> or_empty a) → NoDup (toLowerCase <$> or_empty b) →
  (categoryMatch toLowerCase w a b).1 = (categoryMatch toLowerCase w b a).1.
Proof.
  intros Ha Hb. unfold categoryMatch.
  rewrite (Qmax3_len_comm (or_empty a) (or_empty b)). unfold len.
  rewrite (arrayIntersection_length_comm _ _ Ha Hb).
  by case_bool_decide.
Qed.

Lemma expertiseMatch_comm (p1 p2 : Persona) :
  expertiseMatch p1 p2 = expertiseMatch p2 p1.
Proof.
  unfold expertiseMatch.
  destruct (expertise_level p1) as [l1|], (expertise_level p2) as [l2|];
    try done.
  rewrite (andb_comm (negb (String.eqb l2 ""))), (String.eqb_sym l2 l1).
  by rewrite <- (Z.abs_opp (indexOf levels l2 - _)), Z.opp_sub_distr,
    Z.add_opp_l.
Qed.

Lemma engagementMatch_comm (p1 p2 : Persona) :
  engagementMatch p1 p2 = engagementMatch p2 p1.
Proof.
  unfold engagementMatch.
  destruct (engagement_style p1) as [s1|], (engagement_style p2) as [s2|];
    try done.
  by rewrite (andb_comm (negb (String.eqb s2 ""))), (String.eqb_sym s2 s1).
Qed.

(** C3, amended. For two personas none of whose array categories holds an
    entry twice up to letter case, the score is the same in both
    directions. *)
Theorem score_symmetric_on_distinct_entries (p1 p2 : Persona) :
  distinct_entries toLowerCase p1 → distinct_entries toLowerCase p2 →
  score (calculateMatchScore toLowerCase p1 p2)
  = score (calculateMatchScore toLowerCase p2 p1).
Proof.
  intros (Hi1 & Hp1 & Ht1 & Hc1) (Hi2 & Hp2 & Ht2 & Hc2).
  unfold calculateMatchScore.
  pose proof (categoryMatch_fst_comm 30 _ _ Hi1 Hi2) as Ei.
  pose proof (categoryMatch_fst_comm 25 _ _ Hp1 Hp2) as Ep.
  pose proof (categoryMatch_fst_comm 15 _ _ Ht1 Ht2) as Et.
  pose proof (categoryMatch_fst_comm 5 _ _ Hc1 Hc2) as Ec.
  repeat match goal with
  | |- context [categoryMatch toLowerCase ?w ?a ?b] =>
      destruct (categoryMatch toLowerCase w a b) as [? ?]
  end.
  simpl in *. subst.
  by rewrite (expertiseMatch_comm p1 p2), (engagementMatch_comm p1 p2).
Qed.

End Scorer.

(** C3, as stated, fails: a persona listing an interest twice in different
    letter case scores 30 against a persona listing it once, and 15 in the
    other direction. *)
Lemma score_not_symmetric :
  ¬ (MatchingService.score
       (MatchingService.calculateMatchScore ascii_toLowerCase
          (persona_with_interests 1 ["DeFi"; "defi"])
          (persona_with_interests 2 ["defi"]))
     == MatchingService.score
          (MatchingService.calculateMatchScore ascii_toLowerCase
             (persona_with_interests 2 ["defi"])
             (persona_with_interests 1 ["DeFi"; "defi"])))%Q.
Proof. vm_compute. discriminate. Qed.

(** The symmetry theorem at two personas with distinct entries. *)
Lemma score_symmetric_on_distinct_entries_witness :
  MatchingService.score
    (MatchingService.calculateMatchScore ascii_toLowerCase
       (persona_with_interests 1 ["DeFi"; "nfts"])
       (persona_with_interests 2 ["defi"; "gaming"; "ai"]))
  = MatchingService.score
      (MatchingService.calculateMatchScore ascii_toLowerCase
         (persona_with_interests 2 ["defi"; "gaming"; "ai"])
         (persona_with_interests 1 ["DeFi"; "nfts"])).
Proof.
  apply score_symmetric_on_distinct_entries;
    (repeat split; vm_compute; repeat constructor;
     rewrite ?list_elem_of_In; simpl; intuition discriminate).
Defined.

(** For two levels on the scale the expertise block gives the full weight
    to equal levels, the half weight to neighbours and nothing otherwise. *)
Lemma expertiseMatch_on_scale (f1 f2 : Z) (ul ml : string) :
  ul ∈ MatchingService.levels → ml ∈ MatchingService.levels →
  MatchingService.expertiseMatch (persona_with_level f1 ul)
    (persona_with_level f2 ml)
  = if decide (ul = ml) then 15%Q
    else if decide (Z.abs (indexOf MatchingService.levels ul
                           - indexOf MatchingService.levels ml) = 1)
         then (15 # 2)%Q else 0%Q.
Proof.
  unfold MatchingService.levels. rewrite !elem_of_cons, !elem_of_nil.
  intros [->|[->|[->|[]]]] [->|[->|[->|[]]]]; reflexivity.
Qed.

(** C7, at the failing input: a level that is not on the scale sits at
    distance one from [beginner] ([indexOf] gives -1 and 0), so the pair
    is awarded the half weight and the total score is 7.5. *)
Theorem expertise_off_scale_half_weight :
  MatchingService.expertiseMatch (persona_with_level 1 "advanced")
    (persona_with_level 2 "beginner") = (15 # 2)%Q
  ∧ ∀ toLowerCase,
      (MatchingService.score
         (MatchingService.calculateMatchScore toLowerCase
            (persona_with_level 1 "advanced")
            (persona_with_level 2 "beginner")) == 15 # 2)%Q.
Proof. split; [reflexivity|]. intros f. vm_compute. reflexivity. Qed.

(** ** Candidate ranker *)

Section Ranker.
Import DbService MatchingService.

Variable toLowerCase : string → string.
Variable shuffle : list Match → list Match.

Lemma NoDup_persona_rows db : NoDup (farcaster_fid <$> persona_rows db).
Proof.
  unfold persona_rows. rewrite <- list_fmap_compose.
  apply (NoDup_fst_map_to_list (personas db)).
Qed.

Lemma NoDup_allPersonas db fid : NoDup (farcaster_fid <$> allPersonas db fid).
Proof.
  unfold allPersonas, getAllPersonasExcept.
  apply NoDup_fmap_filter. rewrite js_sort_Permutation.
  apply NoDup_fmap_filter, NoDup_persona_rows.
Qed.

Lemma elem_of_allPersonas db fid p :
  p ∈ allPersonas db fid →
  farcaster_fid p ≠ fid ∧ farcaster_fid p ∉ getSwipedUserFids db fid.
Proof.
  unfold allPersonas, getAllPersonasExcept.
  rewrite list_elem_of_filter, js_sort_Permutation, list_elem_of_filter. tauto.
Qed.

(** [getMatchingUsers] past its guards, with the stages named. *)
Lemma getMatchingUsers_stages db fid page limit userPersona :
  fid ≠ 0 →
  getPersonaByFid db fid = Some userPersona →
  allPersonas db fid ≠ [] →
  let matchesWithScores :=
    withScore toLowerCase userPersona <$> allPersonas db fid in
  let actualMatches :=
    js_sort (λ a b : Match, score b - score a)%Q
      (filter (λ m : Match, 0 < score m)%Q matchesWithScores) in
  let nonMatching := filter (λ m : Match, score m == 0)%Q matchesWithScores in
  let totalCount :=
    Z.of_nat (length actualMatches) + Z.of_nat (length nonMatching) in
  getMatchingUsers toLowerCase shuffle db fid page limit
  = Ok (mkMatchingUsers
          (omap id (toMatchedUser db <$>
             backfill shuffle fid limit (getSwipedUserFids db fid)
               matchesWithScores
               (js_slice actualMatches ((page - 1) * limit)
                  ((page - 1) * limit + limit))))
          (mkPagination page limit totalCount
             (Math_ceil_div totalCount limit))).
Proof.
  intros Hfid Hp Hne. unfold getMatchingUsers.
  rewrite (proj2 (Z.eqb_neq fid 0) Hfid), Hp.
  by rewrite bool_decide_eq_false_2.
Qed.

Lemma matched_users_Forall2 db (l : list Match) :
  Forall (λ m, is_Some (getUserByFid db (farcaster_fid (persona m)))) l →
  Forall2 (λ m u, m_fid u = farcaster_fid (persona m)
                  ∧ match_score u = score m)
    l (omap id (toMatchedUser db <$> l)).
Proof.
  induction 1 as [|m l [u Hu] _ IH]; [constructor|].
  rewrite fmap_cons. unfold toMatchedUser at 1. rewrite Hu. simpl.
  by constructor.
Qed.

Lemma StronglySorted_Forall2_keys {A B} (key : A → Q) (key' : B → Q)
    (l : list A) (k : list B) :
  Forall2 (λ a b, key' b = key a) l k →
  StronglySorted (λ x y, key y <= key x)%Q l →
  StronglySorted (λ x y, key' y <= key' x)%Q k.
Proof.
  induction 1 as [|a b l k Hab Hlk IH]; [constructor|].
  intros [Hs Hall]%StronglySorted_inv. constructor; [by apply IH|].
  clear IH Hs. induction Hlk as [|a' b' l k Hab' _ IH]; [constructor|].
  apply Forall_cons in Hall as [Ha Hall]. constructor; [|by apply IH].
  by rewrite Hab, Hab'.
Qed.

Section Universe.
Variables (db : Db) (fid : Z) (userPersona : Persona).

Local Abbreviation scoreOf :=
  (λ p : Persona, score (calculateMatchScore toLowerCase userPersona p)).
Local Abbreviation scored := (withScore toLowerCase userPersona).
Local Abbreviation U := (allPersonas db fid).

Lemma filter_scored_positive :
  filter (λ m : Match, 0 < score m)%Q (scored <$> U)
  = scored <$> filter (λ p, 0 < scoreOf p)%Q U.
Proof. by apply list_filter_fmap. Qed.

Lemma filter_scored_zero :
  filter (λ m : Match, score m == 0)%Q (scored <$> U)
  = scored <$> filter (λ p, scoreOf p == 0)%Q U.
Proof. by apply list_filter_fmap. Qed.

(** With a short page of positively scored candidates, the backfill appends
    the first entries of the shuffled zero-score candidates: none of them is
    excluded. *)
Lemma backfill_short_page (limit : Z) (pg : list Match) :
  pg ⊆ filter (λ m : Match, 0 < score m)%Q (scored <$> U) →
  Z.of_nat (length pg) < limit →
  backfill shuffle fid limit (getSwipedUserFids db fid) (scored <$> U) pg
  = pg ++ ((λ m, mkMatch (persona m) (mkMatchResult 0 noKeywords))
             <$> take (Z.to_nat (limit - Z.of_nat (length pg)))
                   (shuffle (filter (λ m : Match, score m == 0)%Q
                               (scored <$> U)))).
Proof.
  intros Hpg Hlt. unfold backfill.
  rewrite (proj2 (Z.ltb_lt _ _) Hlt). cbv zeta.
  rewrite js_slice_take by lia. do 4 f_equal.
  apply list_filter_all, Forall_forall. intros m Hm.
  rewrite filter_scored_zero in Hm.
  apply list_elem_of_fmap in Hm as (p & -> & Hp).
  apply list_elem_of_filter in Hp as [Hzero Hp].
  destruct (elem_of_allPersonas _ _ _ Hp) as [Hself Hsw]. simpl.
  rewrite elem_of_cons, elem_of_app. intros [?|[?|Hin]]; [done..|].
  apply list_elem_of_fmap in Hin as (m' & Hfid & Hm').
  apply Hpg in Hm'. rewrite filter_scored_positive in Hm'.
  apply list_elem_of_fmap in Hm' as (p' & -> & Hp').
  apply list_elem_of_filter in Hp' as [Hpos Hp']. simpl in Hfid.
  assert (p = p') as <-
    by (eapply NoDup_fmap_eq; eauto using NoDup_allPersonas).
  lra.
Qed.

End Universe.

(** C5. When the candidate universe of a user (the other personas, not
    swiped on, each with a user record) holds exactly 3 candidates of
    positive score and 50 of score zero, page 1 with page size 10 has
    exactly 10 entries: the first 3 are the positively scored candidates in
    descending order of score, the other 7 are candidates of score zero, no
    candidate occurs twice, the total is 53 and the number of pages is 6. *)
Theorem rank_three_matches_fifty_unscored db fid userPersona :
  (∀ l, shuffle l ≡ₚ l) →
  fid ≠ 0 →
  getPersonaByFid db fid = Some userPersona →
  let scoreOf p := score (calculateMatchScore toLowerCase userPersona p) in
  length (filter (λ p, 0 < scoreOf p)%Q (allPersonas db fid)) = 3%nat →
  length (filter (λ p, scoreOf p == 0)%Q (allPersonas db fid)) = 50%nat →
  Forall (λ p, is_Some (getUserByFid db (farcaster_fid p)))
    (allPersonas db fid) →
  ∃ r, getMatchingUsers toLowerCase shuffle db fid 1 10 = Ok r
    ∧ length (matches r) = 10%nat
    ∧ m_fid <$> take 3 (matches r)
        ≡ₚ farcaster_fid <$> filter (λ p, 0 < scoreOf p)%Q (allPersonas db fid)
    ∧ Forall (λ u, ∃ p, p ∈ allPersonas db fid ∧ farcaster_fid p = m_fid u
                        ∧ match_score u = scoreOf p ∧ (0 < scoreOf p)%Q)
        (take 3 (matches r))
    ∧ StronglySorted (λ a b, match_score b <= match_score a)%Q
        (take 3 (matches r))
    ∧ Forall (λ u, ∃ p, p ∈ allPersonas db fid ∧ farcaster_fid p = m_fid u
                        ∧ (scoreOf p == 0)%Q ∧ match_score u = 0%Q)
        (drop 3 (matches r))
    ∧ NoDup (m_fid <$> matches r)
    ∧ total (pagination r) = 53
    ∧ totalPages (pagination r) = 6.
Proof.
  intros Hshuffle Hfid Hpersona scoreOf Hpos Hzero Husers.
  assert (HU : allPersonas db fid ≠ [])
    by (intros HU; by rewrite HU in Hpos).
  eexists. split; [by apply getMatchingUsers_stages|]. simpl.
  set (AM := js_sort _ _).
  set (Z0 := filter (λ m : Match, score m == 0)%Q _).
  assert (HAMp : AM ≡ₚ withScore toLowerCase userPersona
      <$> filter (λ p, 0 < scoreOf p)%Q (allPersonas db fid)).
  { unfold AM. rewrite js_sort_Permutation.
    by rewrite (filter_scored_positive db fid userPersona). }
  assert (HAMlen : length AM = 3%nat).
  { by rewrite HAMp, length_fmap. }
  assert (HZ0 : Z0 = withScore toLowerCase userPersona
      <$> filter (λ p, scoreOf p == 0)%Q (allPersonas db fid))
    by apply filter_scored_zero.
  assert (HZ0len : length (shuffle Z0) = 50%nat).
  { by rewrite Hshuffle, HZ0, length_fmap. }
  rewrite js_slice_take, take_ge by (rewrite ?HAMlen; lia).
  rewrite (backfill_short_page db fid userPersona); fold Z0; cycle 1.
  { intros m Hm. rewrite (filter_scored_positive db fid userPersona).
    by rewrite HAMp in Hm. }
  { rewrite HAMlen. lia. }
  rewrite HAMlen. change (Z.to_nat (10 - Z.of_nat 3)) with 7%nat.
  set (RM := (λ m : Match, mkMatch (persona m) (mkMatchResult 0 noKeywords))
               <$> take 7 (shuffle Z0)).
  assert (HRMlen : length RM = 7%nat).
  { unfold RM. rewrite length_fmap, length_take. lia. }
  assert (HinU : ∀ m, m ∈ AM ++ RM → persona m ∈ allPersonas db fid).
  { intros m [Hm|Hm]%elem_of_app.
    - rewrite HAMp in Hm. apply list_elem_of_fmap in Hm as (p & -> & Hp).
      by apply list_elem_of_filter in Hp as [_ Hp].
    - apply list_elem_of_fmap in Hm as (m' & -> & Hm').
      apply subseteq_take in Hm'. rewrite Hshuffle, HZ0 in Hm'.
      apply list_elem_of_fmap in Hm' as (p & -> & Hp).
      by apply list_elem_of_filter in Hp as [_ Hp]. }
  assert (Hall : Forall2 (λ m u, m_fid u = farcaster_fid (persona m)
                                 ∧ match_score u = score m)
                   (AM ++ RM) (omap id (toMatchedUser db <$> AM ++ RM))).
  { apply matched_users_Forall2, Forall_forall. intros m Hm.
    rewrite Forall_forall in Husers. by apply Husers, HinU. }
  set (V := omap id _) in *.
  assert (Htop : Forall2 (λ m u, m_fid u = farcaster_fid (persona m)
                                 ∧ match_score u = score m) AM (take 3 V)).
  { apply (Forall2_take _ _ _ 3) in Hall.
    by rewrite take_app_length' in Hall. }
  assert (Hrest : Forall2 (λ m u, m_fid u = farcaster_fid (persona m)
                                  ∧ match_score u = score m) RM (drop 3 V)).
  { apply (Forall2_drop _ _ _ 3) in Hall.
    by rewrite drop_app_length' in Hall. }
  assert (Hfids : ∀ l k,
    Forall2 (λ (m : Match) u, m_fid u = farcaster_fid (persona m)
                              ∧ match_score u = score m) l k →
    m_fid <$> k = (λ m, farcaster_fid (persona m)) <$> l).
  { induction 1 as [|???? []]; [done|]. rewrite !fmap_cons. congruence. }
  split_and!.
  - rewrite <- (Forall2_length _ _ _ Hall), length_app. lia.
  - rewrite (Hfids _ _ Htop), HAMp. by rewrite <- list_fmap_compose.
  - apply Forall_forall. intros u Hu.
    destruct (Forall2_elem_of_r _ _ _ _ Htop Hu) as (m & Hm & Hf & Hs).
    rewrite HAMp in Hm. apply list_elem_of_fmap in Hm as (p & -> & Hp).
    apply list_elem_of_filter in Hp as [Hp0 Hp]. by exists p.
  - eapply (StronglySorted_Forall2_keys (λ m : Match, score m)).
    + eapply Forall2_impl; [exact Htop|]. by intros ?? [].
    + apply js_sort_descending.
  - apply Forall_forall. intros u Hu.
    destruct (Forall2_elem_of_r _ _ _ _ Hrest Hu) as (m & Hm & Hf & Hs).
    apply list_elem_of_fmap in Hm as (m' & -> & Hm').
    apply subseteq_take in Hm'. rewrite Hshuffle, HZ0 in Hm'.
    apply list_elem_of_fmap in Hm' as (p & -> & Hp).
    apply list_elem_of_filter in Hp as [Hp0 Hp]. by exists p.
  - rewrite (Hfids _ _ Hall), fmap_app. apply NoDup_app. split_and!.
    + rewrite HAMp, <- list_fmap_compose.
      apply NoDup_fmap_filter, NoDup_allPersonas.
    + intros x Hx Hx'. rewrite HAMp in Hx.
      apply list_elem_of_fmap in Hx as (m & -> & Hm).
      apply list_elem_of_fmap in Hm as (p & -> & Hp).
      apply list_elem_of_filter in Hp as [Hp0 Hp].
      apply list_elem_of_fmap in Hx' as (m & Hx' & Hm).
      apply list_elem_of_fmap in Hm as (m' & -> & Hm').
      apply subseteq_take in Hm'. rewrite Hshuffle, HZ0 in Hm'.
      apply list_elem_of_fmap in Hm' as (p' & -> & Hp').
      apply list_elem_of_filter in Hp' as [Hp0' Hp']. simpl in Hx'.
      assert (p = p') as <-
        by (eapply NoDup_fmap_eq; eauto using NoDup_allPersonas).
      lra.
    + unfold RM. rewrite <- list_fmap_compose.
      change ((λ m : Match, farcaster_fid (persona m)) ∘ _)
        with (λ m : Match, farcaster_fid (persona m)).
      rewrite fmap_take. refine (sublist_NoDup _ _ _ (sublist_take _ _)).
      rewrite Hshuffle, HZ0, <- list_fmap_compose.
      apply NoDup_fmap_filter, NoDup_allPersonas.
  - by rewrite <- (Permutation_length (Hshuffle Z0)), HZ0len.
  - by rewrite <- (Permutation_length (Hshuffle Z0)), HZ0len.
Qed.

End Ranker.

(** The theorem on a store with 3 scored and 50 unscored candidates, the
    shuffle being list reversal. *)
Lemma rank_three_matches_fifty_unscored_witness :
  ∃ r,
    MatchingService.getMatchingUsers ascii_toLowerCase reverse ranking_db 1 1 10
      = Ok r
    ∧ length (MatchingService.matches r) = 10%nat
    ∧ MatchingService.total (MatchingService.pagination r) = 53
    ∧ MatchingService.totalPages (MatchingService.pagination r) = 6.
Proof.
  destruct (rank_three_matches_fifty_unscored ascii_toLowerCase reverse
              ranking_db 1
              (DbService.mkPersona 1 (interests_cols ["defi"; "nfts"; "ai"] 0)))
    as (r & Hr & Hlen & _ & _ & _ & _ & _ & Htotal & Hpages).
  - apply reverse_Permutation.
  - done.
  - vm_compute. reflexivity.
  - vm_compute. reflexivity.
  - vm_compute. reflexivity.
  - apply (bool_decide_unpack _). vm_compute. exact I.
  - by exists r.
Defined.

(** ** Feed aggregator *)

Section Feed.
Import FeedService.

Variable neynar_feed : list Z → option Z → FetchOutcome.
Variable Date_getTime : string → option Z.
Variable encodeCursor : Offset → Z → string.
Variable decodeCursor : string → option Offset.
Variable String_toNumber : string → JsNumber.

Local Abbreviation feed := (getConnectedUsersFeed neynar_feed Date_getTime
                    encodeCursor decodeCursor String_toNumber).

Lemma js_plus_integer (a b : Z) : js_plus a b = (a + b)%Z.
Proof. unfold js_plus, integer, inject_Z. simpl. by rewrite Z.mul_1_r. Qed.

Lemma slice_index_integer (len n : Z) : slice_index len n = n.
Proof.
  unfold slice_index, integer. destruct (Qle_bool 0 (inject_Z n)).
  - apply Qfloor_Z.
  - apply Qceiling_Z.
Qed.

Lemma js_lt_integer (n len : Z) : js_lt n len = bool_decide (n < len).
Proof.
  unfold js_lt, integer, Qle_bool, inject_Z. simpl. rewrite !Z.mul_1_r.
  case_bool_decide; destruct (Z.leb_spec len n); simpl; lia || done.
Qed.

(** The request for a cursor whose offset is an integer. *)
Lemma feed_integer_offset db now userFid limit cursor (start : Z) :
  startIndexOf decodeCursor cursor = NumberOffset start →
  feed db now userFid limit cursor
  = let matchedFids := DbService.getUserMatches db userFid in
    if bool_decide (matchedFids = []) then
      Ok (mkFeed [] (mkFeedPagination false None 0 None None)
            (mkFeedMetadata 0 0 None None))
    else
      match fetchAllCasts neynar_feed userFid matchedFids with
      | Err message =>
          Err ("Failed to get connected users feed: " +:+ message)
      | Ok (fetched, apiCallsMade) =>
          let allCasts := processCasts Date_getTime matchedFids fetched in
          let endIndex := start + limit in
          let paginatedCasts := js_slice allCasts start endIndex in
          let finalHasMore :=
            bool_decide (endIndex < Z.of_nat (length allCasts)) in
          let matched := Z.of_nat (length matchedFids) in
          Ok (mkFeed paginatedCasts
                (mkFeedPagination finalHasMore
                   (if finalHasMore
                    then Some (encodeCursor (NumberOffset endIndex) now)
                    else None)
                   matched
                   (Some (Z.of_nat (length paginatedCasts)))
                   (Some (Z.of_nat (length allCasts))))
                (mkFeedMetadata matched apiCallsMade
                   (Some (if MAX_FIDS_PER_CALL <? matched
                          then ceil_div matched MAX_FIDS_PER_CALL else 1))
                   (Some (Z.of_nat (length allCasts)))))
      end.
Proof.
  intros Hstart. unfold getConnectedUsersFeed. rewrite Hstart.
  cbv zeta. case_bool_decide; [done|].
  destruct (fetchAllCasts _ _ _) as [[fetched calls]|]; [|done].
  cbn [endIndexOf ToNumber].
  by rewrite js_plus_integer, !slice_index_integer, js_lt_integer.
Qed.

(** The page of every request is a slice of the processed casts. *)
Lemma feed_page_is_a_slice db now userFid limit cursor r :
  feed db now userFid limit cursor = Ok r →
  DbService.getUserMatches db userFid ≠ [] →
  ∃ fetched calls start stop,
    fetchAllCasts neynar_feed userFid (DbService.getUserMatches db userFid)
      = Ok (fetched, calls)
    ∧ casts r
      = js_slice
          (processCasts Date_getTime (DbService.getUserMatches db userFid)
             fetched)
          start stop.
Proof.
  intros Hr Hm. unfold getConnectedUsersFeed in Hr.
  rewrite bool_decide_eq_false_2 in Hr by done.
  destruct (fetchAllCasts _ _ _) as [[fetched calls]|]; [|done].
  destruct (endIndexOf _ _) as [endIndex|]; [|done].
  injection Hr as <-. by eexists _, _, _, _.
Qed.

Lemma js_slice_subseteq {A} (l : list A) (start stop : Z) :
  js_slice l start stop ⊆ l.
Proof.
  unfold js_slice. cbv zeta. etrans; [apply subseteq_take|apply subseteq_drop].
Qed.

Lemma js_slice_length_le {A} (l : list A) (start n : Z) :
  0 ≤ n → Z.of_nat (length (js_slice l start (start + n))) ≤ n.
Proof.
  intros Hn. unfold js_slice. cbv zeta. rewrite length_take.
  destruct (start <? 0) eqn:Hs, (start + n <? 0) eqn:He; lia.
Qed.

Lemma js_slice_chunk {A} (l : list A) (i n : Z) :
  0 ≤ i → 0 ≤ n →
  js_slice l i (i + n) = take (Z.to_nat n) (drop (Z.to_nat i) l).
Proof.
  intros Hi Hn.
  destruct (Z.le_gt_cases (i + n) (Z.of_nat (length l))) as [Hfit|Hover];
    [by apply js_slice_window|].
  unfold js_slice. cbv zeta.
  replace (i <? 0) with false by (symmetry; apply Z.ltb_ge; lia).
  replace (i + n <? 0) with false by (symmetry; apply Z.ltb_ge; lia).
  rewrite (Z.min_r (i + n)) by lia.
  destruct (Z.le_gt_cases i (Z.of_nat (length l))) as [Hin|Hout].
  - rewrite Z.min_l by lia. rewrite !take_ge; [done|rewrite length_drop; lia..].
  - rewrite Z.min_r, Nat2Z.id, Z.sub_diag by lia.
    rewrite drop_all, (drop_ge l (Z.to_nat i)) by lia. by rewrite !take_nil.
Qed.

Lemma normalizeCast_castKey cast : castKey (normalizeCast cast) = castKey cast.
Proof. done. Qed.

Lemma normalizeCast_authorFid cast :
  authorFid (normalizeCast cast) = authorFid cast.
Proof. done. Qed.

Lemma dedup_subseteq seen l : dedup seen l ⊆ l.
Proof.
  clear. revert seen. induction l as [|c l IH]; intros seen; simpl; [done|].
  destruct (castKey c) as [h|]; [|by apply list_subseteq_cons].
  destruct (String.eqb h ""); [by apply list_subseteq_cons|].
  case_bool_decide; [by apply list_subseteq_cons|].
  intros x [->|Hx]%elem_of_cons; [left|right]. by eapply IH.
Qed.

Lemma dedup_keys seen l c :
  c ∈ dedup seen l → ∃ h, castKey c = Some h ∧ h ≠ "" ∧ h ∉ seen.
Proof.
  clear. revert seen. induction l as [|c' l IH]; intros seen; simpl;
    [by intros ?%not_elem_of_nil|].
  destruct (castKey c') as [h|] eqn:Hk; [|by apply IH].
  destruct (String.eqb_spec h ""); [by apply IH|].
  case_bool_decide as Hseen; [by apply IH|].
  intros [->|Hc]%elem_of_cons; [by exists h|].
  destruct (IH _ Hc) as (h' & ? & ? & Hh'). exists h'. set_solver.
Qed.

Lemma dedup_NoDup seen l : NoDup (castKey <$> dedup seen l).
Proof.
  clear. revert seen. induction l as [|c l IH]; intros seen; simpl; [constructor|].
  destruct (castKey c) as [h|] eqn:Hk; [|by apply IH].
  destruct (String.eqb h ""); [by apply IH|].
  case_bool_decide as Hseen; [by apply IH|].
  rewrite fmap_cons, Hk. constructor; [|by apply IH].
  rewrite list_elem_of_fmap. intros (c' & Hk' & Hc').
  destruct (dedup_keys _ _ _ Hc') as (h' & Hh' & _ & Hnot).
  rewrite Hh' in Hk'. injection Hk' as ->. set_solver.
Qed.

Lemma processCasts_authored matchedFids fetched c :
  c ∈ processCasts Date_getTime matchedFids fetched →
  ∃ f, authorFid c = Some f ∧ f ∈ matchedFids.
Proof.
  clear. unfold processCasts. intros (c' & -> & Hc')%list_elem_of_fmap.
  apply dedup_subseteq in Hc'. rewrite js_sort_Permutation in Hc'.
  apply list_elem_of_filter in Hc' as [Hauth _].
  rewrite normalizeCast_authorFid. unfold authoredByMatched in Hauth.
  destruct (authorFid c') as [f|]; [|done]. exists f. tauto.
Qed.

Lemma processCasts_NoDup matchedFids fetched :
  NoDup (castKey <$> processCasts Date_getTime matchedFids fetched).
Proof.
  clear. unfold processCasts. rewrite <- list_fmap_compose.
  apply (dedup_NoDup ∅).
Qed.

Lemma processCasts_keys matchedFids fetched c :
  c ∈ processCasts Date_getTime matchedFids fetched →
  ∃ h, castKey c = Some h ∧ h ≠ "".
Proof.
  clear. unfold processCasts. intros (c' & -> & Hc')%list_elem_of_fmap.
  destruct (dedup_keys _ _ _ Hc') as (h & ? & ? & _). by exists h.
Qed.

(** C2. Every cast of a returned feed has an author, and that author is
    one of the users matched with the requesting user, whatever the feed
    endpoint returned. *)
Theorem feed_casts_authored_by_matches db now userFid limit cursor r :
  feed db now userFid limit cursor = Ok r →
  Forall (λ cast, ∃ f, authorFid cast = Some f
                       ∧ f ∈ DbService.getUserMatches db userFid)
    (casts r).
Proof.
  intros Hr. destruct (decide (DbService.getUserMatches db userFid = []))
    as [Hm|Hm].
  - unfold getConnectedUsersFeed in Hr.
    rewrite bool_decide_eq_true_2 in Hr by done. injection Hr as <-.
    constructor.
  - destruct (feed_page_is_a_slice _ _ _ _ _ _ Hr Hm)
      as (fetched & calls & start & stop & _ & ->).
    apply Forall_forall. intros c Hc.
    apply js_slice_subseteq in Hc. by eapply processCasts_authored.
Qed.

(** C8. When the processed list of a user's feed has more than 20 casts,
    the request without cursor and with limit 10 returns its first 10 casts
    and a cursor; the request with that cursor and limit 10 returns casts
    11 to 20 of the same list, and no key (hash) occurs on both pages. The
    cursor codec is assumed to give back the offset 10 it was given. *)
Theorem feed_pagination_round_trip db now1 now2 userFid r1 n :
  feed db now1 userFid 10 None = Ok r1 →
  totalCastsAvailable (pagination r1) = Some n →
  20 < n →
  encodeCursor (NumberOffset 10) now1 ≠ "" →
  decodeCursor (encodeCursor (NumberOffset 10) now1)
    = Some (NumberOffset 10) →
  ∃ fetched calls cur r2,
    fetchAllCasts neynar_feed userFid (DbService.getUserMatches db userFid)
      = Ok (fetched, calls)
    ∧ nextCursor (pagination r1) = Some cur
    ∧ feed db now2 userFid 10 (Some cur) = Ok r2
    ∧ let all :=
        processCasts Date_getTime (DbService.getUserMatches db userFid)
          fetched in
      Z.of_nat (length all) = n
      ∧ casts r1 = take 10 all
      ∧ casts r2 = take 10 (drop 10 all)
      ∧ length (casts r2) = 10%nat
      ∧ NoDup (castKey <$> casts r1 ++ casts r2)
      ∧ ∀ c1 c2, c1 ∈ casts r1 → c2 ∈ casts r2 →
          truthy_str (hash c1) = true → hash c1 ≠ hash c2.
Proof.
  intros H1 Hn Hgt Hne Hdec.
  rewrite (feed_integer_offset _ _ _ _ None 0) in H1 by done.
  cbv zeta in H1. case_bool_decide as Hm; [by injection H1 as <-|].
  destruct (fetchAllCasts _ _ _) as [[fetched calls]|] eqn:Hf; [|done].
  injection H1 as <-. simpl in Hn. injection Hn as <-.
  set (all := processCasts _ _ fetched) in *.
  assert (Hstart : startIndexOf decodeCursor
                     (Some (encodeCursor (NumberOffset 10) now1))
                   = NumberOffset 10).
  { unfold startIndexOf. by rewrite (proj2 (String.eqb_neq _ _) Hne), Hdec. }
  exists fetched, calls, (encodeCursor (NumberOffset 10) now1). eexists.
  split; [done|]. split.
  { simpl. by rewrite bool_decide_eq_true_2 by lia. }
  split.
  { rewrite (feed_integer_offset _ _ _ _ _ 10 Hstart). cbv zeta.
    rewrite bool_decide_eq_false_2 by done. by rewrite Hf. }
  cbv zeta. fold all. simpl casts.
  change (0 + 10) with 10.
  rewrite js_slice_take by lia.
  rewrite (js_slice_window all 10 10) by lia.
  change (Z.to_nat 10) with 10%nat.
  assert (Hnd : NoDup (castKey <$> take 10 all ++ take 10 (drop 10 all))).
  { rewrite take_take_drop.
    refine (sublist_NoDup _ _ _ (fmap_sublist _ _ _ (sublist_take _ _))).
    apply processCasts_NoDup. }
  split_and!; [done..| |done|].
  - rewrite length_take, length_drop. lia.
  - intros c1 c2 Hc1 Hc2 Ht Heq.
    rewrite fmap_app in Hnd. apply NoDup_app in Hnd as (_ & Hdisj & _).
    apply (Hdisj (castKey c1)).
    + apply list_elem_of_fmap. by exists c1.
    + apply list_elem_of_fmap. exists c2. split; [|done].
      unfold castKey, or_str. by rewrite <- Heq, Ht.
Qed.

(** With more than [MAX_FIDS_PER_CALL] matched users the fetch stage never
    fails: each batch has its own handler. *)
Lemma fetchAllCasts_batched userFid matchedFids :
  MAX_FIDS_PER_CALL < Z.of_nat (length matchedFids) →
  ∃ fetched,
    fetchAllCasts neynar_feed userFid matchedFids
    = Ok (fetched,
          Z.of_nat (length (batches_from (length matchedFids) 0 matchedFids))).
Proof.
  intros Hlen. unfold fetchAllCasts.
  rewrite (proj2 (Z.ltb_lt _ _) Hlen). by eexists.
Qed.

(** With at most [MAX_FIDS_PER_CALL] matched users a failure of the one
    fetch fails the whole request. *)
Lemma single_batch_failure db now userFid limit cursor message :
  DbService.getUserMatches db userFid ≠ [] →
  Z.of_nat (length (DbService.getUserMatches db userFid)) ≤ MAX_FIDS_PER_CALL →
  neynar_feed (js_slice (DbService.getUserMatches db userFid) 0
                 MAX_FIDS_PER_CALL)
    (if userFid =? 0 then None else Some userFid) = Rejected message →
  feed db now userFid limit cursor
  = Err ("Failed to get connected users feed: Failed to fetch casts: "
         +:+ message).
Proof.
  intros Hne Hlen Hrej. unfold getConnectedUsersFeed, fetchAllCasts.
  rewrite bool_decide_eq_false_2 by done.
  rewrite (proj2 (Z.ltb_ge _ _) Hlen). unfold fetchCastsFromFids.
  rewrite bool_decide_eq_false_2 by done. by rewrite Hrej.
Qed.

(** C10. [getFeed] never rejects a limit: a call with any limit is the
    call with that limit clamped to 1..100, and with 25 when the limit is
    absent; an error of the request is an error under every limit, in range
    or not; and for a cursor whose offset is a non-negative integer the
    page is the clamped number of casts of the processed list from that
    offset on, or those that are left. *)
Theorem getFeed_clamps_limit db now userFid (l : Z) (c : option string) :
  let get := getFeed neynar_feed Date_getTime encodeCursor decodeCursor
               String_toNumber db now userFid in
  let validLimit := Z.min (Z.max 1 l) 100 in
  1 ≤ validLimit ≤ 100
  ∧ get (mkOptions (Some l) c) = get (mkOptions (Some validLimit) c)
  ∧ get (mkOptions None c) = get (mkOptions (Some 25) c)
  ∧ (∀ message l', get (mkOptions (Some l) c) = Err message →
       get (mkOptions (Some l') c) = Err message)
  ∧ (∀ r (start : Z),
       get (mkOptions (Some l) c) = Ok r →
       DbService.getUserMatches db userFid ≠ [] →
       startIndexOf decodeCursor c = NumberOffset start →
       0 ≤ start →
       ∃ fetched calls,
         fetchAllCasts neynar_feed userFid
           (DbService.getUserMatches db userFid) = Ok (fetched, calls)
         ∧ casts r
           = take (Z.to_nat validLimit)
               (drop (Z.to_nat start)
                  (processCasts Date_getTime
                     (DbService.getUserMatches db userFid) fetched))).
Proof.
  cbv zeta. split_and!; [lia..| |done| |].
  - unfold getFeed. cbn -[getConnectedUsersFeed Z.min Z.max].
    f_equal. lia.
  - intros message l'. unfold getFeed, getConnectedUsersFeed.
    cbn -[Z.min Z.max]. case_bool_decide; [done|].
    destruct (fetchAllCasts _ _ _) as [[fetched calls]|]; [|done].
    by destruct (startIndexOf decodeCursor c).
  - intros r start Hr Hm Hstart Hpos. unfold getFeed in Hr.
    cbn -[getConnectedUsersFeed Z.min Z.max] in Hr.
    rewrite (feed_integer_offset _ _ _ _ _ _ Hstart) in Hr. cbv zeta in Hr.
    rewrite bool_decide_eq_false_2 in Hr by done.
    destruct (fetchAllCasts _ _ _) as [[fetched calls]|]; [|done].
    injection Hr as <-. exists fetched, calls. split; [done|].
    cbn [casts]. apply js_slice_chunk; lia.
Qed.

(** With more than [MAX_FIDS_PER_CALL] matched users the request does not
    fail on the feed endpoint, whatever it does; what is left is a cursor
    holding an object whose conversion throws. *)
Lemma feed_batched_never_fails db now userFid limit cursor :
  MAX_FIDS_PER_CALL < Z.of_nat (length (DbService.getUserMatches db userFid)) →
  (∀ message, startIndexOf decodeCursor cursor ≠ ThrowingOffset message) →
  is_Ok (feed db now userFid limit cursor).
Proof.
  intros Hlen Hcursor. unfold getConnectedUsersFeed.
  case_bool_decide; [done|].
  destruct (fetchAllCasts_batched userFid _ Hlen) as [fetched ->].
  destruct (startIndexOf decodeCursor cursor) eqn:Hstart; [done..|].
  by destruct (Hcursor message).
Qed.

End Feed.

(** The theorem on a feed endpoint that returns casts of a stranger and
    of nobody: only the cast of the matched user is returned. *)
Lemma feed_casts_authored_by_matches_witness :
  ∃ r,
    FeedService.getConnectedUsersFeed leaky_feed iso_getTime
      json_encodeCursor json_decodeCursor digits_toNumber mutual_db 0 1 25 None = Ok r
    ∧ Forall (λ cast, ∃ f, FeedService.authorFid cast = Some f
                           ∧ f ∈ DbService.getUserMatches mutual_db 1)
        (FeedService.casts r)
    ∧ FeedService.hash <$> FeedService.casts r = [Some "0xa"].
Proof.
  destruct (FeedService.getConnectedUsersFeed leaky_feed iso_getTime
              json_encodeCursor json_decodeCursor digits_toNumber mutual_db 0 1 25 None)
    as [r|] eqn:Hr; [|vm_compute in Hr; discriminate].
  exists r. split; [done|]. split.
  - by apply (feed_casts_authored_by_matches _ _ _ _ _ _ _ _ _ _ _ Hr).
  - vm_compute in Hr. by injection Hr as <-.
Defined.

(** The theorem on a feed of 25 casts, with the base64/JSON cursor codec. *)
Lemma feed_pagination_round_trip_witness :
  ∃ r1 cur r2,
    FeedService.getConnectedUsersFeed long_feed iso_getTime
      json_encodeCursor json_decodeCursor digits_toNumber mutual_db 1700000000000 1 10 None
      = Ok r1
    ∧ FeedService.nextCursor (FeedService.pagination r1) = Some cur
    ∧ FeedService.getConnectedUsersFeed long_feed iso_getTime
        json_encodeCursor json_decodeCursor digits_toNumber mutual_db 1700000060000 1 10
        (Some cur) = Ok r2
    ∧ length (FeedService.casts r2) = 10%nat
    ∧ NoDup (FeedService.castKey
               <$> FeedService.casts r1 ++ FeedService.casts r2).
Proof.
  destruct (FeedService.getConnectedUsersFeed long_feed iso_getTime
              json_encodeCursor json_decodeCursor digits_toNumber mutual_db 1700000000000
              1 10 None) as [r1|] eqn:H1; [|vm_compute in H1; discriminate].
  destruct (feed_pagination_round_trip long_feed iso_getTime
              json_encodeCursor json_decodeCursor digits_toNumber mutual_db 1700000000000
              1700000060000 1 r1 25 H1)
    as (fetched & calls & cur & r2 & _ & Hcur & H2 & _ & _ & _ & Hlen & Hnd & _).
  - vm_compute in H1. by injection H1 as <-.
  - lia.
  - vm_compute. discriminate.
  - vm_compute. reflexivity.
  - by exists r1, cur, r2.
Defined.

(** The clamp at a limit of 0 on a feed of 25 casts: the request goes
    through as the one with limit 1 and returns one cast. *)
Lemma getFeed_clamps_limit_witness :
  ∃ r,
    FeedService.getFeed long_feed iso_getTime json_encodeCursor
      json_decodeCursor digits_toNumber mutual_db 0 1
      (FeedService.mkOptions (Some 0) None) = Ok r
    ∧ length (FeedService.casts r) = 1%nat.
Proof.
  destruct (FeedService.getFeed long_feed iso_getTime json_encodeCursor
              json_decodeCursor digits_toNumber mutual_db 0 1
              (FeedService.mkOptions (Some 0) None)) as [r|] eqn:H;
    [|vm_compute in H; discriminate].
  exists r. split; [done|].
  destruct (getFeed_clamps_limit long_feed iso_getTime json_encodeCursor
              json_decodeCursor digits_toNumber mutual_db 0 1 0 None)
    as (_ & _ & _ & _ & Hpage).
  destruct (Hpage r 0 H) as (fetched & calls & Hf & ->);
    [vm_compute; discriminate|done|lia|].
  vm_compute in Hf. injection Hf as <- _.
  vm_compute. reflexivity.
Defined.

(** A cursor that holds its offset as a string: for the cursor object
    [{"offset":"1"}] and limit 10 on a feed of 25 casts the sum
    [startIndex + limit] is the string 110, the page runs from the second
    cast to the last, and no cursor follows. *)
Lemma string_offset_is_joined_with_the_limit :
  ∃ r,
    FeedService.getConnectedUsersFeed long_feed iso_getTime
      json_encodeCursor json_decodeCursor digits_toNumber mutual_db 0 1 10
      (Some "eyJvZmZzZXQiOiIxIn0=") = Ok r
    ∧ length (FeedService.casts r) = 24%nat
    ∧ FeedService.hasMore (FeedService.pagination r) = false
    ∧ FeedService.nextCursor (FeedService.pagination r) = None.
Proof. eexists. split; [vm_compute; reflexivity|]. done. Qed.

(** C4, at the failing input: with a single batch (one matched user) and
    the feed endpoint down, the request fails with the error of the fetch
    instead of returning an empty feed. *)
Theorem single_batch_failure_is_fatal :
  FeedService.getConnectedUsersFeed failing_feed iso_getTime
    json_encodeCursor json_decodeCursor digits_toNumber mutual_db 0 1 25 None
  = Err ("Failed to get connected users feed: Failed to fetch casts: "
         +:+ "Neynar API error: 503 - unavailable").
Proof. by apply single_batch_failure. Qed.


(** * Further properties *)

(** ** Connection graph: how the relations fit together *)

Section ConnectionRelations.
Import DbService.

Lemma NoDup_swipe_rows db : NoDup (swipe_rows db).
Proof.
  unfold swipe_rows. apply NoDup_fmap_2_strong; [|apply NoDup_map_to_list].
  intros [[u t] c] [[u' t'] c'] _ _ [= -> -> ->]. done.
Qed.

Lemma swipe_rows_key_inj db s s' :
  s ∈ swipe_rows db → s' ∈ swipe_rows db →
  user_fid s = user_fid s' → target_fid s = target_fid s' → s = s'.
Proof.
  intros Hs Hs' Hu Ht. apply elem_of_swipe_rows in Hs, Hs'.
  rewrite Hu, Ht, Hs' in Hs. injection Hs as Hc.
  destruct s, s'; simpl in *; congruence.
Qed.

Lemma elem_of_getSwipedUserFids db u t :
  t ∈ getSwipedUserFids db u ↔ is_Some (user_swipes db !! (u, t)).
Proof.
  unfold getSwipedUserFids. rewrite list_elem_of_fmap. split.
  - intros (s & -> & Hs). apply list_elem_of_filter in Hs as [<- Hs].
    apply elem_of_swipe_rows in Hs. by eexists.
  - intros [c Hc]. exists (mkSwipe u t c). split; [done|].
    apply list_elem_of_filter. split; [done|]. by apply elem_of_swipe_rows.
Qed.

Lemma recordSwipe_Ok db now u t a r db' :
  recordSwipe db now u t a = Ok (r, db') →
  a ∈ ["like"; "reject"] ∧ u ≠ t
  ∧ user_fid r = u ∧ target_fid r = t ∧ action r = a
  ∧ created_at r = default now (created_at <$> user_swipes db !! (u, t))
  ∧ user_swipes db' = <[(u, t) := swipe_cols r]> (user_swipes db)
  ∧ users db' = users db ∧ personas db' = personas db.
Proof.
  unfold recordSwipe. case_bool_decide as Ha; [done|].
  case_bool_decide as Hne; [done|]. intros [= <- <-]. simpl.
  split_and!; try done; by destruct (user_swipes db !! (u, t)).
Qed.

Lemma hasLiked_recordSwipe db now u t a r db' x y :
  recordSwipe db now u t a = Ok (r, db') →
  hasLiked db' x y ↔
  (if decide ((x, y) = (u, t)) then a = "like" else hasLiked db x y).
Proof.
  intros (_ & _ & Hu & Ht & Ha & _ & Hsw & _)%recordSwipe_Ok.
  unfold hasLiked. rewrite Hsw. destruct (decide ((x, y) = (u, t))) as [->|Hk].
  - rewrite lookup_insert_eq. split.
    + by intros (c & [= <-] & Hc); rewrite <- Ha.
    + intros ->. by exists (swipe_cols r).
  - by rewrite lookup_insert_ne.
Qed.

Lemma hasLiked_dec db a b : {hasLiked db a b} + {¬ hasLiked db a b}.
Proof.
  unfold hasLiked. destruct (user_swipes db !! (a, b)) as [c|].
  - destruct (decide (action c = "like")); [left; by exists c|right].
    by intros (? & [= <-] & ?).
  - right. by intros (? & ? & ?).
Qed.

(** X1. The match relation is symmetric: a user is among the matches of
    another exactly when that other user is among theirs. *)
Theorem getUserMatches_symmetric db u x :
  x ∈ getUserMatches db u ↔ u ∈ getUserMatches db x.
Proof. rewrite !elem_of_getUserMatches. tauto. Qed.

(** X2. [checkIfMatched] answers true exactly for the members of
    [getUserMatches], and gives the same answer in both directions. *)
Theorem checkIfMatched_agrees_with_getUserMatches db a b :
  (checkIfMatched db a b = true ↔ b ∈ getUserMatches db a)
  ∧ checkIfMatched db a b = checkIfMatched db b a.
Proof.
  split; [by rewrite checkIfMatched_true, elem_of_getUserMatches|].
  apply eq_true_iff_eq. rewrite !checkIfMatched_true. tauto.
Qed.

(** X3. A request sent is a request received: x is among the requests u
    has sent exactly when u is among the requests x has received. *)
Theorem requests_sent_are_received db u x :
  x ∈ fid <$> getRequestsSent db u ↔ u ∈ fid <$> getRequestsReceived db x.
Proof. by rewrite elem_of_getRequestsSent, elem_of_getRequestsReceived. Qed.

(** X4. The users someone has liked are split between the requests sent
    and the matches: a liked user is in one of the two lists and never in
    both, and neither list holds a user who was not liked. *)
Theorem likes_split_into_sent_and_matches db u x :
  ((x ∈ fid <$> getRequestsSent db u ∨ x ∈ getUserMatches db u)
   ↔ ∃ c, user_swipes db !! (u, x) = Some c ∧ action c = "like")
  ∧ ¬ (x ∈ fid <$> getRequestsSent db u ∧ x ∈ getUserMatches db u).
Proof.
  rewrite elem_of_getRequestsSent, elem_of_getUserMatches.
  fold (hasLiked db u x). destruct (hasLiked_dec db x u); tauto.
Qed.

(** X5. Liking back a user whose request is pending always connects the
    two: the swipe is recorded, [checkIfMatched] is true, each is among the
    matches of the other and the request is pending no longer. *)
Theorem accepting_pending_request_connects db now A B :
  B ∈ fid <$> getRequestsReceived db A →
  ∃ r db',
    recordSwipe db now A B "like" = Ok (r, db')
    ∧ checkIfMatched db' A B = true
    ∧ B ∈ getUserMatches db' A
    ∧ A ∈ getUserMatches db' B
    ∧ (B ∉ fid <$> getRequestsReceived db' A)
    ∧ (A ∉ fid <$> getRequestsSent db' B).
Proof.
  intros [HBA HnAB]%elem_of_getRequestsReceived.
  assert (Hne : A ≠ B) by (by intros ->).
  destruct (recordSwipe_like db now A B Hne) as (r & db' & Hr & HAB' & _).
  exists r, db'. split; [done|].
  assert (HBA' : hasLiked db' B A).
  { apply (hasLiked_recordSwipe _ _ _ _ _ _ _ B A Hr).
    by rewrite decide_False by congruence. }
  rewrite checkIfMatched_true, !elem_of_getUserMatches,
    elem_of_getRequestsReceived, elem_of_getRequestsSent. tauto.
Qed.

(** X6. A reject ends a match but not a request: after user A rejects
    user B the two are not matched and B is not among the requests A has
    sent, yet when B had liked A, B is still among the requests A has
    received and A among those B has sent. *)
Theorem rejecting_keeps_request_pending db now A B r db' :
  recordSwipe db now A B "reject" = Ok (r, db') →
  (B ∉ getUserMatches db' A)
  ∧ (A ∉ getUserMatches db' B)
  ∧ checkIfMatched db' A B = false
  ∧ (B ∉ fid <$> getRequestsSent db' A)
  ∧ ((∃ c, user_swipes db !! (B, A) = Some c ∧ action c = "like") →
     B ∈ fid <$> getRequestsReceived db' A
     ∧ A ∈ fid <$> getRequestsSent db' B).
Proof.
  intros Hr. fold (hasLiked db B A).
  destruct (recordSwipe_Ok _ _ _ _ _ _ _ Hr) as (_ & Hne & _).
  assert (HnAB : ¬ hasLiked db' A B).
  { rewrite (hasLiked_recordSwipe _ _ _ _ _ _ _ A B Hr).
    by rewrite decide_True. }
  assert (HBA : hasLiked db' B A ↔ hasLiked db B A).
  { rewrite (hasLiked_recordSwipe _ _ _ _ _ _ _ B A Hr).
    by rewrite decide_False by congruence. }
  rewrite !elem_of_getUserMatches, elem_of_getRequestsReceived,
    !elem_of_getRequestsSent.
  split_and!; try tauto.
  apply not_true_is_false. rewrite checkIfMatched_true. tauto.
Qed.

(** X7. Recording the same swipe a second time succeeds and changes no
    relation: the creation time of the row is kept, and the matches, the
    requests sent and received and the swiped users are the same for every
    user. *)
Theorem recordSwipe_idempotent db now1 now2 u t a r1 db1 :
  recordSwipe db now1 u t a = Ok (r1, db1) →
  ∃ r2 db2,
    recordSwipe db1 now2 u t a = Ok (r2, db2)
    ∧ created_at r2 = created_at r1
    ∧ ∀ v x,
        (x ∈ getUserMatches db2 v ↔ x ∈ getUserMatches db1 v)
        ∧ (x ∈ fid <$> getRequestsSent db2 v
           ↔ x ∈ fid <$> getRequestsSent db1 v)
        ∧ (x ∈ fid <$> getRequestsReceived db2 v
           ↔ x ∈ fid <$> getRequestsReceived db1 v)
        ∧ (x ∈ getSwipedUserFids db2 v ↔ x ∈ getSwipedUserFids db1 v).
Proof.
  intros H1.
  destruct (recordSwipe_Ok _ _ _ _ _ _ _ H1)
    as (Ha & Hne & _ & _ & _ & _ & Hsw1 & _).
  destruct (recordSwipe db1 now2 u t a) as [[r2 db2]|] eqn:H2; cycle 1.
  { unfold recordSwipe in H2.
    rewrite bool_decide_eq_false_2 in H2 by (by intros []).
    by rewrite bool_decide_eq_false_2 in H2. }
  exists r2, db2. split; [done|].
  destruct (recordSwipe_Ok _ _ _ _ _ _ _ H2)
    as (_ & _ & _ & _ & _ & Hc2 & Hsw2 & _).
  split. { by rewrite Hc2, Hsw1, lookup_insert_eq. }
  assert (Hl : ∀ x y, hasLiked db2 x y ↔ hasLiked db1 x y).
  { intros x y. rewrite (hasLiked_recordSwipe _ _ _ _ _ _ _ x y H2).
    destruct (decide _) as [[= -> ->]|]; [|done].
    rewrite (hasLiked_recordSwipe _ _ _ _ _ _ _ u t H1).
    by rewrite decide_True. }
  intros v x. rewrite !elem_of_getUserMatches, !elem_of_getRequestsSent,
    !elem_of_getRequestsReceived, !elem_of_getSwipedUserFids, !Hl.
  split_and!; try done.
  rewrite Hsw2, Hsw1. destruct (decide ((v, x) = (u, t))) as [->|].
  - by rewrite !lookup_insert_eq.
  - by rewrite !lookup_insert_ne.
Qed.

(** X8. [getSwipedUserFids] lists the users someone has swiped on, liked
    or rejected, each of them once. *)
Theorem getSwipedUserFids_lists_each_target_once db u :
  NoDup (getSwipedUserFids db u)
  ∧ ∀ t, t ∈ getSwipedUserFids db u ↔ is_Some (user_swipes db !! (u, t)).
Proof.
  split; [|intros t; apply elem_of_getSwipedUserFids].
  unfold getSwipedUserFids.
  apply NoDup_fmap_2_strong; [|apply NoDup_filter, NoDup_swipe_rows].
  intros s s' [Hu Hs]%list_elem_of_filter [Hu' Hs']%list_elem_of_filter Ht.
  apply (swipe_rows_key_inj db); congruence.
Qed.

(** X9. No user is listed twice among the matches, the requests sent or
    the requests received of a user. *)
Theorem connection_lists_have_no_duplicates db u :
  NoDup (getUserMatches db u)
  ∧ NoDup (fid <$> getRequestsSent db u)
  ∧ NoDup (fid <$> getRequestsReceived db u).
Proof.
  assert (Hby_user : ∀ (P : Swipe → Prop) `{!∀ s, Decision (P s)},
    (∀ s, P s → target_fid s = u) →
    NoDup (user_fid <$> filter P (swipe_rows db))).
  { intros P ? HP.
    apply NoDup_fmap_2_strong; [|apply NoDup_filter, NoDup_swipe_rows].
    intros s s' [Hs ?]%list_elem_of_filter [Hs' ?]%list_elem_of_filter ?.
    apply (swipe_rows_key_inj db); [done..|].
    by rewrite (HP s), (HP s'). }
  assert (Hby_target : ∀ (P : Swipe → Prop) `{!∀ s, Decision (P s)},
    (∀ s, P s → user_fid s = u) →
    NoDup (target_fid <$> filter P (swipe_rows db))).
  { intros P ? HP.
    apply NoDup_fmap_2_strong; [|apply NoDup_filter, NoDup_swipe_rows].
    intros s s' [Hs ?]%list_elem_of_filter [Hs' ?]%list_elem_of_filter ?.
    apply (swipe_rows_key_inj db); [done..| |done].
    by rewrite (HP s), (HP s'). }
  split_and!.
  - unfold getUserMatches. case_bool_decide; [constructor|].
    apply Hby_user. tauto.
  - unfold getRequestsSent. case_bool_decide; [constructor|].
    rewrite <- list_fmap_compose.
    apply (NoDup_fmap_filter target_fid), Hby_target. tauto.
  - unfold getRequestsReceived. case_bool_decide; [constructor|].
    rewrite <- list_fmap_compose.
    apply (NoDup_fmap_filter user_fid), Hby_user. tauto.
Qed.

End ConnectionRelations.

(** X5 on the store where user 1 has liked user 2 and user 2 has rejected
    user 1: user 2 likes back. *)
Lemma accepting_pending_request_connects_witness :
  ∃ r db',
    DbService.recordSwipe pending_db 300 2 1 "like" = Ok (r, db')
    ∧ DbService.checkIfMatched db' 2 1 = true
    ∧ 1 ∈ DbService.getUserMatches db' 2
    ∧ 2 ∈ DbService.getUserMatches db' 1
    ∧ (1 ∉ DbService.fid <$> DbService.getRequestsReceived db' 2)
    ∧ (2 ∉ DbService.fid <$> DbService.getRequestsSent db' 1).
Proof.
  apply accepting_pending_request_connects.
  apply (bool_decide_unpack _). vm_compute. exact I.
Defined.

(** X6 on the store where users 1 and 2 like each other: user 1 rejects
    user 2. *)
Lemma rejecting_keeps_request_pending_witness :
  ∃ r db',
    DbService.recordSwipe mutual_db 300 1 2 "reject" = Ok (r, db')
    ∧ (2 ∉ DbService.getUserMatches db' 1)
    ∧ DbService.checkIfMatched db' 1 2 = false
    ∧ 2 ∈ DbService.fid <$> DbService.getRequestsReceived db' 1
    ∧ 1 ∈ DbService.fid <$> DbService.getRequestsSent db' 2.
Proof.
  destruct (DbService.recordSwipe mutual_db 300 1 2 "reject")
    as [[r db']|] eqn:H; [|vm_compute in H; discriminate].
  destruct (rejecting_keeps_request_pending _ _ _ _ _ _ H)
    as (H1 & _ & H3 & _ & H5).
  exists r, db'. split_and!; [done..| |]; apply H5; exists like; by split.
Defined.

(** X7 on a store without swipes: user 1 likes user 2 at time 100 and
    again at time 200. *)
Lemma recordSwipe_idempotent_witness :
  ∃ r1 db1 r2 db2,
    DbService.recordSwipe strangers_db 100 1 2 "like" = Ok (r1, db1)
    ∧ DbService.recordSwipe db1 200 1 2 "like" = Ok (r2, db2)
    ∧ DbService.created_at (DbService.swipe_cols r2)
      = DbService.created_at (DbService.swipe_cols r1)
    ∧ (2 ∈ DbService.getSwipedUserFids db2 1
       ↔ 2 ∈ DbService.getSwipedUserFids db1 1).
Proof.
  destruct (DbService.recordSwipe strangers_db 100 1 2 "like")
    as [[r1 db1]|] eqn:H1; [|vm_compute in H1; discriminate].
  destruct (recordSwipe_idempotent _ _ 200 _ _ _ _ _ H1)
    as (r2 & db2 & H2 & Hc & Hrel).
  exists r1, db1, r2, db2. split_and!; [done..|]. apply (Hrel 1 2).
Defined.

(** ** Similarity scorer: bounds and evidence *)

Section ScorerBounds.
Import DbService MatchingService.

Variable toLowerCase : string → string.

Lemma elem_of_arrayIntersection (a b : list string) k :
  k ∈ arrayIntersection toLowerCase a b
  ↔ k ∈ a ∧ toLowerCase k ∈ toLowerCase <$> b.
Proof.
  unfold arrayIntersection. case_bool_decide as Hnil.
  - split; [by intros ?%not_elem_of_nil|].
    intros [Ha Hb]. destruct Hnil as [-> | ->].
    + by apply not_elem_of_nil in Ha.
    + by apply not_elem_of_nil in Hb.
  - cbv zeta. rewrite list_elem_of_filter. tauto.
Qed.

Lemma arrayIntersection_length_le (a b : list string) :
  (length (arrayIntersection toLowerCase a b) ≤ length a)%nat.
Proof.
  unfold arrayIntersection. case_bool_decide; [simpl; lia|].
  apply length_filter.
Qed.

Lemma arrayIntersection_self (a : list string) :
  arrayIntersection toLowerCase a a = a.
Proof.
  unfold arrayIntersection. case_bool_decide as Hnil.
  - by destruct Hnil as [-> | ->].
  - cbv zeta. apply list_filter_all, Forall_forall. intros k Hk.
    apply list_elem_of_fmap. by exists k.
Qed.

Lemma categoryMatch_snd (w : Q) (a b : option (list string)) :
  (categoryMatch toLowerCase w a b).2
  = arrayIntersection toLowerCase (or_empty a) (or_empty b).
Proof.
  unfold categoryMatch. case_bool_decide as Hlen; [done|]. simpl.
  destruct (arrayIntersection _ _ _); [done|simpl in Hlen; lia].
Qed.

Lemma ratio_bounds (n m : Z) :
  0 ≤ n ≤ m → 1 ≤ m → (0 <= inject_Z n / inject_Z m <= 1)%Q.
Proof.
  intros Hn Hm.
  assert (Hpos : (0 < inject_Z m)%Q) by (rewrite <- (Zlt_Qlt 0); lia).
  split.
  - apply Qle_shift_div_l; [done|]. rewrite Qmult_0_l.
    rewrite <- (Zle_Qle 0). lia.
  - apply Qle_shift_div_r; [done|]. rewrite Qmult_1_l.
    rewrite <- Zle_Qle. lia.
Qed.

Lemma categoryMatch_bounds (w : Q) (a b : option (list string)) :
  (0 <= w)%Q → (0 <= (categoryMatch toLowerCase w a b).1 <= w)%Q.
Proof.
  intros Hw. unfold categoryMatch. case_bool_decide; simpl; [|lra].
  unfold len. change 1%Q with (inject_Z 1). rewrite !Qmax_inject_Z.
  pose proof (arrayIntersection_length_le (or_empty a) (or_empty b)).
  set (q := (inject_Z _ / inject_Z _)%Q).
  assert (0 <= q <= 1)%Q as [? ?] by (apply ratio_bounds; lia).
  split; nra.
Qed.

Lemma expertiseMatch_bounds p1 p2 : (0 <= expertiseMatch p1 p2 <= 15)%Q.
Proof.
  unfold expertiseMatch. repeat case_match; lra.
Qed.

Lemma engagementMatch_bounds p1 p2 : (0 <= engagementMatch p1 p2 <= 10)%Q.
Proof.
  unfold engagementMatch. repeat case_match; lra.
Qed.

Lemma rounded_nonneg (s : Q) :
  (0 <= s)%Q → (0 <= Qmin 100 (inject_Z (Math_round (s * 100)) / 100))%Q.
Proof.
  intros Hs. apply Q.min_glb; [lra|].
  apply Qle_shift_div_l; [lra|]. rewrite Qmult_0_l.
  rewrite <- (Zle_Qle 0). unfold Math_round.
  change 0 with (Qfloor 0). apply Qfloor_resp_le. lra.
Qed.

Lemma calculateMatchScore_bounds (p1 p2 : Persona) :
  (0 <= score (calculateMatchScore toLowerCase p1 p2) <= 100)%Q.
Proof.
  unfold calculateMatchScore.
  pose proof (categoryMatch_bounds 30 (core_interests p1) (core_interests p2)).
  pose proof (categoryMatch_bounds 25 (projects_protocols p1)
                (projects_protocols p2)).
  pose proof (categoryMatch_bounds 15 (content_themes p1) (content_themes p2)).
  pose proof (categoryMatch_bounds 5 (top_channels p1) (top_channels p2)).
  pose proof (expertiseMatch_bounds p1 p2).
  pose proof (engagementMatch_bounds p1 p2).
  repeat match goal with
  | |- context [categoryMatch toLowerCase ?w ?a ?b] =>
      destruct (categoryMatch toLowerCase w a b) as [? ?]
  end.
  simpl in *. split; [|apply Q.le_min_l].
  apply rounded_nonneg. lra.
Qed.

(** X10. Every score lies between 0 and 100. *)
Theorem score_between_0_and_100 (p1 p2 : Persona) :
  (0 <= score (calculateMatchScore toLowerCase p1 p2) <= 100)%Q.
Proof. apply calculateMatchScore_bounds. Qed.

(** X11. The evidence of a score holds, for each category, the entries of
    the first persona that occur in the second persona up to letter case,
    in the spelling of the first persona. *)
Theorem matching_keywords_are_shared_entries (p1 p2 : Persona) :
  let evidence := matchingKeywords (calculateMatchScore toLowerCase p1 p2) in
  let shared (a b : option (list string)) (k : string) :=
    k ∈ or_empty a ∧ toLowerCase k ∈ toLowerCase <$> or_empty b in
  ∀ k,
    (k ∈ interests evidence
     ↔ shared (core_interests p1) (core_interests p2) k)
    ∧ (k ∈ projects evidence
       ↔ shared (projects_protocols p1) (projects_protocols p2) k)
    ∧ (k ∈ themes evidence
       ↔ shared (content_themes p1) (content_themes p2) k)
    ∧ (k ∈ channels evidence
       ↔ shared (top_channels p1) (top_channels p2) k).
Proof.
  intros evidence shared k. subst evidence shared. unfold calculateMatchScore.
  pose proof (categoryMatch_snd 30 (core_interests p1) (core_interests p2)).
  pose proof (categoryMatch_snd 25 (projects_protocols p1)
                (projects_protocols p2)).
  pose proof (categoryMatch_snd 15 (content_themes p1) (content_themes p2)).
  pose proof (categoryMatch_snd 5 (top_channels p1) (top_channels p2)).
  repeat match goal with
  | |- context [categoryMatch toLowerCase ?w ?a ?b] =>
      destruct (categoryMatch toLowerCase w a b) as [? ?]
  end.
  simpl in *. subst. by rewrite !elem_of_arrayIntersection.
Qed.

Lemma categoryMatch_self (w : Q) (a : option (list string)) :
  or_empty a ≠ [] →
  ((categoryMatch toLowerCase w a a).1 == w)%Q
  ∧ (categoryMatch toLowerCase w a a).2 = or_empty a.
Proof.
  intros Hne. unfold categoryMatch. rewrite arrayIntersection_self.
  assert (Hlen : (0 < length (or_empty a))%nat)
    by (destruct (or_empty a); [done|simpl; lia]).
  rewrite bool_decide_eq_true_2 by done. simpl. split; [|done].
  unfold len. change 1%Q with (inject_Z 1). rewrite !Qmax_inject_Z.
  rewrite Z.max_id, Z.max_l by lia.
  assert (Hnz : ¬ (inject_Z (Z.of_nat (length (or_empty a))) == 0)%Q).
  { change 0%Q with (inject_Z 0). rewrite inject_Z_injective. lia. }
  field. done.
Qed.

Lemma rounded_100 (s : Q) :
  (s == 100)%Q →
  (Qmin 100 (inject_Z (Math_round (s * 100)) / 100) == 100)%Q.
Proof.
  intros Hs. unfold Math_round.
  rewrite (Qfloor_comp (s * 100 + (1 # 2)) (100 * 100 + (1 # 2)))
    by (by rewrite Hs).
  reflexivity.
Qed.

(** X12. A persona in which the four arrays are non-empty and both the
    expertise level and the engagement style are set scores 100 against
    itself, with all its entries as evidence. *)
Theorem complete_persona_scores_100_against_itself (p : Persona) :
  or_empty (core_interests p) ≠ [] →
  or_empty (projects_protocols p) ≠ [] →
  or_empty (content_themes p) ≠ [] →
  or_empty (top_channels p) ≠ [] →
  truthy_str (expertise_level p) = true →
  truthy_str (engagement_style p) = true →
  (score (calculateMatchScore toLowerCase p p) == 100)%Q
  ∧ matchingKeywords (calculateMatchScore toLowerCase p p)
    = mkKeywords (or_empty (core_interests p))
        (or_empty (projects_protocols p)) (or_empty (content_themes p))
        (or_empty (top_channels p)).
Proof.
  intros Hi Hp Ht Hc He Hg. unfold calculateMatchScore.
  destruct (categoryMatch_self 30 _ Hi) as [Ei1 Ei2].
  destruct (categoryMatch_self 25 _ Hp) as [Ep1 Ep2].
  destruct (categoryMatch_self 15 _ Ht) as [Et1 Et2].
  destruct (categoryMatch_self 5 _ Hc) as [Ec1 Ec2].
  assert (Ee : expertiseMatch p p = 15%Q).
  { unfold expertiseMatch. destruct (expertise_level p) as [l|]; [|done].
    simpl in He. by rewrite He, String.eqb_refl. }
  assert (Eg : engagementMatch p p = 10%Q).
  { unfold engagementMatch. destruct (engagement_style p) as [l|]; [|done].
    simpl in Hg. by rewrite Hg, String.eqb_refl. }
  repeat match goal with
  | |- context [categoryMatch toLowerCase ?w ?a ?b] =>
      destruct (categoryMatch toLowerCase w a b) as [? ?]
  end.
  simpl in *. subst. split; [|done].
  apply rounded_100. rewrite Ee, Eg, Ei1, Ep1, Et1, Ec1. reflexivity.
Qed.

End ScorerBounds.

(** X12 on a persona with one entry in each array, an expertise level and
    an engagement style. *)
Lemma complete_persona_scores_100_against_itself_witness :
  let p :=
    DbService.mkPersona 1
      (DbService.mkPersonaCols (Some ["DeFi"]) (Some ["Base"])
         (Some "expert") (Some "builder") (Some ["Infra"]) (Some ["dev"])
         None 0) in
  (MatchingService.score
     (MatchingService.calculateMatchScore ascii_toLowerCase p p) == 100)%Q
  ∧ MatchingService.matchingKeywords
      (MatchingService.calculateMatchScore ascii_toLowerCase p p)
    = MatchingService.mkKeywords ["DeFi"] ["Base"] ["Infra"] ["dev"].
Proof.
  intros p.
  apply (complete_persona_scores_100_against_itself ascii_toLowerCase p);
    done.
Defined.

(** ** Candidate ranker: every page *)

Section RankerPages.
Import DbService MatchingService.

Variable toLowerCase : string → string.
Variable shuffle : list Match → list Match.

Lemma elem_of_persona_rows db p :
  p ∈ persona_rows db ↔ personas db !! farcaster_fid p = Some (persona_cols p).
Proof.
  unfold persona_rows. rewrite list_elem_of_fmap. split.
  - intros ([f c] & -> & Hin). simpl. by apply elem_of_map_to_list in Hin.
  - intros Hl. exists (farcaster_fid p, persona_cols p).
    split; [by destruct p|]. by apply elem_of_map_to_list.
Qed.

Lemma allPersonas_stored db fid p :
  p ∈ allPersonas db fid →
  personas db !! farcaster_fid p = Some (persona_cols p).
Proof.
  unfold allPersonas, getAllPersonasExcept.
  rewrite list_elem_of_filter, js_sort_Permutation, list_elem_of_filter.
  intros (_ & _ & Hp). by apply elem_of_persona_rows.
Qed.

Lemma js_slice_sublist {A} (l : list A) (start stop : Z) :
  js_slice l start stop `sublist_of` l.
Proof.
  unfold js_slice. cbv zeta. etrans; [apply sublist_take|apply sublist_drop].
Qed.

Lemma StronglySorted_sublist {A} (R : relation A) (l k : list A) :
  l `sublist_of` k → StronglySorted R k → StronglySorted R l.
Proof.
  induction 1 as [|x l k Hlk IH|x l k Hlk IH].
  - done.
  - intros [Hk Hx]%StronglySorted_inv. constructor; [by apply IH|].
    apply Forall_forall. intros y Hy. rewrite Forall_forall in Hx.
    eapply Hx, elem_of_sublist; [|exact Hlk]. done.
  - intros [Hk _]%StronglySorted_inv. by apply IH.
Qed.

Lemma length_filter_split {A} (P Q : A → Prop) `{!∀ x, Decision (P x)}
    `{!∀ x, Decision (Q x)} (l : list A) :
  Forall (λ x, Q x ↔ ¬ P x) l →
  (length (filter P l) + length (filter Q l) = length l)%nat.
Proof.
  induction 1 as [|x l Hx _ IH]; [done|]. rewrite !filter_cons.
  destruct (decide (P x)), (decide (Q x)); simpl; rewrite <- ?IH; tauto || lia.
Qed.

Lemma elem_of_matched_users db (l : list Match) u :
  u ∈ omap id (toMatchedUser db <$> l)
  ↔ ∃ m, m ∈ l ∧ toMatchedUser db m = Some u.
Proof.
  rewrite list_elem_of_omap. split.
  - intros (o & (m & -> & Hm)%list_elem_of_fmap & Ho). by exists m.
  - intros (m & Hm & Hu). exists (Some u). split; [|done].
    apply list_elem_of_fmap. by exists m.
Qed.

Lemma toMatchedUser_Some db m u :
  toMatchedUser db m = Some u →
  m_fid u = farcaster_fid (persona m) ∧ match_score u = score m
  ∧ getUserByFid db (farcaster_fid (persona m)) = Some (m_user u).
Proof.
  unfold toMatchedUser. destruct (getUserByFid _ _); [|done].
  by intros [= <-].
Qed.

Lemma matched_users_fids_sublist db (l : list Match) :
  m_fid <$> omap id (toMatchedUser db <$> l)
    `sublist_of` (λ m, farcaster_fid (persona m)) <$> l.
Proof.
  induction l as [|m l IH]; [done|]. rewrite !fmap_cons. simpl.
  destruct (toMatchedUser db m) as [u|] eqn:Hu; simpl.
  - apply toMatchedUser_Some in Hu as (-> & _). by apply sublist_skip.
  - by apply sublist_cons.
Qed.

Lemma matched_users_sorted db (l : list Match) :
  StronglySorted (λ a b : Match, score b <= score a)%Q l →
  StronglySorted (λ a b, match_score b <= match_score a)%Q
    (omap id (toMatchedUser db <$> l)).
Proof.
  induction l as [|m l IH]; [constructor|].
  intros [Hl Hm]%StronglySorted_inv. rewrite fmap_cons. simpl.
  destruct (toMatchedUser db m) as [u|] eqn:Hu; simpl; [|by apply IH].
  constructor; [by apply IH|]. apply Forall_forall. intros u' Hu'.
  apply elem_of_matched_users in Hu' as (m' & Hm' & Hu'').
  apply toMatchedUser_Some in Hu as (_ & -> & _).
  apply toMatchedUser_Some in Hu'' as (_ & -> & _).
  rewrite Forall_forall in Hm. by apply Hm.
Qed.

(** The result of a request that does not fail. *)
Lemma getMatchingUsers_Ok db fid page limit r :
  getMatchingUsers toLowerCase shuffle db fid page limit = Ok r →
  fid ≠ 0 ∧ ∃ userPersona,
    getPersonaByFid db fid = Some userPersona
    ∧ let scored := withScore toLowerCase userPersona <$> allPersonas db fid in
      let actualMatches :=
        js_sort (λ a b : Match, score b - score a)%Q
          (filter (λ m : Match, 0 < score m)%Q scored) in
      let nonMatching := filter (λ m : Match, score m == 0)%Q scored in
      let totalCount :=
        Z.of_nat (length actualMatches) + Z.of_nat (length nonMatching) in
      pagination r
        = mkPagination page limit totalCount
            (if bool_decide (allPersonas db fid = []) then 0
             else Math_ceil_div totalCount limit)
      ∧ matches r
        = if bool_decide (allPersonas db fid = []) then []
          else omap id (toMatchedUser db <$>
                 backfill shuffle fid limit (getSwipedUserFids db fid) scored
                   (js_slice actualMatches ((page - 1) * limit)
                      ((page - 1) * limit + limit))).
Proof.
  intros Hr. assert (Hfid : fid ≠ 0).
  { intros ->. by unfold getMatchingUsers in Hr. }
  split; [done|]. unfold getMatchingUsers in Hr.
  rewrite (proj2 (Z.eqb_neq fid 0) Hfid) in Hr.
  destruct (getPersonaByFid db fid) as [userPersona|]; [|done].
  exists userPersona. split; [done|]. cbv zeta in *.
  case_bool_decide as HU; injection Hr as <-; [|done].
  by rewrite HU.
Qed.

Section Stages.
Variables (db : Db) (fid limit : Z) (userPersona : Persona).

Local Abbreviation scored :=
  (withScore toLowerCase userPersona <$> allPersonas db fid).
Local Abbreviation positive := (filter (λ m : Match, 0 < score m)%Q scored).
Local Abbreviation actualMatches :=
  (js_sort (λ a b : Match, score b - score a)%Q positive).

Lemma scored_fids :
  (λ m : Match, farcaster_fid (persona m)) <$> scored
  = farcaster_fid <$> allPersonas db fid.
Proof. by rewrite <- list_fmap_compose. Qed.

Lemma NoDup_scored_fids (P : Match → Prop) `{!∀ m, Decision (P m)} :
  NoDup ((λ m : Match, farcaster_fid (persona m)) <$> filter P scored).
Proof.
  apply NoDup_fmap_filter. rewrite scored_fids. apply NoDup_allPersonas.
Qed.

Lemma elem_of_scored m :
  m ∈ scored →
  persona m ∈ allPersonas db fid
  ∧ m = withScore toLowerCase userPersona (persona m).
Proof. by intros (p & -> & Hp)%list_elem_of_fmap. Qed.

(** The entries of a page before the profile lookup: candidates of the
    universe, with their score when it is positive and with score 0 when
    they are backfill. *)
Lemma elem_of_backfill (pg : list Match) m :
  (∀ l, shuffle l ≡ₚ l) →
  pg ⊆ positive →
  m ∈ backfill shuffle fid limit (getSwipedUserFids db fid) scored pg →
  persona m ∈ allPersonas db fid
  ∧ (m ∈ pg ∨ score m = 0%Q).
Proof.
  intros Hperm Hpg. unfold backfill. cbv zeta.
  assert (Hin : m ∈ pg → persona m ∈ allPersonas db fid ∧ (m ∈ pg ∨ score m = 0%Q)).
  { intros Hm. split; [|by left].
    apply Hpg, list_elem_of_filter in Hm as [_ Hm].
    by apply elem_of_scored in Hm as [? _]. }
  destruct (_ <? _); [|done].
  intros [Hm|Hm]%elem_of_app; [by apply Hin|].
  apply list_elem_of_fmap in Hm as (m0 & -> & Hm0). simpl.
  split; [|by right].
  apply js_slice_subseteq in Hm0. rewrite Hperm in Hm0.
  apply list_elem_of_filter in Hm0 as [_ Hm0].
  apply list_elem_of_filter in Hm0 as [_ Hm0].
  by apply elem_of_scored in Hm0 as [? _].
Qed.

Lemma backfill_length (pg : list Match) :
  0 ≤ limit → Z.of_nat (length pg) ≤ limit →
  Z.of_nat (length (backfill shuffle fid limit (getSwipedUserFids db fid)
                      scored pg)) ≤ limit.
Proof.
  intros Hlimit Hpg. unfold backfill. cbv zeta.
  destruct (_ <? _) eqn:Hlt; [|done]. apply Z.ltb_lt in Hlt.
  rewrite length_app, length_fmap.
  pose proof (js_slice_length_le
    (shuffle (filter (λ m : Match, farcaster_fid (persona m)
                ∉ fid :: getSwipedUserFids db fid
                    ++ ((λ m0 : Match, farcaster_fid (persona m0)) <$> pg))
       (filter (λ m : Match, score m == 0)%Q scored)))
    0 (limit - Z.of_nat (length pg))) as Hle.
  rewrite Z.add_0_l in Hle. lia.
Qed.

Lemma backfill_NoDup (pg : list Match) :
  (∀ l, shuffle l ≡ₚ l) →
  NoDup ((λ m : Match, farcaster_fid (persona m)) <$> pg) →
  NoDup ((λ m : Match, farcaster_fid (persona m))
           <$> backfill shuffle fid limit (getSwipedUserFids db fid) scored pg).
Proof.
  intros Hperm Hpg. unfold backfill. cbv zeta.
  destruct (_ <? _); [|done].
  rewrite fmap_app, <- list_fmap_compose.
  change ((λ m : Match, farcaster_fid (persona m)) ∘ _)
    with (λ m : Match, farcaster_fid (persona m)).
  apply NoDup_app. split_and!; [done| |].
  - intros x Hx (m & -> & Hm)%list_elem_of_fmap.
    apply js_slice_subseteq in Hm. rewrite Hperm in Hm.
    apply list_elem_of_filter in Hm as [Hnot _]. apply Hnot.
    rewrite elem_of_cons, elem_of_app. tauto.
  - refine (sublist_NoDup _ _ _ (fmap_sublist _ _ _ (js_slice_sublist _ _ _))).
    rewrite Hperm. apply NoDup_fmap_filter, NoDup_scored_fids.
Qed.

Lemma backfill_sorted (pg : list Match) :
  pg ⊆ positive →
  StronglySorted (λ a b : Match, score b <= score a)%Q pg →
  StronglySorted (λ a b : Match, score b <= score a)%Q
    (backfill shuffle fid limit (getSwipedUserFids db fid) scored pg).
Proof.
  intros Hpg Hs. unfold backfill. cbv zeta. destruct (_ <? _); [|done].
  apply StronglySorted_app_2; [|done|].
  - intros a b Ha (m0 & -> & _)%list_elem_of_fmap. simpl.
    apply Hpg, list_elem_of_filter in Ha as [Ha _]. lra.
  - generalize (js_slice (shuffle (filter
      (λ m : Match, farcaster_fid (persona m)
         ∉ fid :: getSwipedUserFids db fid
             ++ ((λ m0 : Match, farcaster_fid (persona m0)) <$> pg))
      (filter (λ m : Match, score m == 0)%Q scored))) 0
      (limit - Z.of_nat (length pg))) as rs.
    induction rs as [|m0 rs IH]; [constructor|]. rewrite fmap_cons.
    constructor; [done|]. apply Forall_forall.
    intros m (m1 & -> & _)%list_elem_of_fmap. simpl. lra.
Qed.

Lemma page_slice_facts (page : Z) :
  let pg := js_slice actualMatches ((page - 1) * limit)
              ((page - 1) * limit + limit) in
  pg ⊆ positive
  ∧ NoDup ((λ m : Match, farcaster_fid (persona m)) <$> pg)
  ∧ StronglySorted (λ a b : Match, score b <= score a)%Q pg.
Proof.
  cbv zeta. split_and!.
  - intros m Hm%js_slice_subseteq. by rewrite js_sort_Permutation in Hm.
  - refine (sublist_NoDup _ _ _ (fmap_sublist _ _ _ (js_slice_sublist _ _ _))).
    rewrite js_sort_Permutation. apply NoDup_scored_fids.
  - eapply StronglySorted_sublist; [apply js_slice_sublist|].
    apply (js_sort_descending (λ m : Match, score m)).
Qed.

End Stages.

Lemma page_entries db fid page limit r u :
  (∀ l, shuffle l ≡ₚ l) →
  getMatchingUsers toLowerCase shuffle db fid page limit = Ok r →
  u ∈ matches r →
  ∃ p, p ∈ allPersonas db fid ∧ farcaster_fid p = m_fid u
       ∧ getUserByFid db (m_fid u) = Some (m_user u).
Proof.
  intros Hperm (Hfid & up & Hup & _ & Hm)%getMatchingUsers_Ok Hu.
  cbv zeta in Hm. rewrite Hm in Hu. clear Hm.
  case_bool_decide; [by apply not_elem_of_nil in Hu|].
  apply elem_of_matched_users in Hu as (m & Hm & Hu).
  apply toMatchedUser_Some in Hu as (Hf & _ & Huser).
  destruct (page_slice_facts db fid limit up page) as (Hpg & _ & _).
  apply elem_of_backfill in Hm as [Hp _]; [|done..].
  exists (persona m). by rewrite Hf.
Qed.

Lemma fk_personas_fid_dom db :
  dom (personas db) ⊆@{gset Z} dom (users db) → fk_personas_fid db.
Proof.
  intros Hdom fid persona Hfid. apply (elem_of_dom (D := gset Z)), Hdom.
  by apply (elem_of_dom_2 (D := gset Z)) in Hfid.
Qed.

Lemma candidates_have_user_records db fid :
  fk_personas_fid db →
  Forall (λ p, is_Some (getUserByFid db (farcaster_fid p)))
    (allPersonas db fid).
Proof.
  intros Hfk. apply Forall_forall. intros p Hp%allPersonas_stored.
  by eapply Hfk.
Qed.

Lemma lookups_keep_length db (l : list Match) :
  Forall (λ m, is_Some (getUserByFid db (farcaster_fid (persona m)))) l →
  length (omap id (toMatchedUser db <$> l)) = length l.
Proof.
  intros Hl. symmetry. eapply Forall2_length. by apply matched_users_Forall2.
Qed.

(** Page 1 when every candidate has a user record. *)
Lemma first_page_size db fid limit r :
  (∀ l, shuffle l ≡ₚ l) →
  fk_personas_fid db →
  0 ≤ limit →
  getMatchingUsers toLowerCase shuffle db fid 1 limit = Ok r →
  Z.of_nat (length (matches r)) = Z.min limit (total (pagination r)).
Proof.
  intros Hshuffle Hfk Hlimit (Hfid & up & Hup & Hp & Hm)%getMatchingUsers_Ok.
  cbv zeta in Hp, Hm. rewrite Hp, Hm. clear Hp Hm. cbn [total].
  case_bool_decide as HU; [rewrite HU; simpl; lia|].
  change ((1 - 1) * limit) with 0. change (0 + limit) with limit.
  rewrite js_slice_take by done.
  set (scored := withScore toLowerCase up <$> allPersonas db fid).
  set (AM := js_sort _ (filter (λ m : Match, 0 < score m)%Q scored)).
  set (zeros := filter (λ m : Match, score m == 0)%Q scored).
  assert (HAM : take (Z.to_nat limit) AM
                  ⊆ filter (λ m : Match, 0 < score m)%Q scored).
  { intros m Hm%subseteq_take. unfold AM in Hm.
    by rewrite js_sort_Permutation in Hm. }
  rewrite lookups_keep_length; cycle 1.
  { apply Forall_forall. intros m Hm.
    destruct (elem_of_backfill db fid limit up _ m Hshuffle HAM Hm)
      as [Hin _].
    pose proof (candidates_have_user_records db fid Hfk) as Hall.
    rewrite Forall_forall in Hall. by apply Hall. }
  destruct (Z.ltb_spec (Z.of_nat (length (take (Z.to_nat limit) AM))) limit)
    as [Hshort|Hfull].
  - rewrite (backfill_short_page toLowerCase shuffle db fid up) by done.
    fold scored zeros.
    rewrite length_app, length_fmap, !length_take,
      (Permutation_length (Hshuffle zeros)).
    rewrite length_take in Hshort. lia.
  - unfold backfill. rewrite (proj2 (Z.ltb_ge _ _) Hfull).
    rewrite length_take in Hfull |- *. lia.
Qed.

(** C9, as amended. In a store that satisfies the foreign key of the
    personas on the users every candidate has a user record: no lookup
    returns [null], so no candidate is removed after scoring, pagination
    and backfill, and page 1 holds as many candidates as the page size, or
    all of them when they are fewer. *)
Theorem first_page_is_full_under_the_foreign_key db fid limit r :
  (∀ l, shuffle l ≡ₚ l) →
  fk_personas_fid db →
  0 ≤ limit →
  getMatchingUsers toLowerCase shuffle db fid 1 limit = Ok r →
  Forall (λ p, is_Some (getUserByFid db (farcaster_fid p)))
    (allPersonas db fid)
  ∧ Z.of_nat (length (matches r)) = Z.min limit (total (pagination r)).
Proof.
  intros Hshuffle Hfk Hlimit Hr.
  split; [by apply candidates_have_user_records|].
  by apply (first_page_size db fid).
Qed.

(** X13. A page suggests only candidates: never the requesting user, never
    a user they have already swiped on, and only users with a stored
    persona and a user record. *)
Theorem suggested_users_are_unswiped_candidates db fid page limit r :
  (∀ l, shuffle l ≡ₚ l) →
  getMatchingUsers toLowerCase shuffle db fid page limit = Ok r →
  Forall (λ u, m_fid u ≠ fid
               ∧ (m_fid u ∉ getSwipedUserFids db fid)
               ∧ is_Some (personas db !! m_fid u)
               ∧ getUserByFid db (m_fid u) = Some (m_user u))
    (matches r).
Proof.
  intros Hperm Hr. apply Forall_forall. intros u Hu.
  destruct (page_entries _ _ _ _ _ _ Hperm Hr Hu) as (p & Hp & <- & Huser).
  destruct (elem_of_allPersonas _ _ _ Hp) as [? ?].
  split_and!; [done..| |done].
  rewrite (allPersonas_stored _ _ _ Hp). by eexists.
Qed.

(** X14. A page never has more entries than the limit. *)
Theorem page_has_at_most_limit_entries db fid page limit r :
  0 ≤ limit →
  getMatchingUsers toLowerCase shuffle db fid page limit = Ok r →
  Z.of_nat (length (matches r)) ≤ limit.
Proof.
  intros Hlimit (Hfid & up & Hup & _ & Hm)%getMatchingUsers_Ok.
  cbv zeta in Hm. rewrite Hm. clear Hm.
  case_bool_decide; [simpl; lia|].
  rewrite <- (length_fmap m_fid).
  etrans; [apply inj_le, sublist_length, matched_users_fids_sublist|].
  rewrite length_fmap. apply backfill_length; [done|].
  by apply js_slice_length_le.
Qed.

(** X15. No user occurs twice on a page. *)
Theorem page_has_no_duplicate_users db fid page limit r :
  (∀ l, shuffle l ≡ₚ l) →
  getMatchingUsers toLowerCase shuffle db fid page limit = Ok r →
  NoDup (m_fid <$> matches r).
Proof.
  intros Hperm (Hfid & up & Hup & _ & Hm)%getMatchingUsers_Ok.
  cbv zeta in Hm. rewrite Hm. clear Hm.
  case_bool_decide; [constructor|].
  refine (sublist_NoDup _ _ _ (matched_users_fids_sublist _ _)).
  apply backfill_NoDup; [done|].
  by destruct (page_slice_facts db fid limit up page) as (_ & ? & _).
Qed.

Lemma ceil_div_least (a b : Z) :
  0 < b → (ceil_div a b - 1) * b < a ≤ ceil_div a b * b.
Proof.
  clear. intros Hb. destruct b as [|b|b]; try lia.
  unfold ceil_div, Qceiling, Qfloor, Qdiv, Qmult, Qinv, Qopp. simpl.
  rewrite Z.mul_1_r. Z.div_mod_to_equations. nia.
Qed.


(** X17. A page is in descending order of match score: the scored matches
    first, in the order of their scores, then the backfill with score 0. *)
Theorem page_is_sorted_by_score db fid page limit r :
  getMatchingUsers toLowerCase shuffle db fid page limit = Ok r →
  StronglySorted (λ a b, match_score b <= match_score a)%Q (matches r).
Proof.
  intros (Hfid & up & Hup & _ & Hm)%getMatchingUsers_Ok.
  cbv zeta in Hm. rewrite Hm. clear Hm.
  case_bool_decide; [constructor|].
  destruct (page_slice_facts db fid limit up page) as (? & _ & ?).
  by apply matched_users_sorted, backfill_sorted.
Qed.

(** X19. A user who has been swiped on is not suggested again: after a
    recorded swipe of u on t, like or reject, no page of u holds t. *)
Theorem swiped_user_is_not_suggested_again db now u t a s db' page limit r :
  (∀ l, shuffle l ≡ₚ l) →
  recordSwipe db now u t a = Ok (s, db') →
  getMatchingUsers toLowerCase shuffle db' u page limit = Ok r →
  t ∉ m_fid <$> matches r.
Proof.
  intros Hperm Hs Hr (m & -> & Hm)%list_elem_of_fmap.
  destruct (page_entries _ _ _ _ _ _ Hperm Hr Hm) as (p & Hp & Hf & _).
  destruct (elem_of_allPersonas _ _ _ Hp) as [_ Hsw]. apply Hsw.
  destruct (recordSwipe_Ok _ _ _ _ _ _ _ Hs) as (_ & _ & _ & _ & _ & _ & E & _).
  rewrite Hf. apply elem_of_getSwipedUserFids. rewrite E, lookup_insert_eq.
  by eexists.
Qed.

End RankerPages.

(** C9. The claim fails on the stores the schema admits: no store on which
    the foreign key of the personas on the users holds has a candidate
    whose user-record lookup returns [null], nor a page 1 with fewer
    candidates than the page size while the total reaches the page size. *)
Lemma no_short_first_page_under_the_foreign_key :
  ¬ ∃ toLowerCase shuffle db fid limit r,
      (∀ l, shuffle l ≡ₚ l)
      ∧ DbService.fk_personas_fid db
      ∧ MatchingService.getMatchingUsers toLowerCase shuffle db fid 1 limit
          = Ok r
      ∧ (Exists (λ p, DbService.getUserByFid db (DbService.farcaster_fid p)
                        = None)
           (MatchingService.allPersonas db fid)
         ∨ (Z.of_nat (length (MatchingService.matches r)) < limit
            ∧ limit ≤ MatchingService.total (MatchingService.pagination r))).
Proof.
  intros (toLowerCase & shuffle & db & fid & limit & r
          & Hshuffle & Hfk & Hr & [Hnull|[Hshort Htotal]]).
  - apply Exists_exists in Hnull as (p & Hp & Hnone).
    pose proof (candidates_have_user_records db fid Hfk) as Hall.
    rewrite Forall_forall in Hall. destruct (Hall p Hp) as [u Hu].
    congruence.
  - destruct (Z.le_gt_cases 0 limit) as [Hlimit|Hneg]; [|lia].
    pose proof (first_page_size toLowerCase shuffle db fid limit r Hshuffle
                  Hfk Hlimit Hr).
    lia.
Qed.

(** The amended C9 on the store of 3 scored and 50 unscored candidates,
    each with a user record: page 1 of size 10 is full. *)
Lemma first_page_is_full_under_the_foreign_key_witness :
  ∃ r,
    MatchingService.getMatchingUsers ascii_toLowerCase reverse ranking_db
      1 1 10 = Ok r
    ∧ length (MatchingService.matches r) = 10%nat.
Proof.
  destruct (MatchingService.getMatchingUsers ascii_toLowerCase reverse
              ranking_db 1 1 10) as [r|] eqn:H;
    [|vm_compute in H; discriminate].
  exists r. split; [done|].
  destruct (first_page_is_full_under_the_foreign_key ascii_toLowerCase
              reverse ranking_db 1 10 r) as [_ Hlen].
  - apply reverse_Permutation.
  - apply fk_personas_fid_dom, (bool_decide_unpack _). vm_compute. exact I.
  - lia.
  - done.
  - assert (MatchingService.total (MatchingService.pagination r) = 53)
      as Htotal by (vm_compute in H; by injection H as <-).
    rewrite Htotal in Hlen. lia.
Defined.

(** X13 on the store of user 1 and three candidates, the shuffle being
    list reversal. *)
Lemma suggested_users_are_unswiped_candidates_witness :
  ∃ r,
    MatchingService.getMatchingUsers ascii_toLowerCase reverse candidates_db
      1 1 10 = Ok r
    ∧ Forall
        (λ u, MatchingService.m_fid u ≠ 1
              ∧ (MatchingService.m_fid u
                   ∉ DbService.getSwipedUserFids candidates_db 1)
              ∧ is_Some (DbService.personas candidates_db
                           !! MatchingService.m_fid u)
              ∧ DbService.getUserByFid candidates_db (MatchingService.m_fid u)
                = Some (MatchingService.m_user u))
        (MatchingService.matches r).
Proof.
  destruct (MatchingService.getMatchingUsers ascii_toLowerCase reverse
              candidates_db 1 1 10) as [r|] eqn:H; [|vm_compute in H; discriminate].
  exists r. split; [done|].
  apply (suggested_users_are_unswiped_candidates ascii_toLowerCase reverse
           candidates_db 1 1 10 r); [apply reverse_Permutation|done].
Defined.

(** X14 on the same store, with page size 2. *)
Lemma page_has_at_most_limit_entries_witness :
  ∃ r,
    MatchingService.getMatchingUsers ascii_toLowerCase reverse candidates_db
      1 1 2 = Ok r
    ∧ Z.of_nat (length (MatchingService.matches r)) ≤ 2.
Proof.
  destruct (MatchingService.getMatchingUsers ascii_toLowerCase reverse
              candidates_db 1 1 2) as [r|] eqn:H; [|vm_compute in H; discriminate].
  exists r. split; [done|].
  apply (page_has_at_most_limit_entries ascii_toLowerCase reverse
           candidates_db 1 1 2 r); [lia|done].
Defined.

(** X15 on the store of 3 scored and 50 unscored candidates. *)
Lemma page_has_no_duplicate_users_witness :
  ∃ r,
    MatchingService.getMatchingUsers ascii_toLowerCase reverse ranking_db
      1 1 10 = Ok r
    ∧ NoDup (MatchingService.m_fid <$> MatchingService.matches r).
Proof.
  destruct (MatchingService.getMatchingUsers ascii_toLowerCase reverse
              ranking_db 1 1 10) as [r|] eqn:H;
    [|vm_compute in H; discriminate].
  exists r. split; [done|].
  apply (page_has_no_duplicate_users ascii_toLowerCase reverse
           ranking_db 1 1 10 r); [apply reverse_Permutation|done].
Defined.


(** X17 on the same store, first page. *)
Lemma page_is_sorted_by_score_witness :
  ∃ r,
    MatchingService.getMatchingUsers ascii_toLowerCase reverse ranking_db
      1 1 10 = Ok r
    ∧ StronglySorted
        (λ a b, MatchingService.match_score b
                <= MatchingService.match_score a)%Q
        (MatchingService.matches r).
Proof.
  destruct (MatchingService.getMatchingUsers ascii_toLowerCase reverse
              ranking_db 1 1 10) as [r|] eqn:H;
    [|vm_compute in H; discriminate].
  exists r. split; [done|].
  by apply (page_is_sorted_by_score ascii_toLowerCase reverse
              ranking_db 1 1 10 r).
Defined.

(** X19 on the store of user 1 and three candidates: user 1 rejects
    candidate 3. *)
Lemma swiped_user_is_not_suggested_again_witness :
  ∃ s db' r,
    DbService.recordSwipe candidates_db 100 1 3 "reject" = Ok (s, db')
    ∧ MatchingService.getMatchingUsers ascii_toLowerCase reverse db' 1 1 10
      = Ok r
    ∧ (3 ∉ MatchingService.m_fid <$> MatchingService.matches r).
Proof.
  destruct (DbService.recordSwipe candidates_db 100 1 3 "reject")
    as [[s db']|] eqn:Hs; [|vm_compute in Hs; discriminate].
  destruct (MatchingService.getMatchingUsers ascii_toLowerCase reverse
              db' 1 1 10) as [r|] eqn:H.
  - exists s, db', r. split_and!; [done..|].
    apply (swiped_user_is_not_suggested_again ascii_toLowerCase reverse
             candidates_db 100 1 3 "reject" s db' 1 10 r);
      [apply reverse_Permutation|done..].
  - vm_compute in Hs. injection Hs as <- <-. vm_compute in H. discriminate.
Defined.

(** ** Feed aggregator: order, batches and pages *)

Section FeedPages.
Import FeedService.

Variable neynar_feed : list Z → option Z → FetchOutcome.
Variable Date_getTime : string → option Z.
Variable encodeCursor : Offset → Z → string.
Variable decodeCursor : string → option Offset.
Variable String_toNumber : string → JsNumber.

Local Abbreviation feed := (getConnectedUsersFeed neynar_feed Date_getTime
                              encodeCursor decodeCursor String_toNumber).
Local Abbreviation time := (parseCastTimestamp Date_getTime).

Lemma js_sort_descending_Z {A} (key : A → Z) (l : list A) :
  StronglySorted (λ a b, key b ≤ key a)
    (js_sort (λ a b, inject_Z (key b - key a)) l).
Proof.
  assert (Hle : ∀ z, Qle_bool (inject_Z z) 0 = true ↔ z ≤ 0).
  { intros z. by rewrite Qle_bool_iff, (Zle_Qle z 0). }
  induction l as [|x l IH]; simpl; [constructor|].
  revert IH. generalize (js_sort (λ a b, inject_Z (key b - key a)) l) as s.
  induction s as [|y s IHs]; intros Hs; simpl.
  - repeat constructor.
  - apply StronglySorted_inv in Hs as [Hs Hy].
    destruct (Qle_bool (inject_Z (key y - key x)) 0) eqn:Hc.
    + apply Hle in Hc. constructor; [by constructor|].
      constructor; [lia|].
      eapply Forall_impl; [exact Hy|]. intros z Hz. simpl in *. lia.
    + assert (Hxy : key x ≤ key y).
      { destruct (Z.le_gt_cases (key x) (key y)); [done|].
        assert (Qle_bool (inject_Z (key y - key x)) 0 = true); [|congruence].
        apply Hle. lia. }
      constructor; [by apply IHs|].
      rewrite js_sort_insert_Permutation. by constructor.
Qed.

Lemma StronglySorted_fmap_key {A} (key : A → Z) (f : A → A) (l : list A) :
  (∀ x, key (f x) = key x) →
  StronglySorted (λ a b, key b ≤ key a) l →
  StronglySorted (λ a b, key b ≤ key a) (f <$> l).
Proof.
  intros Hf. induction 1 as [|x l _ IH Hx]; [constructor|].
  rewrite fmap_cons. constructor; [done|].
  apply Forall_fmap. eapply Forall_impl; [exact Hx|].
  intros y Hy. simpl. by rewrite !Hf.
Qed.

Lemma dedup_sublist seen l : dedup seen l `sublist_of` l.
Proof.
  revert seen. induction l as [|c l IH]; intros seen; simpl; [done|].
  destruct (castKey c) as [h|]; [|by apply sublist_cons].
  destruct (String.eqb h ""); [by apply sublist_cons|].
  case_bool_decide; [by apply sublist_cons|]. by apply sublist_skip.
Qed.

Lemma processCasts_newest_first matchedFids fetched :
  StronglySorted (λ a b, time b ≤ time a)
    (processCasts Date_getTime matchedFids fetched).
Proof.
  unfold processCasts. apply StronglySorted_fmap_key; [done|].
  eapply StronglySorted_sublist; [apply dedup_sublist|].
  apply (js_sort_descending_Z time).
Qed.

(** The result of a request that does not fail, for a user with matches. *)
Lemma feed_Ok db now userFid limit cursor r :
  feed db now userFid limit cursor = Ok r →
  DbService.getUserMatches db userFid ≠ [] →
  ∃ fetched calls start stop,
    fetchAllCasts neynar_feed userFid (DbService.getUserMatches db userFid)
      = Ok (fetched, calls)
    ∧ let all :=
        processCasts Date_getTime (DbService.getUserMatches db userFid)
          fetched in
      casts r = js_slice all start stop
      ∧ totalCastsAvailable (pagination r) = Some (Z.of_nat (length all))
      ∧ apiCallsMade (metadata r) = calls
      ∧ batchesUsed (metadata r)
        = Some (if MAX_FIDS_PER_CALL
                   <? Z.of_nat (length (DbService.getUserMatches db userFid))
                then ceil_div
                       (Z.of_nat (length (DbService.getUserMatches db userFid)))
                       MAX_FIDS_PER_CALL
                else 1).
Proof.
  intros Hr Hm. unfold getConnectedUsersFeed in Hr.
  rewrite bool_decide_eq_false_2 in Hr by done.
  destruct (fetchAllCasts _ _ _) as [[fetched calls]|]; [|done].
  destruct (endIndexOf _ _) as [endIndex|]; [|done].
  injection Hr as <-. by eexists fetched, calls, _, _.
Qed.

(** X20. The casts of a feed are in order of time, newest first, casts
    without a readable time (time 0) last. *)
Theorem feed_is_newest_first db now userFid limit cursor r :
  feed db now userFid limit cursor = Ok r →
  StronglySorted
    (λ a b, parseCastTimestamp Date_getTime b
            ≤ parseCastTimestamp Date_getTime a)
    (casts r).
Proof.
  intros Hr.
  destruct (decide (DbService.getUserMatches db userFid = [])) as [Hm|Hm].
  - unfold getConnectedUsersFeed in Hr.
    rewrite bool_decide_eq_true_2 in Hr by done. injection Hr as <-.
    constructor.
  - destruct (feed_Ok _ _ _ _ _ _ Hr Hm)
      as (fetched & calls & start & stop & _ & -> & _).
    eapply StronglySorted_sublist; [apply js_slice_sublist|].
    apply processCasts_newest_first.
Qed.

(** X21. Every cast of a feed has a key, its hash or else its thread hash,
    and no two casts of a page have the same key. *)
Theorem feed_page_has_distinct_keys db now userFid limit cursor r :
  feed db now userFid limit cursor = Ok r →
  NoDup (castKey <$> casts r)
  ∧ Forall (λ cast, ∃ h, castKey cast = Some h ∧ h ≠ "") (casts r).
Proof.
  intros Hr.
  destruct (decide (DbService.getUserMatches db userFid = [])) as [Hm|Hm].
  - unfold getConnectedUsersFeed in Hr.
    rewrite bool_decide_eq_true_2 in Hr by done. injection Hr as <-.
    split; constructor.
  - destruct (feed_Ok _ _ _ _ _ _ Hr Hm)
      as (fetched & calls & start & stop & _ & -> & _).
    split.
    + eapply sublist_NoDup;
        [apply (processCasts_NoDup Date_getTime)|].
      apply fmap_sublist, js_slice_sublist.
    + apply Forall_forall. intros c Hc%js_slice_subseteq.
      by apply (processCasts_keys Date_getTime _ _ _ Hc).
Qed.

(** X22. A user without matches gets the empty feed, with no call made,
    whatever the feed endpoint would answer and whatever the cursor. *)
Theorem feed_of_user_without_matches db now userFid limit cursor :
  (∀ x, ¬ (DbService.hasLiked db userFid x ∧ DbService.hasLiked db x userFid)) →
  feed db now userFid limit cursor
  = Ok (mkFeed [] (mkFeedPagination false None 0 None None)
          (mkFeedMetadata 0 0 None None)).
Proof.
  intros Hnone. unfold getConnectedUsersFeed.
  rewrite bool_decide_eq_true_2; [done|].
  destruct (DbService.getUserMatches db userFid) as [|x l] eqn:E; [done|].
  destruct (Hnone x). apply elem_of_getUserMatches. rewrite E. left.
Qed.

Lemma ceil_div_100 (n : Z) : ceil_div n MAX_FIDS_PER_CALL = (n + 99) / 100.
Proof.
  clear. unfold ceil_div, MAX_FIDS_PER_CALL, Qceiling, Qfloor. simpl.
  rewrite Z.mul_1_r. Z.div_mod_to_equations. lia.
Qed.

Lemma batches_from_spec (fuel k : nat) (l : list Z) :
  (length (drop (100 * k) l) ≤ fuel)%nat →
  let batches := batches_from fuel (Z.of_nat (100 * k)) l in
  concat batches = drop (100 * k) l
  ∧ Forall (λ b, (0 < length b ≤ 100)%nat) batches
  ∧ Z.of_nat (length batches)
    = (Z.of_nat (length (drop (100 * k) l)) + 99) / 100.
Proof.
  clear. revert k. induction fuel as [|fuel IH]; intros k Hfuel; cbv zeta.
  - destruct (drop (100 * k) l); [done|simpl in Hfuel; lia].
  - cbn [batches_from]. rewrite length_drop in Hfuel.
    destruct (Z.ltb_spec (Z.of_nat (100 * k)) (Z.of_nat (length l)))
      as [Hlt|Hge]; cycle 1.
    { rewrite drop_ge by lia. done. }
    unfold MAX_FIDS_PER_CALL.
    rewrite js_slice_chunk, Nat2Z.id by lia.
    change (Z.to_nat 100) with 100%nat.
    replace (Z.of_nat (100 * k) + 100) with (Z.of_nat (100 * S k)) by lia.
    destruct (IH (S k)) as (Hc & Hb & Hn); [rewrite length_drop; lia|].
    replace (100 * S k)%nat with (100 * k + 100)%nat in Hc, Hb, Hn |- * by lia.
    rewrite <- drop_drop in Hc, Hn.
    split_and!.
    + cbn [concat]. by rewrite Hc, take_drop.
    + constructor; [|done]. rewrite length_take, length_drop. lia.
    + cbn [length]. rewrite Nat2Z.inj_succ, Hn, !length_drop.
      Z.div_mod_to_equations. lia.
Qed.

Lemma matched_fids_batches userFid matchedFids :
  MAX_FIDS_PER_CALL < Z.of_nat (length matchedFids) →
  ∃ batches,
    concat batches = matchedFids
    ∧ Forall (λ b, (0 < length b ≤ 100)%nat) batches
    ∧ Z.of_nat (length batches)
      = ceil_div (Z.of_nat (length matchedFids)) MAX_FIDS_PER_CALL
    ∧ fetchAllCasts neynar_feed userFid matchedFids
      = Ok (concat
              ((λ batch,
                  match neynar_feed batch
                          (if userFid =? 0 then None else Some userFid) with
                  | Json casts => or_empty casts
                  | Rejected _ => []
                  end) <$> batches),
            Z.of_nat (length batches)).
Proof.
  intros Hlen.
  destruct (batches_from_spec (length matchedFids) 0 matchedFids)
    as (Hc & Hb & Hn); [rewrite length_drop; lia|].
  change (Z.of_nat (100 * 0)) with 0 in Hc, Hb, Hn.
  change (drop (100 * 0) matchedFids) with matchedFids in Hc, Hn.
  exists (batches_from (length matchedFids) 0 matchedFids).
  split_and!; [done..|by rewrite ceil_div_100|].
  unfold fetchAllCasts. rewrite (proj2 (Z.ltb_lt _ _) Hlen). cbv zeta.
  do 3 f_equal. apply Forall_fmap_ext_1.
  eapply Forall_impl; [exact Hb|]. intros batch [Hpos Hmax]. simpl.
  unfold fetchCastsFromFids.
  rewrite bool_decide_eq_false_2 by (intros ->; simpl in Hpos; lia).
  rewrite js_slice_take by done. unfold MAX_FIDS_PER_CALL.
  rewrite take_ge by (change (Z.to_nat 100) with 100%nat; lia).
  by destruct (neynar_feed batch _).
Qed.

(** X23. With more than 100 matched users the fids are cut into
    consecutive batches of at most 100, none empty, as many as the number
    of fids divided by 100 and rounded up; the endpoint is asked once for
    each batch, with exactly the fids of the batch, and a batch whose
    request fails contributes no cast while the others are kept. *)
Theorem matched_users_are_fetched_in_batches userFid matchedFids :
  MAX_FIDS_PER_CALL < Z.of_nat (length matchedFids) →
  ∃ batches,
    concat batches = matchedFids
    ∧ Forall (λ b, (0 < length b ≤ 100)%nat) batches
    ∧ Z.of_nat (length batches)
      = ceil_div (Z.of_nat (length matchedFids)) MAX_FIDS_PER_CALL
    ∧ fetchAllCasts neynar_feed userFid matchedFids
      = Ok (concat
              ((λ batch,
                  match neynar_feed batch
                          (if userFid =? 0 then None else Some userFid) with
                  | Json casts => or_empty casts
                  | Rejected _ => []
                  end) <$> batches),
            Z.of_nat (length batches)).
Proof. apply matched_fids_batches. Qed.

(** X24. The number of API calls a feed reports is the number of batches
    it reports, and both are the number of matched users divided by 100
    and rounded up. *)
Theorem api_calls_equal_batches db now userFid limit cursor r :
  feed db now userFid limit cursor = Ok r →
  DbService.getUserMatches db userFid ≠ [] →
  batchesUsed (metadata r) = Some (apiCallsMade (metadata r))
  ∧ apiCallsMade (metadata r)
    = ceil_div (Z.of_nat (length (DbService.getUserMatches db userFid)))
        MAX_FIDS_PER_CALL.
Proof.
  intros Hr Hm.
  destruct (feed_Ok _ _ _ _ _ _ Hr Hm)
    as (fetched & calls & start & stop & Hf & _ & _ & -> & ->).
  set (matched := DbService.getUserMatches db userFid) in *.
  destruct (Z.ltb_spec MAX_FIDS_PER_CALL (Z.of_nat (length matched)))
    as [Hlt|Hle].
  - destruct (matched_fids_batches userFid matched Hlt)
      as (batches & _ & _ & Hn & Hf').
    rewrite Hf in Hf'. injection Hf' as _ ->. by rewrite Hn.
  - unfold fetchAllCasts in Hf. rewrite (proj2 (Z.ltb_ge _ _) Hle) in Hf.
    destruct (fetchCastsFromFids _ _ _); [|done]. injection Hf as _ <-.
    assert (1 = ceil_div (Z.of_nat (length matched)) MAX_FIDS_PER_CALL);
      [|by split; [f_equal|]].
    rewrite ceil_div_100. unfold MAX_FIDS_PER_CALL in Hle.
    assert (0 < Z.of_nat (length matched))
      by (destruct matched; [done|simpl; lia]).
    Z.div_mod_to_equations. lia.
Qed.

(** X25. For a cursor whose offset is a non-negative integer, as the
    cursors are that the service hands out, and for an absent cursor: a
    page starts at the offset and holds the next [limit] casts of the
    processed list; while casts remain after it the feed says so and hands
    out a cursor for the offset where the page ended, and otherwise the
    page holds all the remaining casts and no cursor is handed out. *)
Theorem feed_page_continues_at_cursor db now userFid limit cursor r
    (start : Z) :
  feed db now userFid limit cursor = Ok r →
  DbService.getUserMatches db userFid ≠ [] →
  startIndexOf decodeCursor cursor = NumberOffset start →
  0 ≤ start →
  0 ≤ limit →
  ∃ fetched calls,
    fetchAllCasts neynar_feed userFid (DbService.getUserMatches db userFid)
      = Ok (fetched, calls)
    ∧ let all :=
        processCasts Date_getTime (DbService.getUserMatches db userFid)
          fetched in
      casts r = take (Z.to_nat limit) (drop (Z.to_nat start) all)
      ∧ (start + limit < Z.of_nat (length all) →
         hasMore (pagination r) = true
         ∧ nextCursor (pagination r)
           = Some (encodeCursor (NumberOffset (start + limit)) now))
      ∧ (Z.of_nat (length all) ≤ start + limit →
         hasMore (pagination r) = false
         ∧ nextCursor (pagination r) = None
         ∧ casts r = drop (Z.to_nat start) all).
Proof.
  intros Hr Hm Hcursor Hstart Hlimit.
  rewrite (feed_integer_offset _ _ _ _ _ _ _ _ _ _ _ Hcursor) in Hr.
  cbv zeta in Hr. rewrite bool_decide_eq_false_2 in Hr by done.
  destruct (fetchAllCasts _ _ _) as [[fetched calls]|]; [|done].
  injection Hr as <-. exists fetched, calls. split; [done|].
  cbn [casts pagination hasMore nextCursor].
  rewrite js_slice_chunk by done. split_and!; [done| |].
  - intros Hlt. by rewrite bool_decide_eq_true_2.
  - intros Hge. rewrite bool_decide_eq_false_2 by lia.
    split_and!; [done..|]. apply take_ge. rewrite length_drop. lia.
Qed.

End FeedPages.

(** X20 on a feed endpoint that returns three casts, one of them by the
    matched user. *)
Lemma feed_is_newest_first_witness :
  ∃ r,
    FeedService.getConnectedUsersFeed long_feed iso_getTime
      json_encodeCursor json_decodeCursor digits_toNumber mutual_db 0 1 25 None = Ok r
    ∧ StronglySorted
        (λ a b, FeedService.parseCastTimestamp iso_getTime b
                ≤ FeedService.parseCastTimestamp iso_getTime a)
        (FeedService.casts r).
Proof.
  destruct (FeedService.getConnectedUsersFeed long_feed iso_getTime
              json_encodeCursor json_decodeCursor digits_toNumber mutual_db 0 1 25 None)
    as [r|] eqn:H; [|vm_compute in H; discriminate].
  exists r. split; [done|].
  by apply (feed_is_newest_first long_feed iso_getTime
              json_encodeCursor json_decodeCursor digits_toNumber mutual_db 0 1 25 None r).
Defined.

(** X21 on a feed of 25 casts of the matched user. *)
Lemma feed_page_has_distinct_keys_witness :
  ∃ r,
    FeedService.getConnectedUsersFeed long_feed iso_getTime
      json_encodeCursor json_decodeCursor digits_toNumber mutual_db 0 1 25 None = Ok r
    ∧ NoDup (FeedService.castKey <$> FeedService.casts r).
Proof.
  destruct (FeedService.getConnectedUsersFeed long_feed iso_getTime
              json_encodeCursor json_decodeCursor digits_toNumber mutual_db 0 1 25 None)
    as [r|] eqn:H; [|vm_compute in H; discriminate].
  exists r. split; [done|].
  by destruct (feed_page_has_distinct_keys long_feed iso_getTime
                 json_encodeCursor json_decodeCursor digits_toNumber mutual_db 0 1 25 None r H).
Defined.

(** X22 on the empty store. *)
Lemma feed_of_user_without_matches_witness :
  FeedService.getConnectedUsersFeed failing_feed iso_getTime
    json_encodeCursor json_decodeCursor digits_toNumber empty_db 0 1 25 None
  = Ok (FeedService.mkFeed []
          (FeedService.mkFeedPagination false None 0 None None)
          (FeedService.mkFeedMetadata 0 0 None None)).
Proof.
  apply feed_of_user_without_matches.
  intros x [(c & Hc & _) _]. simpl in Hc. by rewrite lookup_empty in Hc.
Defined.

(** X23 on 150 matched users: two batches, of 100 and of 50 fids. *)
Lemma matched_users_are_fetched_in_batches_witness :
  ∃ batches,
    concat batches = Z.of_nat <$> seq 1 150
    ∧ Forall (λ b, (0 < length b ≤ 100)%nat) batches
    ∧ Z.of_nat (length batches)
      = ceil_div (Z.of_nat (length (Z.of_nat <$> seq 1 150)))
          FeedService.MAX_FIDS_PER_CALL
    ∧ FeedService.fetchAllCasts failing_feed 1 (Z.of_nat <$> seq 1 150)
      = Ok (concat
              ((λ batch,
                  match failing_feed batch (if 1 =? 0 then None else Some 1)
                  with
                  | FeedService.Json casts => or_empty casts
                  | FeedService.Rejected _ => []
                  end) <$> batches),
            Z.of_nat (length batches)).
Proof.
  apply (matched_users_are_fetched_in_batches failing_feed 1
           (Z.of_nat <$> seq 1 150)).
  vm_compute. reflexivity.
Defined.

(** X24 on the store where users 1 and 2 like each other. *)
Lemma api_calls_equal_batches_witness :
  ∃ r,
    FeedService.getConnectedUsersFeed leaky_feed iso_getTime
      json_encodeCursor json_decodeCursor digits_toNumber mutual_db 0 1 25 None = Ok r
    ∧ FeedService.batchesUsed (FeedService.metadata r)
      = Some (FeedService.apiCallsMade (FeedService.metadata r))
    ∧ FeedService.apiCallsMade (FeedService.metadata r)
      = ceil_div (Z.of_nat (length (DbService.getUserMatches mutual_db 1)))
          FeedService.MAX_FIDS_PER_CALL.
Proof.
  destruct (FeedService.getConnectedUsersFeed leaky_feed iso_getTime
              json_encodeCursor json_decodeCursor digits_toNumber mutual_db 0 1 25 None)
    as [r|] eqn:H; [|vm_compute in H; discriminate].
  exists r. split; [done|].
  apply (api_calls_equal_batches leaky_feed iso_getTime
           json_encodeCursor json_decodeCursor digits_toNumber mutual_db 0 1 25 None r H).
  vm_compute. discriminate.
Defined.

(** X25 on a feed of 25 casts, first page of 10. *)
Lemma feed_page_continues_at_cursor_witness :
  ∃ r,
    FeedService.getConnectedUsersFeed long_feed iso_getTime
      json_encodeCursor json_decodeCursor digits_toNumber mutual_db
      1700000000000 1 10 None = Ok r
    ∧ FeedService.hasMore (FeedService.pagination r) = true
    ∧ FeedService.nextCursor (FeedService.pagination r)
      = Some (json_encodeCursor (FeedService.NumberOffset 10) 1700000000000).
Proof.
  destruct (FeedService.getConnectedUsersFeed long_feed iso_getTime
              json_encodeCursor json_decodeCursor digits_toNumber mutual_db
              1700000000000 1 10 None) as [r|] eqn:H;
    [|vm_compute in H; discriminate].
  exists r. split; [done|].
  destruct (feed_page_continues_at_cursor long_feed iso_getTime
              json_encodeCursor json_decodeCursor digits_toNumber mutual_db
              1700000000000 1 10 None r 0 H)
    as (fetched & calls & Hf & _ & Hmore & _);
    [vm_compute; discriminate|done|lia|lia|].
  apply Hmore. vm_compute in Hf. injection Hf as <- _.
  vm_compute. reflexivity.
Defined.

(** ** Points: balance and event log *)

Section PointsLedger.

Import OrchidDbService.

Variable EvidenceData : Type.
Variable JSON_stringify : Z → EvidenceData → string → string.
Variable unique_violation : string.

Local Abbreviation deduct :=
  (deductPoints EvidenceData JSON_stringify unique_violation).
Local Abbreviation add :=
  (addPoints EvidenceData JSON_stringify unique_violation).
Local Abbreviation used ruleKey sourceId :=
  (existsb (λ e, String.eqb (rule_key e) ruleKey
                 && String.eqb (source_id e) sourceId)).

Lemma record_points_Ok db fid pid cur pts d rk sid ev t r db' :
  record_points EvidenceData JSON_stringify unique_violation db fid pid cur
    pts d rk sid ev t = Ok (r, db') →
  used rk sid (point_events db) = false
  ∧ r = mkPointsResult pid cur pts (cur + d) (point_events_rowid db + 1)
  ∧ profiles db' = profiles db
  ∧ scores db'
    = <[pid := default 0 (scores db !! pid) + d]> (scores db)
  ∧ ∃ e, point_events db' = point_events db ++ [e]
         ∧ profile_id e = pid ∧ delta e = d
         ∧ rule_key e = rk ∧ source_id e = sid.
Proof.
  unfold record_points, insert_point_event.
  destruct (existsb _ _); [done|]. intros [= <- <-]. simpl.
  split_and!; [done..| |by eexists].
  f_equal. by destruct (scores db !! pid).
Qed.

(** What a successful [deductPoints] or [addPoints] went through. *)
Lemma deductPoints_Ok db fid pts rk sid ev t r db' :
  deduct (Some db) fid pts rk sid ev t = Ok (r, db') →
  ∃ pid,
    0 < pts ∧ profiles db !! fid = Some pid ∧ pid ≠ 0
    ∧ getCurrentPoints (Some db) fid = Ok (default 0 (scores db !! pid))
    ∧ pts ≤ default 0 (scores db !! pid)
    ∧ record_points EvidenceData JSON_stringify unique_violation db fid pid
        (default 0 (scores db !! pid)) pts (- pts) rk sid ev t
      = Ok (r, db').
Proof.
  unfold deductPoints, getCurrentPoints, getProfileIdByFid.
  destruct (Z.leb_spec pts 0); [done|].
  destruct (profiles db !! fid) as [pid|]; [|done]. simpl.
  destruct (Z.eqb_spec pid 0); [done|].
  destruct (Z.ltb_spec (default 0 (scores db !! pid)) pts); [done|].
  intros Hr. by exists pid.
Qed.

Lemma addPoints_Ok db fid pts rk sid ev t r db' :
  add (Some db) fid pts rk sid ev t = Ok (r, db') →
  ∃ pid,
    0 < pts ∧ profiles db !! fid = Some pid ∧ pid ≠ 0
    ∧ getCurrentPoints (Some db) fid = Ok (default 0 (scores db !! pid))
    ∧ record_points EvidenceData JSON_stringify unique_violation db fid pid
        (default 0 (scores db !! pid)) pts pts rk sid ev t
      = Ok (r, db').
Proof.
  unfold addPoints, getCurrentPoints, getProfileIdByFid.
  destruct (Z.leb_spec pts 0); [done|].
  destruct (profiles db !! fid) as [pid|]; [|done]. simpl.
  destruct (Z.eqb_spec pid 0); [done|].
  intros Hr. by exists pid.
Qed.

Lemma getCurrentPoints_after db db' pid d :
  profiles db' = profiles db →
  scores db' = <[pid := default 0 (scores db !! pid) + d]> (scores db) →
  ∀ fid,
    getCurrentPoints (Some db') fid
    = if bool_decide (profiles db !! fid = Some pid ∧ pid ≠ 0)
      then Ok (default 0 (scores db !! pid) + d)
      else getCurrentPoints (Some db) fid.
Proof.
  intros Hp Hs fid. unfold getCurrentPoints, getProfileIdByFid.
  rewrite Hp, Hs. destruct (profiles db !! fid) as [p|] eqn:Hfid.
  - destruct (Z.eqb_spec p 0) as [->|Hp0].
    + by rewrite bool_decide_eq_false_2 by (intros [[= <-] ?]; done).
    + case_bool_decide as Hd.
      * destruct Hd as [[= ->] _]. by rewrite lookup_insert_eq.
      * rewrite lookup_insert_ne; [done|]. intros ->. by apply Hd.
  - by rewrite bool_decide_eq_false_2 by (by intros [? ?]).
Qed.

Lemma events_total_app db db' e :
  point_events db' = point_events db ++ [e] →
  ∀ p, events_total db' p
       = events_total db p + (if bool_decide (profile_id e = p)
                              then delta e else 0).
Proof.
  intros He p. unfold events_total. rewrite He, filter_app, fmap_app, foldr_app.
  rewrite filter_cons, filter_nil.
  assert (∀ l a, foldr Z.add a l = foldr Z.add 0 l + a) as Hfold.
  { induction l as [|x l IH]; intros a; simpl; [done|]. rewrite IH. lia. }
  rewrite Hfold. f_equal. case_bool_decide; case_decide; simpl; try done; lia.
Qed.

Lemma record_points_ledger db fid pid cur pts d rk sid ev t r db' :
  ledger_consistent db →
  record_points EvidenceData JSON_stringify unique_violation db fid pid cur
    pts d rk sid ev t = Ok (r, db') →
  ledger_consistent db'.
Proof.
  intros Hl Hr p.
  destruct (record_points_Ok _ _ _ _ _ _ _ _ _ _ _ _ Hr)
    as (_ & _ & _ & Hs & e & He & Hpid & Hd & _).
  rewrite (events_total_app _ _ _ He), Hs, Hpid, Hd, <- Hl.
  case_bool_decide as Hp.
  - subst p. by rewrite lookup_insert_eq.
  - rewrite lookup_insert_ne by done. lia.
Qed.

Lemma used_source_is_refused db rk sid :
  used rk sid (point_events db) = true →
  ∀ fid pts ev t,
    ¬ is_Ok (add (Some db) fid pts rk sid ev t)
    ∧ ¬ is_Ok (deduct (Some db) fid pts rk sid ev t).
Proof.
  intros Hu fid pts ev t. split; intros Hok.
  - destruct (add _ _ _ _ _ _ _) as [[r db']|] eqn:Hr; [|done].
    destruct (addPoints_Ok _ _ _ _ _ _ _ _ _ Hr) as (? & _ & _ & _ & _ & Hrec).
    apply record_points_Ok in Hrec as (Hf & _). congruence.
  - destruct (deduct _ _ _ _ _ _ _) as [[r db']|] eqn:Hr; [|done].
    destruct (deductPoints_Ok _ _ _ _ _ _ _ _ _ Hr)
      as (? & _ & _ & _ & _ & _ & Hrec).
    apply record_points_Ok in Hrec as (Hf & _). congruence.
Qed.

(** X26. A deduction never overdraws: when [deductPoints] succeeds the
    amount is positive and covered by the balance read before, the balance
    reported and the balance stored afterwards are both the previous
    balance less the amount and not negative, and the balance of no other
    profile changes. *)
Theorem deductPoints_never_overdraws db fid points ruleKey sourceId ev t
    r db' :
  deductPoints EvidenceData JSON_stringify unique_violation (Some db) fid
    points ruleKey sourceId ev t = Ok (r, db') →
  0 < points
  ∧ getCurrentPoints (Some db) fid = Ok (previousPoints r)
  ∧ points ≤ previousPoints r
  ∧ newBalance r = previousPoints r - points
  ∧ 0 ≤ newBalance r
  ∧ getCurrentPoints (Some db') fid = Ok (newBalance r)
  ∧ ∀ fid', profiles db !! fid' ≠ profiles db !! fid →
            getCurrentPoints (Some db') fid'
            = getCurrentPoints (Some db) fid'.
Proof.
  intros Hr.
  destruct (deductPoints_Ok _ _ _ _ _ _ _ _ _ Hr)
    as (pid & Hpos & Hfid & Hpid & Hcur & Hle & Hrec).
  destruct (record_points_Ok _ _ _ _ _ _ _ _ _ _ _ _ Hrec)
    as (_ & -> & Hp & Hs & _). cbn [previousPoints newBalance].
  split_and!; [done|done|done|lia|lia| |].
  - rewrite (getCurrentPoints_after _ _ _ _ Hp Hs).
    by rewrite bool_decide_eq_true_2.
  - intros fid' Hne. rewrite (getCurrentPoints_after _ _ _ _ Hp Hs).
    rewrite bool_decide_eq_false_2; [done|]. intros [Hfid' _]. congruence.
Qed.

(** X27. A rule key and source id pay out once: after a successful
    [addPoints] or [deductPoints] every further [addPoints] and
    [deductPoints] with the same rule key and source id fails, for whatever
    user and amount. *)
Theorem points_for_a_source_are_recorded_once db fid points ruleKey sourceId
    ev t r db' :
  addPoints EvidenceData JSON_stringify unique_violation (Some db) fid points
    ruleKey sourceId ev t = Ok (r, db')
  ∨ deductPoints EvidenceData JSON_stringify unique_violation (Some db) fid
      points ruleKey sourceId ev t = Ok (r, db') →
  ∀ fid2 points2 ev2 t2,
    ¬ is_Ok (addPoints EvidenceData JSON_stringify unique_violation
               (Some db') fid2 points2 ruleKey sourceId ev2 t2)
    ∧ ¬ is_Ok (deductPoints EvidenceData JSON_stringify unique_violation
                 (Some db') fid2 points2 ruleKey sourceId ev2 t2).
Proof.
  intros Hr. apply used_source_is_refused.
  assert (∃ pid cur d,
            record_points EvidenceData JSON_stringify unique_violation db
              fid pid cur points d ruleKey sourceId ev t = Ok (r, db'))
    as (pid & cur & d & Hrec).
  { destruct Hr as [Hr|Hr].
    - destruct (addPoints_Ok _ _ _ _ _ _ _ _ _ Hr)
        as (pid & _ & _ & _ & _ & Hrec); eauto.
    - destruct (deductPoints_Ok _ _ _ _ _ _ _ _ _ Hr)
        as (pid & _ & _ & _ & _ & _ & Hrec); eauto. }
  destruct (record_points_Ok _ _ _ _ _ _ _ _ _ _ _ _ Hrec)
    as (_ & _ & _ & _ & e & -> & _ & _ & Hrk & Hsid).
  rewrite existsb_app. simpl. rewrite Hrk, Hsid, !String.eqb_refl.
  by rewrite orb_true_r.
Qed.

(** X28. The scores table follows the event log: when the total of every
    profile is the sum of the deltas of its events, it is so again after a
    successful [addPoints] or [deductPoints]. *)
Theorem points_keep_the_ledger_consistent db fid points ruleKey sourceId
    ev t r db' :
  ledger_consistent db →
  addPoints EvidenceData JSON_stringify unique_violation (Some db) fid points
    ruleKey sourceId ev t = Ok (r, db')
  ∨ deductPoints EvidenceData JSON_stringify unique_violation (Some db) fid
      points ruleKey sourceId ev t = Ok (r, db') →
  ledger_consistent db'.
Proof.
  intros Hl [Hr|Hr].
  - destruct (addPoints_Ok _ _ _ _ _ _ _ _ _ Hr)
      as (pid & _ & _ & _ & _ & Hrec).
    by eapply record_points_ledger.
  - destruct (deductPoints_Ok _ _ _ _ _ _ _ _ _ Hr)
      as (pid & _ & _ & _ & _ & _ & Hrec).
    by eapply record_points_ledger.
Qed.

End PointsLedger.

(** X26 on the example store: 100 points of the 500 of user 1. *)
Lemma deductPoints_never_overdraws_witness :
  ∃ r db',
    OrchidDbService.deductPoints unit (λ _ _ _, "{}") "SQLITE_CONSTRAINT"
      (Some orchid_db) 1 100 "connection_request_sent" "swipe_7_1_2" None
      "2025-01-02T00:00:00.000Z" = Ok (r, db')
    ∧ OrchidDbService.newBalance r = 400
    ∧ OrchidDbService.getCurrentPoints (Some db') 1 = Ok 400
    ∧ OrchidDbService.getCurrentPoints (Some db') 2 = Ok 0.
Proof.
  destruct (OrchidDbService.deductPoints unit (λ _ _ _, "{}")
              "SQLITE_CONSTRAINT" (Some orchid_db) 1 100
              "connection_request_sent" "swipe_7_1_2" None
              "2025-01-02T00:00:00.000Z")
    as [[r db']|] eqn:H; [|vm_compute in H; discriminate].
  destruct (deductPoints_never_overdraws _ _ _ _ _ _ _ _ _ _ _ _ H)
    as (_ & Hprev & _ & Hnew & _ & Hcur & Hother).
  assert (OrchidDbService.getCurrentPoints (Some orchid_db) 1 = Ok 500)
    as H500 by (vm_compute; reflexivity).
  rewrite H500 in Hprev. injection Hprev as Hp.
  exists r, db'. split_and!; [done|lia| |].
  - rewrite Hcur. f_equal. lia.
  - rewrite Hother; [done|]. vm_compute. discriminate.
Defined.

(** X27 on the example store: the reward for one accepted request, asked
    for user 1 and then for user 2. *)
Lemma points_for_a_source_are_recorded_once_witness :
  ∃ r db',
    OrchidDbService.addPoints unit (λ _ _ _, "{}") "SQLITE_CONSTRAINT"
      (Some orchid_db) 1 200 "connection_request_accepted"
      "connection_7_1_2" None "2025-01-02T00:00:00.000Z" = Ok (r, db')
    ∧ ¬ is_Ok (OrchidDbService.addPoints unit (λ _ _ _, "{}")
                 "SQLITE_CONSTRAINT" (Some db') 2 200
                 "connection_request_accepted" "connection_7_1_2" None
                 "2025-01-02T00:00:00.000Z").
Proof.
  destruct (OrchidDbService.addPoints unit (λ _ _ _, "{}")
              "SQLITE_CONSTRAINT" (Some orchid_db) 1 200
              "connection_request_accepted" "connection_7_1_2" None
              "2025-01-02T00:00:00.000Z")
    as [[r db']|] eqn:H; [|vm_compute in H; discriminate].
  exists r, db'. split; [done|].
  apply (points_for_a_source_are_recorded_once unit (λ _ _ _, "{}")
           "SQLITE_CONSTRAINT" orchid_db 1 200 "connection_request_accepted"
           "connection_7_1_2" None "2025-01-02T00:00:00.000Z" r db').
  by left.
Defined.

(** X28 on the example store, whose one event accounts for its one
    score. *)
Lemma points_keep_the_ledger_consistent_witness :
  ∃ r db',
    OrchidDbService.addPoints unit (λ _ _ _, "{}") "SQLITE_CONSTRAINT"
      (Some orchid_db) 2 200 "connection_request_accepted"
      "connection_7_1_2" None "2025-01-02T00:00:00.000Z" = Ok (r, db')
    ∧ OrchidDbService.ledger_consistent db'.
Proof.
  destruct (OrchidDbService.addPoints unit (λ _ _ _, "{}")
              "SQLITE_CONSTRAINT" (Some orchid_db) 2 200
              "connection_request_accepted" "connection_7_1_2" None
              "2025-01-02T00:00:00.000Z")
    as [[r db']|] eqn:H; [|vm_compute in H; discriminate].
  exists r, db'. split; [done|].
  apply (points_keep_the_ledger_consistent unit (λ _ _ _, "{}")
           "SQLITE_CONSTRAINT" orchid_db 2 200 "connection_request_accepted"
           "connection_7_1_2" None "2025-01-02T00:00:00.000Z" r db');
    [|by left].
  intros p. unfold OrchidDbService.events_total, orchid_db.
  cbn [OrchidDbService.scores OrchidDbService.point_events].
  destruct (decide (p = 10)) as [->|Hp]; [vm_compute; reflexivity|].
  rewrite lookup_singleton_ne by done.
  by rewrite filter_cons_False by (cbn; congruence).
Defined.

(** ** Notifications: the rate limit *)

Section NotificationLimits.

Import NotificationService.

Variable Date_now : nat → Z.
Variable Response : Type.
Variable publishFrameNotifications : list Z → Notification → Result Response.
Variable FRONTEND_URL : option string.
Variable substring : string → Z → Z → string.

Local Abbreviation send :=
  (sendNotification Date_now publishFrameNotifications FRONTEND_URL substring).

Lemma cooldown_running (now timestamp : Z) :
  now - timestamp < 30000 →
  Qle_bool (inject_Z 30) (inject_Z (now - timestamp) / 1000) = false.
Proof.
  intros Hlt. destruct (Qle_bool _ _) eqn:Hle; [|done].
  apply Qle_bool_iff in Hle. unfold Qle, Qdiv, Qmult, Qinv in Hle.
  simpl in Hle. lia.
Qed.

Lemma rate_limit_single ty rel st fid :
  ty ≠ "" →
  rate_limit Date_now (Some ty) rel ([], st) fid
  = let key := getCacheKey ty fid rel in
    if (canSendNotification Date_now key 30 st).1
    then ([fid],
          recordNotification Date_now key
            (canSendNotification Date_now key 30 st).2)
    else ([], (canSendNotification Date_now key 30 st).2).
Proof.
  intros Hty. unfold rate_limit, truthy_str.
  rewrite (proj2 (String.eqb_neq _ _) Hty). simpl.
  by destruct (canSendNotification _ _ _ _) as [[] ?].
Qed.

(** A notification that reached the API left its key in the cache. *)
Lemma sendNotification_reached_api fid title body url ty rel st r1 st1 :
  ty ≠ "" →
  send (FidArray [fid]) title body url (Some ty) rel st = (r1, st1) →
  published st1 ≠ published st →
  ∃ k,
    (readings st ≤ k)%nat ∧ readings st1 = S (S k)
    ∧ (¬ Date_now k < Date_now (S k) - 60 * 60 * 1000 →
       notificationCache st1 !! getCacheKey ty fid rel = Some (Date_now k)).
Proof.
  intros Hty. unfold sendNotification.
  rewrite bool_decide_eq_false_2 by done. cbn [foldl].
  rewrite rate_limit_single by done. cbv zeta.
  set (key := getCacheKey ty fid rel). unfold canSendNotification.
  destruct (notificationCache st !! key) as [ts|] eqn:Hkey; cbn [fst snd].
  - destruct (Qle_bool _ _); cbn [fst snd].
    + rewrite bool_decide_eq_false_2 by done.
      destruct (publishFrameNotifications _ _); intros [= <- <-] _;
        exists (S (readings st)); cbn [readings notificationCache];
        (split_and!; [lia|done|]); intros Hkeep;
        apply map_lookup_filter_Some; by rewrite lookup_insert_eq.
    + rewrite bool_decide_eq_true_2 by done. by intros [= <- <-].
  - rewrite bool_decide_eq_false_2 by done.
    destruct (publishFrameNotifications _ _); intros [= <- <-] _;
      exists (readings st); cbn [readings notificationCache];
      (split_and!; [lia|done|]); intros Hkeep;
      apply map_lookup_filter_Some; by rewrite lookup_insert_eq.
Qed.

(** A notification whose key is younger than 30 seconds is skipped. *)
Lemma sendNotification_limited fid title body url ty rel st timestamp :
  ty ≠ "" →
  notificationCache st !! getCacheKey ty fid rel = Some timestamp →
  Date_now (readings st) - timestamp < 30000 →
  send (FidArray [fid]) title body url (Some ty) rel st
  = (mkSendResult false "All notifications rate limited" 0 1 None None,
     mkState (notificationCache st) (S (readings st)) (published st)).
Proof.
  intros Hty Hkey Hnow. unfold sendNotification.
  rewrite bool_decide_eq_false_2 by done. cbn [foldl].
  rewrite rate_limit_single by done. cbv zeta.
  unfold canSendNotification. rewrite Hkey, cooldown_running by done.
  cbn [fst snd]. by rewrite bool_decide_eq_true_2.
Qed.

(** X29. A connection request is announced once in 30 seconds: when a
    notification of a request from one user to another has been passed to
    the API, delivered or not, and the same notification is asked for
    again while the clock is less than 30 seconds past its reading at the
    start of the first call, the second call is skipped as rate limited
    and makes no call of the API. *)
Theorem connection_request_is_announced_once_in_30_seconds db fromFid toFid
    st r1 st1 :
  (∀ i j, (i ≤ j)%nat → Date_now i ≤ Date_now j) →
  notifyConnectionRequest Date_now publishFrameNotifications FRONTEND_URL
    substring db fromFid toFid st = (r1, st1) →
  published st1 ≠ published st →
  Date_now (readings st1) < Date_now (readings st) + 30000 →
  notifyConnectionRequest Date_now publishFrameNotifications FRONTEND_URL
    substring db fromFid toFid st1
  = (mkSendResult false "All notifications rate limited" 0 1 None None,
     mkState (notificationCache st1) (S (readings st1)) (published st1)).
Proof.
  intros Hmono H1 Hpub Hsoon. unfold notifyConnectionRequest in H1 |- *.
  assert (CONNECTION_REQUEST ≠ "") as Hty by done.
  destruct (sendNotification_reached_api _ _ _ _ _ _ _ _ _ Hty H1 Hpub)
    as (k & Hk & Hst1 & Hkey).
  pose proof (Hmono _ _ Hk) as Hstart.
  assert (Date_now (S k) ≤ Date_now (readings st1)) as Hclean
    by (apply Hmono; lia).
  apply (sendNotification_limited _ _ _ _ _ _ _ (Date_now k)); [done| |lia].
  apply Hkey. lia.
Qed.

End NotificationLimits.

(** X29 with a clock that advances one second a reading: user 1 asks
    user 2 twice. *)
Lemma connection_request_is_announced_once_in_30_seconds_witness :
  ∃ r1 st1,
    NotificationService.notifyConnectionRequest second_clock accepting_api
      None (λ s _ _, s) empty_db 1 2 (NotificationService.mkState ∅ 0 [])
    = (r1, st1)
    ∧ NotificationService.success r1 = true
    ∧ NotificationService.notifyConnectionRequest second_clock accepting_api
        None (λ s _ _, s) empty_db 1 2 st1
      = (NotificationService.mkSendResult false
           "All notifications rate limited" 0 1 None None,
         NotificationService.mkState
           (NotificationService.notificationCache st1)
           (S (NotificationService.readings st1))
           (NotificationService.published st1)).
Proof.
  destruct (NotificationService.notifyConnectionRequest second_clock
              accepting_api None (λ s _ _, s) empty_db 1 2
              (NotificationService.mkState ∅ 0 [])) as [r1 st1] eqn:H.
  exists r1, st1. split; [done|].
  assert (NotificationService.success r1 = true
          ∧ NotificationService.readings st1 = 2%nat
          ∧ length (NotificationService.published st1) = 1%nat)
    as (Hs & Hr & Hp) by (vm_compute in H; by injection H as <- <-).
  split; [done|].
  apply (connection_request_is_announced_once_in_30_seconds second_clock
           unit accepting_api None (λ s _ _, s) empty_db 1 2
           (NotificationService.mkState ∅ 0 []) r1 st1).
  - intros i j Hij. unfold second_clock. lia.
  - done.
  - intros Heq. rewrite Heq in Hp. done.
  - rewrite Hr. vm_compute. reflexivity.
Defined.

(** ** Feed endpoint: what the controller lets through *)

Section FeedEndpoint.

Import FeedService.

Variable neynar_feed : list Z → option Z → FetchOutcome.
Variable Date_getTime : string → option Z.
Variable encodeCursor : Offset → Z → string.
Variable decodeCursor : string → option Offset.
Variable String_toNumber : string → JsNumber.
Variable parseInt : string → option Z.

Lemma feed_page_by_matches db now userFid limit cursor r :
  getConnectedUsersFeed neynar_feed Date_getTime encodeCursor decodeCursor
    String_toNumber db now userFid limit cursor = Ok r →
  Forall (λ cast, ∃ f, authorFid cast = Some f
                       ∧ f ∈ DbService.getUserMatches db userFid)
    (casts r).
Proof.
  intros Hr. destruct (decide (DbService.getUserMatches db userFid = []))
    as [Hm|Hm].
  - unfold getConnectedUsersFeed in Hr.
    rewrite bool_decide_eq_true_2 in Hr by done. injection Hr as <-.
    constructor.
  - destruct (feed_page_is_a_slice _ _ _ _ _ _ _ _ _ _ _ Hr Hm)
      as (fetched & calls & start & stop & _ & ->).
    apply Forall_forall. intros c Hc.
    apply js_slice_subseteq in Hc. by eapply processCasts_authored.
Qed.

Lemma feed_page_within_limit db now userFid limit cursor r (start : Z) :
  0 ≤ limit →
  startIndexOf decodeCursor cursor = NumberOffset start →
  getConnectedUsersFeed neynar_feed Date_getTime encodeCursor decodeCursor
    String_toNumber db now userFid limit cursor = Ok r →
  Z.of_nat (length (casts r)) ≤ limit.
Proof.
  intros Hlimit Hstart.
  rewrite (feed_integer_offset _ _ _ _ _ _ _ _ _ _ _ Hstart). cbv zeta.
  case_bool_decide as Hm; [intros [= <-]; simpl; lia|].
  destruct (fetchAllCasts _ _ _) as [[fetched calls]|]; [|done].
  intros [= <-]. cbn [casts]. by apply js_slice_length_le.
Qed.

(** X30. What the feed endpoint answers with status 200: the fid and the
    limit of the query were read as numbers, the limit, 25 when the query
    has none, lies between 1 and 100 and reaches the feed unchanged, every
    cast of the page is by a match of the user, and the page holds at most
    that many casts when the offset of the cursor is an integer, as it is
    for the cursors the service hands out and for an absent cursor. *)
Theorem feed_endpoint_serves_the_requested_limit db now query feed :
  FeedController.getFeed neynar_feed Date_getTime encodeCursor decodeCursor
    String_toNumber parseInt db now query
    = Ok (FeedController.Status200 feed) →
  ∃ fidNumber limitNumber,
    parseInt (default "" (FeedController.fid query)) = Some fidNumber
    ∧ (if truthy_str (FeedController.limit query)
       then parseInt (default "" (FeedController.limit query))
            = Some limitNumber
       else limitNumber = 25)
    ∧ 1 ≤ limitNumber ≤ 100
    ∧ getConnectedUsersFeed neynar_feed Date_getTime encodeCursor
        decodeCursor String_toNumber db now fidNumber limitNumber
        (or_str (FeedController.cursor query) None) = Ok feed
    ∧ Forall (λ cast, ∃ f, authorFid cast = Some f
                           ∧ f ∈ DbService.getUserMatches db fidNumber)
        (casts feed)
    ∧ ∀ start : Z,
        startIndexOf decodeCursor (or_str (FeedController.cursor query) None)
          = NumberOffset start →
        Z.of_nat (length (casts feed)) ≤ limitNumber.
Proof.
  unfold FeedController.getFeed.
  destruct (truthy_str (FeedController.fid query)); [|done]. cbn [negb].
  destruct (parseInt (default "" (FeedController.fid query)))
    as [fidNumber|]; [|done].
  assert (∀ limitNumber,
            1 ≤ limitNumber ≤ 100 →
            match getFeed neynar_feed Date_getTime encodeCursor decodeCursor
                    String_toNumber db now fidNumber
                    (mkOptions (Some limitNumber)
                       (or_str (FeedController.cursor query) None)) with
            | Ok feedData => Ok (FeedController.Status200 feedData)
            | Err message => Err message
            end = Ok (FeedController.Status200 feed) →
            getConnectedUsersFeed neynar_feed Date_getTime encodeCursor
              decodeCursor String_toNumber db now fidNumber limitNumber
              (or_str (FeedController.cursor query) None) = Ok feed)
    as Hserve.
  { intros limitNumber Hrange. unfold getFeed.
    cbn -[getConnectedUsersFeed Z.min Z.max].
    rewrite Z.max_r, Z.min_l by lia.
    destruct (getConnectedUsersFeed _ _ _ _ _ _ _ _ _ _) as [r|]; [|done].
    by intros [= ->]. }
  destruct (truthy_str (FeedController.limit query)).
  - destruct (parseInt (default "" (FeedController.limit query)))
      as [limitNumber|]; [|done].
    destruct (Z.ltb_spec limitNumber 1); [done|].
    destruct (Z.ltb_spec 100 limitNumber); [done|]. cbn [orb].
    intros Hfeed%Hserve; [|lia]. exists fidNumber, limitNumber.
    split_and!; [done..|lia|lia|done| |].
    + by eapply feed_page_by_matches.
    + intros start Hstart.
      apply (feed_page_within_limit db now fidNumber limitNumber
               (or_str (FeedController.cursor query) None) feed start);
        [lia|done..].
  - intros Hfeed%Hserve; [|lia]. exists fidNumber, 25.
    split_and!; [done..|lia|lia|done| |].
    + by eapply feed_page_by_matches.
    + intros start Hstart.
      apply (feed_page_within_limit db now fidNumber 25
               (or_str (FeedController.cursor query) None) feed start);
        [lia|done..].
Qed.

End FeedEndpoint.

(** X30 on the query [?fid=1&limit=10] against a feed of 25 casts. *)
Lemma feed_endpoint_serves_the_requested_limit_witness :
  ∃ feed,
    FeedController.getFeed long_feed iso_getTime json_encodeCursor
      json_decodeCursor digits_toNumber ascii_parseInt mutual_db
      1700000000000 (FeedController.mkQuery (Some "1") (Some "10") None)
    = Ok (FeedController.Status200 feed)
    ∧ Z.of_nat (length (FeedService.casts feed)) ≤ 10
    ∧ Forall (λ cast, ∃ f, FeedService.authorFid cast = Some f
                           ∧ f ∈ DbService.getUserMatches mutual_db 1)
        (FeedService.casts feed).
Proof.
  destruct (FeedController.getFeed long_feed iso_getTime
              json_encodeCursor json_decodeCursor digits_toNumber
              ascii_parseInt mutual_db 1700000000000
              (FeedController.mkQuery (Some "1") (Some "10") None))
    as [[message|feed]|] eqn:H; [vm_compute in H; discriminate| |
                                 vm_compute in H; discriminate].
  exists feed. split; [done|].
  destruct (feed_endpoint_serves_the_requested_limit long_feed
              iso_getTime json_encodeCursor json_decodeCursor
              digits_toNumber ascii_parseInt mutual_db 1700000000000
              (FeedController.mkQuery (Some "1") (Some "10") None) feed H)
    as (fidNumber & limitNumber & Hfid & Hlimit & _ & _ & Hall & Hlen).
  vm_compute in Hfid. injection Hfid as <-.
  vm_compute in Hlimit. injection Hlimit as <-.
  split; [|done]. by apply (Hlen 0).
Defined.
